(** * AIFitnessCoach: squat repetition counter and joint-angle computation

    A shallow embedding of [src/app/src/utils/CalculateAngle.ts] and of
    [src/app/src/screens/CameraScreen.js]: the squat analysis
    ([resetSquatRep], [analyzeSquat], [handleLandmark], [resetCounter],
    [getNormalizedBodyMeasurement], [onFlip] and the test-warning button),
    the recording screen ([startRecording], [stopRecording],
    [handleRecordPress], [formatDuration], its timer and its cleanup) and
    the streaming screen ([captureAndStreamFrame], [processAndSendFrame],
    [connectWebSocket], [disconnectWebSocket], [startStreaming],
    [stopStreaming], [handleCirclePress]).

    - JavaScript numbers are IEEE 754 binary64 values: the kernel's primitive
      floats, with [Math.max], [Math.min], [Math.round] and [Math.acos]
      written out from ECMAScript.
    - The object behind [squatState.current] lives in an explicit store:
      [resetSquatRep] allocates a fresh object (object spread) and redirects
      the ref, while [analyzeSquat] and the timer callback keep writing to the
      object they captured.
    - [setTimeout]/[clearTimeout] are a table of pending timers and a clock;
      [Date.now()] reads that clock.
    - React state ([squatCounter], [squatStage], [warningMessages],
      [currentAngles], [displayAngles]) is part of the world record; a
      component function call runs to completion and its updates are
      applied in program order. A handler reads the state of the render it
      belongs to: [analyzeSquat] reads [displayAngles.showingLastRep], and
      [showAnglesSeen], [analyzeSquat_bodySeen] and [tickSeen] take that
      flag as an input. [showAngles], [analyzeSquat], [tick], [step] and
      [run] are the handlers of the latest render, where the flag is the
      one of the world the call starts in. [squatCounter] is a natural
      number: a JavaScript number counts exactly up to 2^53.
    - The recording and the streaming screen are machines over the events
      of their environment (presses, the camera, timers, promises that
      settle, the socket); there a press or a timer callback carries the
      state of the render it belongs to. *)

From Stdlib Require Import ZArith NArith Floats Bool List String Ascii Lia.
From Stdlib Require Import DecimalString DecimalN.
From Stdlib Require Uint63.
From stdpp Require Import base list.
Import ListNotations.

Open Scope float_scope.

(** ** JavaScript numbers *)

Module Js.

(** [Math.PI] *)
Definition Math_PI : float := 0x1.921fb54442d18p+1.

(** [a > b] and [a < b] on numbers: false as soon as one side is NaN. *)
Definition gt (a b : float) : bool := b <? a.
Definition lt (a b : float) : bool := a <? b.

(** [Math.max(a, b)]: NaN if either argument is NaN; +0 is larger than -0. *)
Definition Math_max (a b : float) : float :=
  if is_nan a || is_nan b then nan
  else if a <? b then b
  else if b <? a then a
  else if is_zero a && get_sign a then b
  else a.

(** [Math.min(a, b)]: NaN if either argument is NaN; -0 is smaller than +0. *)
Definition Math_min (a b : float) : float :=
  if is_nan a || is_nan b then nan
  else if a <? b then a
  else if b <? a then b
  else if is_zero a && get_sign a then a
  else b.

(** A non-negative integer below 2^53 as a number. *)
Definition of_Z (n : Z) : float := of_uint63 (Uint63.of_Z n).

(** [Math.round(x)]: NaN, infinities, zeros and integers are returned as
    they are; otherwise the integer nearest to [x], ties towards +infinity,
    with -0 for [-0.5 <= x < 0]. A finite [x] is [(-1)^s * m * 2^e]. *)
Definition Math_round (x : float) : float :=
  match Prim2SF x with
  | S754_finite s m e =>
      if (0 <=? e)%Z then x
      else
        let v := if s then Z.neg m else Z.pos m in
        let n := ((2 * v + 2 ^ (- e)) / 2 ^ (1 - e))%Z in
        if (n =? 0)%Z then (if s then (-0) else 0)
        else if (n <? 0)%Z then - of_Z (- n)
        else of_Z n
  | _ => x
  end.

(** [x ** 2]: the exponent 2 makes NaN of NaN, +infinity of either
    infinity and +0 of either zero, which is what the product gives; for the
    other bases the product is the correctly rounded square. *)
Definition sq (x : float) : float := x * x.

(** [Math.sqrt(x)] *)
Definition Math_sqrt (x : float) : float := PrimFloat.sqrt x.

Section Acos.

(** The inverse cosine of the host's math library on [-1, 1), which
    ECMAScript leaves implementation-approximated. *)
Variable acos_approx : float -> float.

(** [Math.acos(x)]: NaN for NaN and outside [-1, 1], +0 at 1. *)
Definition Math_acos (x : float) : float :=
  if is_nan x || (1 <? x) || (x <? -1) then nan
  else if x =? 1 then 0
  else acos_approx x.

End Acos.

End Js.

(** ** CalculateAngle.ts *)

(** The two-element arrays [number[]] the callers pass. *)
Definition Vec2 : Type := (float * float)%type.

Section CalculateAngle.

Variable acos_approx : float -> float.

Definition calculateAngle (a b c : Vec2) : float :=
  let vectorBA := (fst a - fst b, snd a - snd b) in
  let vectorBC := (fst c - fst b, snd c - snd b) in
  let dotProduct :=
    fst vectorBA * fst vectorBC + snd vectorBA * snd vectorBC in
  let magnitudeBA :=
    Js.Math_sqrt (Js.sq (fst vectorBA) + Js.sq (snd vectorBA)) in
  let magnitudeBC :=
    Js.Math_sqrt (Js.sq (fst vectorBC) + Js.sq (snd vectorBC)) in
  let cosTheta := dotProduct / (magnitudeBA * magnitudeBC) in
  let clampedCosTheta := Js.Math_max (-1) (Js.Math_min 1 cosTheta) in
  let angleInRadians := Js.Math_acos acos_approx clampedCosTheta in
  let angleInDegrees := (angleInRadians * 180) / Js.Math_PI in
  let angleInDegrees := 180 - angleInDegrees in
  Js.Math_round angleInDegrees.

End CalculateAngle.

(** The cosine [calculateAngle] hands to [Math.acos]. *)
Definition clampedCosTheta (a b c : Vec2) : float :=
  let vectorBA := (fst a - fst b, snd a - snd b) in
  let vectorBC := (fst c - fst b, snd c - snd b) in
  let dotProduct :=
    fst vectorBA * fst vectorBC + snd vectorBA * snd vectorBC in
  let magnitudeBA :=
    Js.Math_sqrt (Js.sq (fst vectorBA) + Js.sq (snd vectorBA)) in
  let magnitudeBC :=
    Js.Math_sqrt (Js.sq (fst vectorBC) + Js.sq (snd vectorBC)) in
  Js.Math_max (-1) (Js.Math_min 1 (dotProduct / (magnitudeBA * magnitudeBC))).

(** ** CameraScreen.js: data *)

(** A detected landmark [{x, y}]. *)
Record Landmark : Type := mkLandmark { lx : float; ly : float }.

(** The [landmarks] array of a frame: a slot holds a landmark or nothing
    ([undefined]/[null]); reading past the end gives [undefined] as well. *)
Definition Landmarks : Type := list (option Landmark).

Definition landmarkAt (landmarks : Landmarks) (i : nat) : option Landmark :=
  mjoin (landmarks !! i).

Module LANDMARK_INDICES.
Definition RIGHT_SHOULDER : nat := 11.
Definition RIGHT_HIP : nat := 23.
Definition RIGHT_KNEE : nat := 25.
Definition RIGHT_ANKLE : nat := 27.
Definition RIGHT_HEEL : nat := 29.
Definition RIGHT_FOOT_INDEX : nat := 31.
End LANDMARK_INDICES.

(** A handle returned by [setTimeout]: a positive integer, hence truthy. *)
Abbreviation TimerId := nat.

(** The object kept in the [squatState] ref. *)
Record SquatState : Type := mkSquatState {
  descending : bool;
  minKneeAngle : float;
  minHipAngle : float;
  maxKneeForward : float;
  depthWarningGiven : bool;
  backWarningGiven : bool;
  toeWarningGiven : bool;
  lastWarningTime : Z;
  maxKneeAngle : float;
  maxHipAngle : float;
  maxHeelAngle : float;
  minHipAnkleDiff : float;
  angleDisplayTimer : option TimerId
}.

(** The initial value of [useRef]. *)
Definition initialSquatState : SquatState :=
  {| descending := false; minKneeAngle := 360; minHipAngle := 360;
     maxKneeForward := -1; depthWarningGiven := false;
     backWarningGiven := false; toeWarningGiven := false;
     lastWarningTime := 0; maxKneeAngle := 0; maxHipAngle := 0;
     maxHeelAngle := 0; minHipAnkleDiff := 999; angleDisplayTimer := None |}.

#[global] Instance SquatState_inhabited : Inhabited SquatState :=
  populate initialSquatState.

(** Field assignments [state.f = v]. *)
Definition set_descending (v : bool) (s : SquatState) : SquatState :=
  mkSquatState v (minKneeAngle s) (minHipAngle s) (maxKneeForward s)
    (depthWarningGiven s) (backWarningGiven s) (toeWarningGiven s)
    (lastWarningTime s) (maxKneeAngle s) (maxHipAngle s) (maxHeelAngle s)
    (minHipAnkleDiff s) (angleDisplayTimer s).

Definition set_minKneeAngle (v : float) (s : SquatState) : SquatState :=
  mkSquatState (descending s) v (minHipAngle s) (maxKneeForward s)
    (depthWarningGiven s) (backWarningGiven s) (toeWarningGiven s)
    (lastWarningTime s) (maxKneeAngle s) (maxHipAngle s) (maxHeelAngle s)
    (minHipAnkleDiff s) (angleDisplayTimer s).

Definition set_maxKneeForward (v : float) (s : SquatState) : SquatState :=
  mkSquatState (descending s) (minKneeAngle s) (minHipAngle s) v
    (depthWarningGiven s) (backWarningGiven s) (toeWarningGiven s)
    (lastWarningTime s) (maxKneeAngle s) (maxHipAngle s) (maxHeelAngle s)
    (minHipAnkleDiff s) (angleDisplayTimer s).

Definition set_depthWarningGiven (v : bool) (s : SquatState) : SquatState :=
  mkSquatState (descending s) (minKneeAngle s) (minHipAngle s)
    (maxKneeForward s) v (backWarningGiven s) (toeWarningGiven s)
    (lastWarningTime s) (maxKneeAngle s) (maxHipAngle s) (maxHeelAngle s)
    (minHipAnkleDiff s) (angleDisplayTimer s).

Definition set_lastWarningTime (v : Z) (s : SquatState) : SquatState :=
  mkSquatState (descending s) (minKneeAngle s) (minHipAngle s)
    (maxKneeForward s) (depthWarningGiven s) (backWarningGiven s)
    (toeWarningGiven s) v (maxKneeAngle s) (maxHipAngle s) (maxHeelAngle s)
    (minHipAnkleDiff s) (angleDisplayTimer s).

Definition set_maxKneeAngle (v : float) (s : SquatState) : SquatState :=
  mkSquatState (descending s) (minKneeAngle s) (minHipAngle s)
    (maxKneeForward s) (depthWarningGiven s) (backWarningGiven s)
    (toeWarningGiven s) (lastWarningTime s) v (maxHipAngle s) (maxHeelAngle s)
    (minHipAnkleDiff s) (angleDisplayTimer s).

Definition set_maxHipAngle (v : float) (s : SquatState) : SquatState :=
  mkSquatState (descending s) (minKneeAngle s) (minHipAngle s)
    (maxKneeForward s) (depthWarningGiven s) (backWarningGiven s)
    (toeWarningGiven s) (lastWarningTime s) (maxKneeAngle s) v (maxHeelAngle s)
    (minHipAnkleDiff s) (angleDisplayTimer s).

Definition set_maxHeelAngle (v : float) (s : SquatState) : SquatState :=
  mkSquatState (descending s) (minKneeAngle s) (minHipAngle s)
    (maxKneeForward s) (depthWarningGiven s) (backWarningGiven s)
    (toeWarningGiven s) (lastWarningTime s) (maxKneeAngle s) (maxHipAngle s) v
    (minHipAnkleDiff s) (angleDisplayTimer s).

Definition set_angleDisplayTimer (v : option TimerId) (s : SquatState)
  : SquatState :=
  mkSquatState (descending s) (minKneeAngle s) (minHipAngle s)
    (maxKneeForward s) (depthWarningGiven s) (backWarningGiven s)
    (toeWarningGiven s) (lastWarningTime s) (maxKneeAngle s) (maxHipAngle s)
    (maxHeelAngle s) (minHipAnkleDiff s) v.

(** The [currentAngles] React state. *)
Record CurrentAngles : Type := mkCurrentAngles {
  c_kneeAngle : float;
  c_hipAngle : float;
  c_heelAngle : float;
  c_minKneeAngle : float;
  c_minHipAngle : float;
  c_maxKneeAngle : float;
  c_maxHipAngle : float;
  c_maxHeelAngle : float;
  c_hipAnkleDiff : float;
  c_minHipAnkleDiff : float;
  c_maxKneeForward : float
}.

(** The [displayAngles] React state. *)
Record DisplayAngles : Type := mkDisplayAngles {
  d_kneeAngle : float;
  d_hipAngle : float;
  d_heelAngle : float;
  d_minKneeAngle : float;
  d_minHipAngle : float;
  d_maxKneeAngle : float;
  d_maxHipAngle : float;
  d_maxHeelAngle : float;
  showingLastRep : bool;
  d_hipAnkleDiff : float;
  d_minHipAnkleDiff : float
}.

Definition set_showingLastRep (v : bool) (d : DisplayAngles) : DisplayAngles :=
  mkDisplayAngles (d_kneeAngle d) (d_hipAngle d) (d_heelAngle d)
    (d_minKneeAngle d) (d_minHipAngle d) (d_maxKneeAngle d) (d_maxHipAngle d)
    (d_maxHeelAngle d) v (d_hipAnkleDiff d) (d_minHipAnkleDiff d).

Definition initialCurrentAngles : CurrentAngles :=
  {| c_kneeAngle := 0; c_hipAngle := 0; c_heelAngle := 0;
     c_minKneeAngle := 360; c_minHipAngle := 360; c_maxKneeAngle := 0;
     c_maxHipAngle := 0; c_maxHeelAngle := 0; c_hipAnkleDiff := 0;
     c_minHipAnkleDiff := 999; c_maxKneeForward := -1 |}.

Definition initialDisplayAngles : DisplayAngles :=
  {| d_kneeAngle := 0; d_hipAngle := 0; d_heelAngle := 0;
     d_minKneeAngle := 360; d_minHipAngle := 360; d_maxKneeAngle := 0;
     d_maxHipAngle := 0; d_maxHeelAngle := 0; showingLastRep := false;
     d_hipAnkleDiff := 0; d_minHipAnkleDiff := 999 |}.

(** A pending [setTimeout] of [analyzeSquat]: its handle, the clock value at
    which it is due, and the object its callback captured as [state]. *)
Record Timer : Type := mkTimer {
  tid : TimerId;
  due : Z;
  captured : nat
}.

(** The component instance: the store of squat-state objects with the ref
    pointing into it, the React state, the pending timers and the clock
    (milliseconds, [Date.now()]). *)
Record World : Type := mkWorld {
  heap : list SquatState;
  squatState_current : nat;
  squatCounter : N;
  squatStage : option string;
  warningMessages : list string;
  currentAngles : CurrentAngles;
  displayAngles : DisplayAngles;
  timers : list Timer;
  nextTimer : TimerId;
  now : Z
}.

(** The component as first rendered at clock value [t0]. *)
Definition initialWorld (t0 : Z) : World :=
  {| heap := [initialSquatState]; squatState_current := 0;
     squatCounter := 0; squatStage := None; warningMessages := [];
     currentAngles := initialCurrentAngles;
     displayAngles := initialDisplayAngles;
     timers := []; nextTimer := 1%nat; now := t0 |}.

(** The object at a location, and the object the ref points to. *)
Definition obj (w : World) (l : nat) : SquatState := heap w !!! l.
Definition current (w : World) : SquatState := obj w (squatState_current w).

(** In-place update of the object at a location. *)
Definition mutate (l : nat) (f : SquatState -> SquatState) (w : World)
  : World :=
  mkWorld (alter f l (heap w)) (squatState_current w) (squatCounter w)
    (squatStage w) (warningMessages w) (currentAngles w) (displayAngles w)
    (timers w) (nextTimer w) (now w).

(** React state setters. *)
Definition setSquatCounter (f : N -> N) (w : World) : World :=
  mkWorld (heap w) (squatState_current w) (f (squatCounter w))
    (squatStage w) (warningMessages w) (currentAngles w) (displayAngles w)
    (timers w) (nextTimer w) (now w).

Definition setSquatStage (v : option string) (w : World) : World :=
  mkWorld (heap w) (squatState_current w) (squatCounter w) v
    (warningMessages w) (currentAngles w) (displayAngles w)
    (timers w) (nextTimer w) (now w).

Definition setWarningMessages (v : list string) (w : World) : World :=
  mkWorld (heap w) (squatState_current w) (squatCounter w) (squatStage w) v
    (currentAngles w) (displayAngles w) (timers w) (nextTimer w) (now w).

Definition setCurrentAngles (v : CurrentAngles) (w : World) : World :=
  mkWorld (heap w) (squatState_current w) (squatCounter w) (squatStage w)
    (warningMessages w) v (displayAngles w) (timers w) (nextTimer w) (now w).

Definition setDisplayAngles (f : DisplayAngles -> DisplayAngles) (w : World)
  : World :=
  mkWorld (heap w) (squatState_current w) (squatCounter w) (squatStage w)
    (warningMessages w) (currentAngles w) (f (displayAngles w))
    (timers w) (nextTimer w) (now w).

(** [clearTimeout(id)]: the timer, if still pending, is dropped. *)
Definition clearTimeout (id : TimerId) (w : World) : World :=
  mkWorld (heap w) (squatState_current w) (squatCounter w) (squatStage w)
    (warningMessages w) (currentAngles w) (displayAngles w)
    (filter (fun t => tid t <> id) (timers w)) (nextTimer w) (now w).

(** [setTimeout(callback, delay)] for the callback of [analyzeSquat] that
    captured the object at [l]: the fresh handle and the new world. *)
Definition setTimeout (l : nat) (delay : Z) (w : World) : TimerId * World :=
  (nextTimer w,
   mkWorld (heap w) (squatState_current w) (squatCounter w) (squatStage w)
     (warningMessages w) (currentAngles w) (displayAngles w)
     (timers w ++ [mkTimer (nextTimer w) (now w + delay) l])
     (S (nextTimer w)) (now w)).

(** ** CameraScreen.js: operations *)

(** [resetSquatRep]: a new object, the spread of the current one with the
    per-repetition fields overwritten, becomes [squatState.current]. The old
    object stays where it is. *)
Definition resetSquatRep (w : World) : World :=
  let old := current w in
  let fresh :=
    {| descending := false; minKneeAngle := 360; minHipAngle := 360;
       maxKneeAngle := 0; maxHipAngle := 0; maxHeelAngle := 0;
       maxKneeForward := -1; depthWarningGiven := false;
       backWarningGiven := false; toeWarningGiven := false;
       minHipAnkleDiff := 999;
       lastWarningTime := lastWarningTime old;
       angleDisplayTimer := angleDisplayTimer old |} in
  mkWorld (heap w ++ [fresh]) (length (heap w)) (squatCounter w)
    (squatStage w) (warningMessages w) (currentAngles w) (displayAngles w)
    (timers w) (nextTimer w) (now w).

(** The callback handed to [setTimeout] in [analyzeSquat]; [state] is the
    object the enclosing call had read from the ref. *)
Definition angleDisplayTimeout (state : nat) (w : World) : World :=
  let w := setDisplayAngles (set_showingLastRep false) w in
  mutate state (set_angleDisplayTimer None) w.

(** [analyzeSquat] from the point where the three angles are known, block by
    block. [state] is the object read from the ref at the start of the call
    ([const state = squatState.current]) and [currentTime] the clock read
    there ([Date.now()]). *)

(** [setCurrentAngles] and, unless the last repetition is on display,
    [setDisplayAngles] with the live angles. The test reads
    [displayAngles.showingLastRep] from the closure of the handler, that is
    from the render the handler belongs to: [showingLastRep_seen] is the
    flag that render has. *)
Definition showAnglesSeen (showingLastRep_seen : bool)
    (kneeAngle hipAngle heelAngle : float) (w0 : World) : World :=
  let w := setCurrentAngles
    {| c_kneeAngle := kneeAngle; c_hipAngle := hipAngle;
       c_heelAngle := heelAngle;
       c_minKneeAngle := minKneeAngle (current w0);
       c_minHipAngle := minHipAngle (current w0);
       c_hipAnkleDiff := 0;
       c_maxKneeAngle := maxKneeAngle (current w0);
       c_maxHipAngle := maxHipAngle (current w0);
       c_maxHeelAngle := maxHeelAngle (current w0);
       c_minHipAnkleDiff := minHipAnkleDiff (current w0);
       c_maxKneeForward := maxKneeForward (current w0) |} w0 in
  if negb showingLastRep_seen then
    setDisplayAngles (fun _ =>
      {| d_kneeAngle := kneeAngle; d_hipAngle := hipAngle;
         d_heelAngle := heelAngle;
         d_minKneeAngle := minKneeAngle (current w0);
         d_minHipAngle := minHipAngle (current w0);
         showingLastRep := false;
         d_hipAnkleDiff := 0;
         d_maxKneeAngle := maxKneeAngle (current w0);
         d_maxHipAngle := maxHipAngle (current w0);
         d_maxHeelAngle := maxHeelAngle (current w0);
         d_minHipAnkleDiff := minHipAnkleDiff (current w0) |}) w
  else w.

(** The same block in the handler of the latest render, whose
    [displayAngles] is that of the world the call starts in. *)
Definition showAngles (kneeAngle hipAngle heelAngle : float) (w0 : World)
  : World :=
  showAnglesSeen (showingLastRep (displayAngles w0))
    kneeAngle hipAngle heelAngle w0.

(** "Start going down": [if (kneeAngle > 85 && !state.descending)]. *)
Definition startGoingDown (state : nat) (kneeAngle hipAngle heelAngle : float)
    (w : World) : World :=
  if Js.gt kneeAngle 85 && negb (descending (obj w state)) then
    let w := mutate state (set_descending true) w in
    let w := mutate state (set_maxKneeAngle kneeAngle) w in
    let w := mutate state (set_maxHipAngle hipAngle) w in
    let w := mutate state (set_maxHeelAngle heelAngle) w in
    let w := mutate state (set_minKneeAngle kneeAngle) w in
    setSquatStage (Some "down"%string) w
  else w.

(** "While going down, track angles": [if (state.descending)]. *)
Definition trackAngles (state : nat)
    (kneeAngle hipAngle heelAngle rKnee_x : float) (w : World) : World :=
  if descending (obj w state) then
    let w := mutate state (fun s =>
               set_maxKneeAngle (Js.Math_max (maxKneeAngle s) kneeAngle) s) w in
    let w := mutate state (fun s =>
               set_maxHipAngle (Js.Math_max (maxHipAngle s) hipAngle) s) w in
    let w := mutate state (fun s =>
               set_maxHeelAngle (Js.Math_max (maxHeelAngle s) heelAngle) s) w in
    let w := mutate state (fun s =>
               set_maxKneeForward
                 (Js.Math_max (maxKneeForward s) rKnee_x) s) w in
    mutate state (fun s =>
      set_minKneeAngle (Js.Math_min (minKneeAngle s) kneeAngle) s) w
  else w.

(** "Check knee position": the depth rule, filling [newWarnings]. The two
    rules after it in the source are commented out. *)
Definition checkKneePosition (state : nat) (newWarnings : list string)
    (w : World) : list string * World :=
  if negb (depthWarningGiven (obj w state)) then
    if Js.gt (maxKneeAngle (obj w state)) 140 then
      (newWarnings ++ ["Too deep! Protect your knees"%string],
       mutate state (set_depthWarningGiven true) w)
    else if Js.lt (maxKneeAngle (obj w state)) 100 then
      (newWarnings ++ ["Not deep enough! Go deeper"%string],
       mutate state (set_depthWarningGiven true) w)
    else (newWarnings, w)
  else (newWarnings, w).

(** The last-repetition display: [setDisplayAngles(finalAngles)], the pending
    timer cleared and a new one set for 3000 ms. *)
Definition showLastRep (state : nat) (kneeAngle hipAngle heelAngle : float)
    (w : World) : World :=
  let finalAngles :=
    {| d_kneeAngle := kneeAngle; d_hipAngle := hipAngle;
       d_heelAngle := heelAngle;
       d_minKneeAngle := minKneeAngle (obj w state);
       d_minHipAngle := minHipAngle (obj w state);
       showingLastRep := true;
       d_hipAnkleDiff := 0;
       d_maxKneeAngle := maxKneeAngle (obj w state);
       d_maxHipAngle := maxHipAngle (obj w state);
       d_maxHeelAngle := maxHeelAngle (obj w state);
       d_minHipAnkleDiff := minHipAnkleDiff (obj w state) |} in
  let w := setDisplayAngles (fun _ => finalAngles) w in
  (* Clear any existing timer *)
  let w :=
    match angleDisplayTimer (obj w state) with
    | Some id => clearTimeout id w
    | None => w
    end in
  let '(id, w) := setTimeout state 3000 w in
  mutate state (set_angleDisplayTimer (Some id)) w.

(** "When user stands up fully": [if (kneeAngle < 30 && state.descending)]. *)
Definition standUp (state : nat) (currentTime : Z)
    (kneeAngle hipAngle heelAngle : float) (w : World) : World :=
  if Js.lt kneeAngle 30 && descending (obj w state) then
    let w := setSquatCounter (fun prev => (prev + 1)%N) w in
    let w := showLastRep state kneeAngle hipAngle heelAngle w in
    let '(newWarnings, w) := checkKneePosition state [] w in
    let w :=
      if (0 <? length newWarnings)%nat then
        let w := setWarningMessages newWarnings w in
        mutate state (set_lastWarningTime currentTime) w
      else w in
    (* Reset for next rep *)
    let w := resetSquatRep w in
    setSquatStage (Some "up"%string) w
  else w.

(** "Clear warnings after 2 seconds". *)
Definition clearWarnings (state : nat) (currentTime : Z) (w : World) : World :=
  if (currentTime - lastWarningTime (obj w state) >? 2000)%Z then
    setWarningMessages [] w
  else w.

(** The blocks in the order of the source, in a handler whose render has
    the flag [showingLastRep_seen]. *)
Definition analyzeSquat_bodySeen (showingLastRep_seen : bool)
    (kneeAngle hipAngle heelAngle rKnee_x : float) (w : World) : World :=
  let w := showAnglesSeen showingLastRep_seen kneeAngle hipAngle heelAngle w in
  let currentTime := now w in
  let state := squatState_current w in
  let w := startGoingDown state kneeAngle hipAngle heelAngle w in
  let w := trackAngles state kneeAngle hipAngle heelAngle rKnee_x w in
  let w := standUp state currentTime kneeAngle hipAngle heelAngle w in
  clearWarnings state currentTime w.

(** [analyzeSquat] from the angles on, in the handler of the latest
    render. *)
Definition analyzeSquat_body (kneeAngle hipAngle heelAngle rKnee_x : float)
    (w : World) : World :=
  analyzeSquat_bodySeen (showingLastRep (displayAngles w))
    kneeAngle hipAngle heelAngle rKnee_x w.

Section Component.

Variable acos_approx : float -> float.

Definition analyzeSquat (landmarks : Landmarks) (w : World) : World :=
  match landmarkAt landmarks LANDMARK_INDICES.RIGHT_SHOULDER,
        landmarkAt landmarks LANDMARK_INDICES.RIGHT_HIP,
        landmarkAt landmarks LANDMARK_INDICES.RIGHT_KNEE,
        landmarkAt landmarks LANDMARK_INDICES.RIGHT_ANKLE,
        landmarkAt landmarks LANDMARK_INDICES.RIGHT_FOOT_INDEX,
        landmarkAt landmarks LANDMARK_INDICES.RIGHT_HEEL with
  | Some rShoulder, Some rHip, Some rKnee, Some rAnkle, Some rFootIndex,
    Some rHeel =>
      let kneeAngle :=
        calculateAngle acos_approx (lx rHip, ly rHip) (lx rKnee, ly rKnee)
          (lx rAnkle, ly rAnkle) in
      let hipAngle :=
        calculateAngle acos_approx (lx rShoulder, ly rShoulder)
          (lx rHip, ly rHip) (lx rKnee, ly rKnee) in
      let heelAngle :=
        calculateAngle acos_approx (lx rFootIndex, ly rFootIndex)
          (lx rHeel, ly rHeel) (lx rKnee, ly rKnee) in
      analyzeSquat_body kneeAngle hipAngle heelAngle (lx rKnee) w
  | _, _, _, _, _, _ => w
  end.

(** [handleLandmark], without the counters it keeps for the debug panel. *)
Definition handleLandmark (landmarks : Landmarks) (w : World) : World :=
  if (0 <? length landmarks)%nat then analyzeSquat landmarks w else w.

End Component.

Definition resetCounter (w : World) : World :=
  let w := setSquatCounter (fun _ => 0%N) w in
  let w := setWarningMessages [] w in
  let w := resetSquatRep w in
  let w := setSquatStage None w in
  let w :=
    match angleDisplayTimer (current w) with
    | Some id =>
        let w := clearTimeout id w in
        mutate (squatState_current w) (set_angleDisplayTimer None) w
    | None => w
    end in
  let w := setDisplayAngles (fun _ => initialDisplayAngles) w in
  setCurrentAngles initialCurrentAngles w.

(** ** The event loop *)

(** The clock advances by [dt] milliseconds; every pending timer that has
    come due runs its callback, in the order the timers were set. *)
Definition elapse (dt : N) (w : World) : World :=
  let t := (now w + Z.of_N dt)%Z in
  let dueNow := filter (fun x => (due x <= t)%Z) (timers w) in
  let later := filter (fun x => ~ (due x <= t)%Z) (timers w) in
  foldl (fun w x => angleDisplayTimeout (captured x) w)
    (mkWorld (heap w) (squatState_current w) (squatCounter w) (squatStage w)
       (warningMessages w) (currentAngles w) (displayAngles w) later
       (nextTimer w) t)
    dueNow.

(** What can happen to the squat analysis: a frame arrives from the pose
    detector, time passes, the user presses "Reset Counter". The two other
    buttons of the screen ("Switch Camera", "Test Warning") are left out. *)
Inductive Event : Type :=
  | Frame (landmarks : Landmarks)
  | Elapse (dt : N)
  | PressReset.

Section Run.

Variable acos_approx : float -> float.

Definition step (w : World) (e : Event) : World :=
  match e with
  | Frame landmarks => handleLandmark acos_approx landmarks w
  | Elapse dt => elapse dt w
  | PressReset => resetCounter w
  end.

Definition run (w : World) (es : list Event) : World := foldl step w es.

End Run.

(** Events at the level of the computed angles: a frame whose landmarks
    gave the angles [k], [h], [e] with the knee at abscissa [x]. *)
Inductive Tick : Type :=
  | Angles (k h e x : float)
  | Wait (dt : N)
  | ResetPressed.

Definition tick (w : World) (t : Tick) : World :=
  match t with
  | Angles k h e x => analyzeSquat_body k h e x w
  | Wait dt => elapse dt w
  | ResetPressed => resetCounter w
  end.

Definition ticks (w : World) (ts : list Tick) : World := foldl tick w ts.

(** A tick together with the render whose handler takes it: the flag is the
    [displayAngles.showingLastRep] of that render. Only a frame reads it;
    the timer callback and [resetCounter] read no state of a render. *)
Definition tickSeen (w : World) (st : bool * Tick) : World :=
  match snd st with
  | Angles k h e x => analyzeSquat_bodySeen (fst st) k h e x w
  | Wait dt => elapse dt w
  | ResetPressed => resetCounter w
  end.

Definition ticksSeen (w : World) (sts : list (bool * Tick)) : World :=
  foldl tickSeen w sts.

(** Every frame of [sts], from [w] on, is taken by the handler of the
    latest render: the flag it has seen is the flag of the world it runs
    in. *)
Fixpoint latestRender (w : World) (sts : list (bool * Tick)) : Prop :=
  match sts with
  | [] => True
  | st :: sts' =>
      match snd st with
      | Angles _ _ _ _ => fst st = showingLastRep (displayAngles w)
      | _ => True
      end /\ latestRender (tickSeen w st) sts'
  end.

(** Frames as the ticks they amount to: a frame with an empty landmark
    array or without one of the six landmarks does nothing. *)
Section Lower.

Variable acos_approx : float -> float.

Definition frameAngles (landmarks : Landmarks)
  : option (float * float * float * float) :=
  match landmarkAt landmarks LANDMARK_INDICES.RIGHT_SHOULDER,
        landmarkAt landmarks LANDMARK_INDICES.RIGHT_HIP,
        landmarkAt landmarks LANDMARK_INDICES.RIGHT_KNEE,
        landmarkAt landmarks LANDMARK_INDICES.RIGHT_ANKLE,
        landmarkAt landmarks LANDMARK_INDICES.RIGHT_FOOT_INDEX,
        landmarkAt landmarks LANDMARK_INDICES.RIGHT_HEEL with
  | Some rShoulder, Some rHip, Some rKnee, Some rAnkle, Some rFootIndex,
    Some rHeel =>
      Some (calculateAngle acos_approx (lx rHip, ly rHip)
              (lx rKnee, ly rKnee) (lx rAnkle, ly rAnkle),
            calculateAngle acos_approx (lx rShoulder, ly rShoulder)
              (lx rHip, ly rHip) (lx rKnee, ly rKnee),
            calculateAngle acos_approx (lx rFootIndex, ly rFootIndex)
              (lx rHeel, ly rHeel) (lx rKnee, ly rKnee),
            lx rKnee)
  | _, _, _, _, _, _ => None
  end.

Definition lower (e : Event) : list Tick :=
  match e with
  | Frame landmarks =>
      match frameAngles landmarks with
      | Some (k, h, a, x) => [Angles k h a x]
      | None => []
      end
  | Elapse dt => [Wait dt]
  | PressReset => [ResetPressed]
  end.

End Lower.

(** ** CameraScreen.js: the rest of the squat screen *)

(** What can happen to the screen: the events of the squat analysis and the
    two other buttons. *)
Inductive Input : Type :=
  | Analysis (e : Event)
  | PressTestWarning
  | PressSwitchCamera.

(** [onFlip]: [switchCamera()] is a call into the native camera module; no
    state of the component is read or written. *)
Definition onFlip (w : World) : World := w.

(** The "Test Warning" button: [setWarningMessages(['Test Warning!'])]. *)
Definition testWarning (w : World) : World :=
  setWarningMessages ["Test Warning!"%string] w.

Section Session.

Variable acos_approx : float -> float.

Definition handle (w : World) (i : Input) : World :=
  match i with
  | Analysis e => step acos_approx w e
  | PressTestWarning => testWarning w
  | PressSwitchCamera => onFlip w
  end.

(** The screen after a list of inputs, from the first render at [t0]. *)
Definition session (t0 : Z) (ins : list Input) : World :=
  foldl handle (initialWorld t0) ins.

End Session.

(** *** [getNormalizedBodyMeasurement] *)

(** How a call ends: with a value, or by throwing (here always the
    [TypeError] of reading a property of [undefined]). *)
Inductive Completion (A : Type) : Type :=
  | Normal (v : A)
  | Throws.
Arguments Normal {A} v.
Arguments Throws {A}.

#[global] Instance Completion_bind : MBind Completion :=
  fun A B k c =>
    match c with
    | Normal v => k v
    | Throws => Throws
    end.

(** [o.p] for a landmark that may be [undefined]. *)
Definition prop (o : option Landmark) (p : Landmark -> float)
  : Completion float :=
  match o with
  | Some l => Normal (p l)
  | None => Throws
  end.

(** [!o] *)
Definition missing (o : option Landmark) : bool :=
  match o with Some _ => false | None => true end.

(** The parameter type ['hipAnkleY' | 'kneeFootX']. *)
Inductive MeasurementType : Type := hipAnkleY | kneeFootX.

(** [getNormalizedBodyMeasurement]: [null] is [None]. With the two
    measurement types of its signature, the last [else] of the source
    ([return null]) is never taken. *)
Definition getNormalizedBodyMeasurement (landmarks : Landmarks)
    (measurementType : MeasurementType) : Completion (option float) :=
  let rShoulder := landmarkAt landmarks LANDMARK_INDICES.RIGHT_SHOULDER in
  let rHip := landmarkAt landmarks LANDMARK_INDICES.RIGHT_HIP in
  let rKnee := landmarkAt landmarks LANDMARK_INDICES.RIGHT_KNEE in
  let rAnkle := landmarkAt landmarks LANDMARK_INDICES.RIGHT_ANKLE in
  let rFootIndex := landmarkAt landmarks LANDMARK_INDICES.RIGHT_FOOT_INDEX in
  (* Check required landmarks based on measurement type *)
  if match measurementType with
     | hipAnkleY => missing rShoulder || missing rHip || missing rAnkle
     | kneeFootX =>
         missing rShoulder || missing rKnee || missing rAnkle
         || missing rFootIndex
     end
  then Normal None
  else
    shoulder_y ← prop rShoulder ly;
    ankle_y ← prop rAnkle ly;
    let bodyHeight := abs (shoulder_y - ankle_y) in
    rawMeasurement ←
      match measurementType with
      | hipAnkleY =>
          hip_y ← prop rHip ly;
          ankle_y ← prop rAnkle ly;
          Normal (abs (hip_y - ankle_y))
      | kneeFootX =>
          knee_x ← prop rKnee lx;
          foot_x ← prop rFootIndex lx;
          Normal (knee_x - foot_x)
      end;
    let normalizedRatio :=
      if Js.gt bodyHeight 0 then rawMeasurement / bodyHeight else 0 in
    Normal (Some normalizedRatio).

(** The landmarks a measurement checks for. *)
Definition required (measurementType : MeasurementType) : list nat :=
  match measurementType with
  | hipAnkleY =>
      [LANDMARK_INDICES.RIGHT_SHOULDER; LANDMARK_INDICES.RIGHT_HIP;
       LANDMARK_INDICES.RIGHT_ANKLE]
  | kneeFootX =>
      [LANDMARK_INDICES.RIGHT_SHOULDER; LANDMARK_INDICES.RIGHT_KNEE;
       LANDMARK_INDICES.RIGHT_ANKLE; LANDMARK_INDICES.RIGHT_FOOT_INDEX]
  end.

(** ** CameraScreen.js: the recording screen *)

(** [n.toString()] for a non-negative integer: its decimal digits. *)
Definition toString (n : N) : string := NilZero.string_of_uint (N.to_uint n).

(** The filler of [padStart]: [padString] repeated and cut to [count]
    characters. [fuel] bounds the repetitions. *)
Fixpoint filler (fuel count : nat) (padString : string) : string :=
  match fuel with
  | O => ""%string
  | S fuel' =>
      if (count <=? String.length padString)%nat
      then substring 0 count padString
      else (padString
            ++ filler fuel' (count - String.length padString) padString)%string
  end.

(** [s.padStart(targetLength, padString)] *)
Definition padStart (targetLength : nat) (padString s : string) : string :=
  if (targetLength <=? String.length s)%nat then s
  else if (String.length padString =? 0)%nat then s
  else (filler targetLength (targetLength - String.length s) padString
        ++ s)%string.

(** [formatDuration(seconds)] on the whole numbers below 2^53, which a
    JavaScript number holds exactly: there [Math.floor(seconds / 60)] and
    [seconds % 60] are the quotient and the remainder, and [toString] writes
    plain decimal digits. [recordingDuration] starts at 0 and is counted up
    by one, so it stays in this range. Beyond 2^53 the definition does not
    speak for the code (a number is then not every whole number, and is
    written in exponent notation from 1e21): what is proved of
    [formatDuration] is stated below that bound. *)
Definition formatDuration (seconds : N) : string :=
  let mins := (seconds / 60)%N in
  let secs := (seconds mod 60)%N in
  (toString mins ++ ":" ++ padStart 2 "0" (toString secs))%string.


(** The screen itself, as a machine that reacts to presses, to the camera
    and to its timer. *)

Module Recording.

(** An alert: title and message. *)
Definition Alert : Type := (string * string)%type.

(** The recording screen: its React state, its two refs ([cameraRef.current]
    is set or null), the [setInterval] handles that are active, the calls
    of [camera.stopRecording()] whose promise has not settled, and the
    alerts shown so far. *)
Record Screen : Type := mkScreen {
  hasPermission : bool;
  isRecording : bool;
  isCameraReady : bool;
  recordingDuration : N;
  cameraRef : bool;
  recordingTimerRef : option nat;
  intervals : list nat;
  nextInterval : nat;
  stopping : nat;
  alerts : list Alert
}.

Definition initialScreen : Screen :=
  {| hasPermission := false; isRecording := false; isCameraReady := false;
     recordingDuration := 0; cameraRef := false; recordingTimerRef := None;
     intervals := []; nextInterval := 1; stopping := 0; alerts := [] |}.

Definition setHasPermission (v : bool) (s : Screen) : Screen :=
  mkScreen v (isRecording s) (isCameraReady s) (recordingDuration s)
    (cameraRef s) (recordingTimerRef s) (intervals s) (nextInterval s)
    (stopping s) (alerts s).

Definition setIsRecording (v : bool) (s : Screen) : Screen :=
  mkScreen (hasPermission s) v (isCameraReady s) (recordingDuration s)
    (cameraRef s) (recordingTimerRef s) (intervals s) (nextInterval s)
    (stopping s) (alerts s).

Definition setIsCameraReady (v : bool) (s : Screen) : Screen :=
  mkScreen (hasPermission s) (isRecording s) v (recordingDuration s)
    (cameraRef s) (recordingTimerRef s) (intervals s) (nextInterval s)
    (stopping s) (alerts s).

Definition setRecordingDuration (f : N -> N) (s : Screen) : Screen :=
  mkScreen (hasPermission s) (isRecording s) (isCameraReady s)
    (f (recordingDuration s)) (cameraRef s) (recordingTimerRef s)
    (intervals s) (nextInterval s) (stopping s) (alerts s).

Definition set_cameraRef (v : bool) (s : Screen) : Screen :=
  mkScreen (hasPermission s) (isRecording s) (isCameraReady s)
    (recordingDuration s) v (recordingTimerRef s) (intervals s)
    (nextInterval s) (stopping s) (alerts s).

Definition set_recordingTimerRef (v : option nat) (s : Screen) : Screen :=
  mkScreen (hasPermission s) (isRecording s) (isCameraReady s)
    (recordingDuration s) (cameraRef s) v (intervals s) (nextInterval s)
    (stopping s) (alerts s).

Definition set_stopping (v : nat) (s : Screen) : Screen :=
  mkScreen (hasPermission s) (isRecording s) (isCameraReady s)
    (recordingDuration s) (cameraRef s) (recordingTimerRef s) (intervals s)
    (nextInterval s) v (alerts s).

(** [Alert.alert(title, message)] *)
Definition alert (title message : string) (s : Screen) : Screen :=
  mkScreen (hasPermission s) (isRecording s) (isCameraReady s)
    (recordingDuration s) (cameraRef s) (recordingTimerRef s) (intervals s)
    (nextInterval s) (stopping s) (alerts s ++ [(title, message)]).

(** [setInterval(callback, 1000)]: the fresh handle and the new screen. *)
Definition setInterval (s : Screen) : nat * Screen :=
  (nextInterval s,
   mkScreen (hasPermission s) (isRecording s) (isCameraReady s)
     (recordingDuration s) (cameraRef s) (recordingTimerRef s)
     (intervals s ++ [nextInterval s]) (S (nextInterval s)) (stopping s)
     (alerts s)).

(** [clearInterval(id)] *)
Definition clearInterval (id : nat) (s : Screen) : Screen :=
  mkScreen (hasPermission s) (isRecording s) (isCameraReady s)
    (recordingDuration s) (cameraRef s) (recordingTimerRef s)
    (filter (fun i => i <> id) (intervals s)) (nextInterval s) (stopping s)
    (alerts s).

(** [startRecording]. [started] tells whether the camera's
    [startRecording] returned ([true]) or threw: the camera is outside the
    component. The call returns at once, so what follows the [await] runs
    before any other event. *)
Definition startRecording (started : bool) (s : Screen) : Screen :=
  if negb (cameraRef s) then alert "Error" "Camera not available" s
  else if started then
    let s := setIsRecording true s in
    let s := setRecordingDuration (fun _ => 0%N) s in
    (* Start recording timer *)
    let '(id, s) := setInterval s in
    set_recordingTimerRef (Some id) s
  else alert "Error" "Failed to start recording" s.

(** [stopRecording] up to its [await]: the camera's [stopRecording] is
    called and its promise is pending. *)
Definition stopRecording (s : Screen) : Screen :=
  if negb (cameraRef s) then s else set_stopping (S (stopping s)) s.

(** [stopRecording] from its [await] on, when the promise settles:
    fulfilled ([ok]) or rejected. *)
Definition stopRecording_settled (ok : bool) (s : Screen) : Screen :=
  match stopping s with
  | O => s
  | S n =>
      let s := set_stopping n s in
      if ok then
        let s := setIsRecording false s in
        let s := setRecordingDuration (fun _ => 0%N) s in
        match recordingTimerRef s with
        | Some id => set_recordingTimerRef None (clearInterval id s)
        | None => s
        end
      else alert "Error" "Failed to stop recording" s
  end.

(** [handleRecordPress], of a render whose state is [isRecording] and
    [isCameraReady]. *)
Definition handleRecordPress (isRecording isCameraReady : bool)
    (started : bool) (s : Screen) : Screen :=
  if negb isCameraReady then
    alert "Camera Not Ready" "Please wait for camera to initialize" s
  else if negb isRecording then startRecording started s
  else stopRecording s.

(** The callback of the recording timer. *)
Definition recordingTick (s : Screen) : Screen :=
  setRecordingDuration (fun prev => (prev + 1)%N) s.

(** [onRecordingError] *)
Definition onRecordingError (message : string) (s : Screen) : Screen :=
  let s := alert "Recording Error" message s in
  let s := setIsRecording false s in
  let s := setRecordingDuration (fun _ => 0%N) s in
  match recordingTimerRef s with
  | Some id => clearInterval id s
  | None => s
  end.

(** [onRecordingFinished]: the video is copied and an alert tells how that
    went ([saved] is the file name, or the message of the error); no state
    of the component is touched. *)
Definition onRecordingFinished (saved : string + string) (s : Screen)
  : Screen :=
  match saved with
  | inl fileName => alert "Recording Saved!" ("Video saved as " ++ fileName) s
  | inr message => alert "Error" ("Failed to save video: " ++ message) s
  end.

(** The mount effect, once the permission request is answered. *)
Definition permissionAnswered (status : string) (s : Screen) : Screen :=
  setHasPermission
    (String.eqb status "granted" || String.eqb status "authorized") s.

(** The cleanup of the mount effect. *)
Definition cleanup (s : Screen) : Screen :=
  match recordingTimerRef s with
  | Some id => clearInterval id s
  | None => s
  end.

(** What can happen to the mounted screen. A press is handled by the
    [handleRecordPress] of some render, with the state that render has
    seen; the camera decides the rest. *)
Inductive Event : Type :=
  | PermissionAnswered (status : string)
  | CameraAttached
  | CameraDetached
  | CameraInitialized
  | CameraError
  | PressRecord (isRecording isCameraReady : bool) (started : bool)
  | StopSettled (ok : bool)
  | RecordingError (message : string)
  | RecordingFinished (saved : string + string)
  | IntervalFired (id : nat).

Definition step (s : Screen) (e : Event) : Screen :=
  match e with
  | PermissionAnswered status => permissionAnswered status s
  | CameraAttached => set_cameraRef true s
  | CameraDetached => set_cameraRef false s
  | CameraInitialized => setIsCameraReady true s
  | CameraError => setIsCameraReady false s
  | PressRecord isRecording isCameraReady started =>
      handleRecordPress isRecording isCameraReady started s
  | StopSettled ok => stopRecording_settled ok s
  | RecordingError message => onRecordingError message s
  | RecordingFinished saved => onRecordingFinished saved s
  | IntervalFired id =>
      if decide (id ∈ intervals s) then recordingTick s else s
  end.

Definition run (es : list Event) : Screen := foldl step initialScreen es.

(** The press is handled by the latest render: the handler has seen the
    [isRecording] of the screen as it is. *)
Definition current (s : Screen) (e : Event) : Prop :=
  match e with
  | PressRecord seen _ _ => seen = isRecording s
  | _ => True
  end.

(** Every press of [es], from [s] on, is handled by the latest render. *)
Fixpoint latest (s : Screen) (es : list Event) : Prop :=
  match es with
  | [] => True
  | e :: es' => current s e /\ latest (step s e) es'
  end.

(** The recording timer runs exactly while [isRecording]. *)
Definition timed (s : Screen) : Prop :=
  if isRecording s
  then exists id, intervals s = [id] /\ recordingTimerRef s = Some id
  else intervals s = [] /\ recordingDuration s = 0%N.

End Recording.

(** ** CameraScreen.js: the streaming screen *)

Module Streaming.

Inductive ReadyState : Type := CONNECTING | OPEN | CLOSING | CLOSED.

(** What is handed to [WebSocket.send], before [JSON.stringify]: the ping
    of [onopen], or the [frameData] of [processAndSendFrame] (whose [type]
    and [message] are constants). *)
Inductive Message : Type :=
  | Ping (timestamp : Z)
  | FrameData (timestamp : Z) (frame_id : N) (image_data : string)
      (width height : N).

(** A [WebSocket] the screen created: its state and what was sent on it. *)
Record Socket : Type := mkSocket {
  readyState : ReadyState;
  sent : list Message
}.

(** A message from the backend, as [onmessage] tells them apart: text that
    [JSON.parse] rejects, a processed frame with its image, or anything
    else (acknowledgements, pongs, errors: logged only). *)
Inductive Incoming : Type :=
  | Unparsable
  | ProcessedFrame (processed_image : string)
  | Logged.

Definition Alert : Type := (string * string)%type.

(** The streaming screen: the React state that is ever written, the refs,
    every socket created so far ([wsRef.current] is an index into them),
    the active intervals and pending timeouts, each with the [isStreaming]
    its callback closes over, the photo and file requests of
    [captureAndStreamFrame] that are under way, the number of photos taken
    and the alerts shown. *)
Record Screen : Type := mkScreen {
  hasPermission : bool;
  permissionStatus : string;
  isStreaming : bool;
  connectionStatus : string;
  frameCount : N;
  processedFrame : option string;
  showProcessedFrame : bool;
  cameraRef : bool;
  wsRef : option nat;
  streamingIntervalRef : option nat;
  frameCounterRef : N;
  sockets : list Socket;
  intervals : list (nat * bool);
  timeouts : list (nat * bool);
  nextTimer : nat;
  awaitingPhoto : nat;
  awaitingFile : nat;
  photosTaken : nat;
  alerts : list Alert
}.

Definition initialScreen : Screen :=
  {| hasPermission := false; permissionStatus := "";
     isStreaming := false; connectionStatus := "Disconnected";
     frameCount := 0; processedFrame := None; showProcessedFrame := true;
     cameraRef := false; wsRef := None; streamingIntervalRef := None;
     frameCounterRef := 0; sockets := []; intervals := []; timeouts := [];
     nextTimer := 1; awaitingPhoto := 0; awaitingFile := 0;
     photosTaken := 0; alerts := [] |}.

Definition setPermission (status : string) (v : bool) (s : Screen) : Screen :=
  mkScreen v status (isStreaming s) (connectionStatus s) (frameCount s)
    (processedFrame s) (showProcessedFrame s) (cameraRef s) (wsRef s)
    (streamingIntervalRef s) (frameCounterRef s) (sockets s) (intervals s)
    (timeouts s) (nextTimer s) (awaitingPhoto s) (awaitingFile s)
    (photosTaken s) (alerts s).

Definition setIsStreaming (v : bool) (s : Screen) : Screen :=
  mkScreen (hasPermission s) (permissionStatus s) v (connectionStatus s)
    (frameCount s) (processedFrame s) (showProcessedFrame s) (cameraRef s)
    (wsRef s) (streamingIntervalRef s) (frameCounterRef s) (sockets s)
    (intervals s) (timeouts s) (nextTimer s) (awaitingPhoto s)
    (awaitingFile s) (photosTaken s) (alerts s).

Definition setConnectionStatus (v : string) (s : Screen) : Screen :=
  mkScreen (hasPermission s) (permissionStatus s) (isStreaming s) v
    (frameCount s) (processedFrame s) (showProcessedFrame s) (cameraRef s)
    (wsRef s) (streamingIntervalRef s) (frameCounterRef s) (sockets s)
    (intervals s) (timeouts s) (nextTimer s) (awaitingPhoto s)
    (awaitingFile s) (photosTaken s) (alerts s).

Definition setFrameCount (v : N) (s : Screen) : Screen :=
  mkScreen (hasPermission s) (permissionStatus s) (isStreaming s)
    (connectionStatus s) v (processedFrame s) (showProcessedFrame s)
    (cameraRef s) (wsRef s) (streamingIntervalRef s) (frameCounterRef s)
    (sockets s) (intervals s) (timeouts s) (nextTimer s) (awaitingPhoto s)
    (awaitingFile s) (photosTaken s) (alerts s).

Definition setProcessedFrame (v : option string) (s : Screen) : Screen :=
  mkScreen (hasPermission s) (permissionStatus s) (isStreaming s)
    (connectionStatus s) (frameCount s) v (showProcessedFrame s)
    (cameraRef s) (wsRef s) (streamingIntervalRef s) (frameCounterRef s)
    (sockets s) (intervals s) (timeouts s) (nextTimer s) (awaitingPhoto s)
    (awaitingFile s) (photosTaken s) (alerts s).

Definition setShowProcessedFrame (v : bool) (s : Screen) : Screen :=
  mkScreen (hasPermission s) (permissionStatus s) (isStreaming s)
    (connectionStatus s) (frameCount s) (processedFrame s) v
    (cameraRef s) (wsRef s) (streamingIntervalRef s) (frameCounterRef s)
    (sockets s) (intervals s) (timeouts s) (nextTimer s) (awaitingPhoto s)
    (awaitingFile s) (photosTaken s) (alerts s).

Definition set_cameraRef (v : bool) (s : Screen) : Screen :=
  mkScreen (hasPermission s) (permissionStatus s) (isStreaming s)
    (connectionStatus s) (frameCount s) (processedFrame s)
    (showProcessedFrame s) v (wsRef s) (streamingIntervalRef s)
    (frameCounterRef s) (sockets s) (intervals s) (timeouts s) (nextTimer s)
    (awaitingPhoto s) (awaitingFile s) (photosTaken s) (alerts s).

Definition set_wsRef (v : option nat) (s : Screen) : Screen :=
  mkScreen (hasPermission s) (permissionStatus s) (isStreaming s)
    (connectionStatus s) (frameCount s) (processedFrame s)
    (showProcessedFrame s) (cameraRef s) v (streamingIntervalRef s)
    (frameCounterRef s) (sockets s) (intervals s) (timeouts s) (nextTimer s)
    (awaitingPhoto s) (awaitingFile s) (photosTaken s) (alerts s).

Definition set_streamingIntervalRef (v : option nat) (s : Screen) : Screen :=
  mkScreen (hasPermission s) (permissionStatus s) (isStreaming s)
    (connectionStatus s) (frameCount s) (processedFrame s)
    (showProcessedFrame s) (cameraRef s) (wsRef s) v
    (frameCounterRef s) (sockets s) (intervals s) (timeouts s) (nextTimer s)
    (awaitingPhoto s) (awaitingFile s) (photosTaken s) (alerts s).

Definition set_frameCounterRef (v : N) (s : Screen) : Screen :=
  mkScreen (hasPermission s) (permissionStatus s) (isStreaming s)
    (connectionStatus s) (frameCount s) (processedFrame s)
    (showProcessedFrame s) (cameraRef s) (wsRef s) (streamingIntervalRef s)
    v (sockets s) (intervals s) (timeouts s) (nextTimer s)
    (awaitingPhoto s) (awaitingFile s) (photosTaken s) (alerts s).

Definition set_sockets (v : list Socket) (s : Screen) : Screen :=
  mkScreen (hasPermission s) (permissionStatus s) (isStreaming s)
    (connectionStatus s) (frameCount s) (processedFrame s)
    (showProcessedFrame s) (cameraRef s) (wsRef s) (streamingIntervalRef s)
    (frameCounterRef s) v (intervals s) (timeouts s) (nextTimer s)
    (awaitingPhoto s) (awaitingFile s) (photosTaken s) (alerts s).

Definition set_intervals (v : list (nat * bool)) (s : Screen) : Screen :=
  mkScreen (hasPermission s) (permissionStatus s) (isStreaming s)
    (connectionStatus s) (frameCount s) (processedFrame s)
    (showProcessedFrame s) (cameraRef s) (wsRef s) (streamingIntervalRef s)
    (frameCounterRef s) (sockets s) v (timeouts s) (nextTimer s)
    (awaitingPhoto s) (awaitingFile s) (photosTaken s) (alerts s).

Definition set_timeouts (v : list (nat * bool)) (s : Screen) : Screen :=
  mkScreen (hasPermission s) (permissionStatus s) (isStreaming s)
    (connectionStatus s) (frameCount s) (processedFrame s)
    (showProcessedFrame s) (cameraRef s) (wsRef s) (streamingIntervalRef s)
    (frameCounterRef s) (sockets s) (intervals s) v (nextTimer s)
    (awaitingPhoto s) (awaitingFile s) (photosTaken s) (alerts s).

Definition set_nextTimer (v : nat) (s : Screen) : Screen :=
  mkScreen (hasPermission s) (permissionStatus s) (isStreaming s)
    (connectionStatus s) (frameCount s) (processedFrame s)
    (showProcessedFrame s) (cameraRef s) (wsRef s) (streamingIntervalRef s)
    (frameCounterRef s) (sockets s) (intervals s) (timeouts s) v
    (awaitingPhoto s) (awaitingFile s) (photosTaken s) (alerts s).

Definition set_awaiting (photo file : nat) (s : Screen) : Screen :=
  mkScreen (hasPermission s) (permissionStatus s) (isStreaming s)
    (connectionStatus s) (frameCount s) (processedFrame s)
    (showProcessedFrame s) (cameraRef s) (wsRef s) (streamingIntervalRef s)
    (frameCounterRef s) (sockets s) (intervals s) (timeouts s) (nextTimer s)
    photo file (photosTaken s) (alerts s).

Definition set_photosTaken (v : nat) (s : Screen) : Screen :=
  mkScreen (hasPermission s) (permissionStatus s) (isStreaming s)
    (connectionStatus s) (frameCount s) (processedFrame s)
    (showProcessedFrame s) (cameraRef s) (wsRef s) (streamingIntervalRef s)
    (frameCounterRef s) (sockets s) (intervals s) (timeouts s) (nextTimer s)
    (awaitingPhoto s) (awaitingFile s) v (alerts s).

(** [Alert.alert(title, message)] *)
Definition alert (title message : string) (s : Screen) : Screen :=
  mkScreen (hasPermission s) (permissionStatus s) (isStreaming s)
    (connectionStatus s) (frameCount s) (processedFrame s)
    (showProcessedFrame s) (cameraRef s) (wsRef s) (streamingIntervalRef s)
    (frameCounterRef s) (sockets s) (intervals s) (timeouts s) (nextTimer s)
    (awaitingPhoto s) (awaitingFile s) (photosTaken s)
    (alerts s ++ [(title, message)]).

(** [wsRef.current && wsRef.current.readyState === WebSocket.OPEN] *)
Definition socketIsOpen (s : Screen) : bool :=
  match wsRef s with
  | Some i =>
      match sockets s !! i with
      | Some k => match readyState k with OPEN => true | _ => false end
      | None => false
      end
  | None => false
  end.

(** [wsRef.current.send(message)]. On an open socket the message goes out.
    With [wsRef.current] null or the socket still connecting, [send]
    throws; on a closing or closed socket the message is dropped. In the
    source nothing follows a [send] that can throw, so the screen is the
    same in all three cases. *)
Definition send (message : Message) (s : Screen) : Screen :=
  match wsRef s with
  | Some i =>
      match sockets s !! i with
      | Some k =>
          match readyState k with
          | OPEN =>
              set_sockets
                (<[i := mkSocket OPEN (sent k ++ [message])]> (sockets s)) s
          | _ => s
          end
      | None => s
      end
  | None => s
  end.

(** [setInterval(callback, 500)] with the callback of [startStreaming],
    which calls the [captureAndStreamFrame] of its render; [seen] is the
    [isStreaming] of that render. *)
Definition setInterval (seen : bool) (s : Screen) : nat * Screen :=
  (nextTimer s,
   set_nextTimer (S (nextTimer s))
     (set_intervals (intervals s ++ [(nextTimer s, seen)]) s)).

Definition clearInterval (id : nat) (s : Screen) : Screen :=
  set_intervals (filter (fun t => fst t <> id) (intervals s)) s.

(** [setTimeout(callback, 2000)] with the callback of [handleCirclePress];
    [seen] is the [isStreaming] of its render. *)
Definition setTimeout (seen : bool) (s : Screen) : Screen :=
  set_nextTimer (S (nextTimer s))
    (set_timeouts (timeouts s ++ [(nextTimer s, seen)]) s).

(** [processAndSendFrame]; [now] is [Date.now()]. *)
Definition processAndSendFrame (base64String : string) (frameId : N)
    (width height : N) (now : Z) (s : Screen) : Screen :=
  let frameData := FrameData now frameId base64String width height in
  if socketIsOpen s then
    let s := send frameData s in
    setFrameCount frameId s
  else s.

(** [captureAndStreamFrame] up to its first [await]: past the guard,
    [takePhoto] is called and its promise is pending. [isStreaming] is the
    state of the render the function belongs to. *)
Definition captureAndStreamFrame (isStreaming : bool) (s : Screen) : Screen :=
  if negb (cameraRef s) || negb isStreaming then s
  else
    set_photosTaken (S (photosTaken s))
      (set_awaiting (S (awaitingPhoto s)) (awaitingFile s) s).

(** [captureAndStreamFrame] when [takePhoto] settles: on a photo the file
    is read next; a rejection is caught and logged. *)
Definition photoSettled (ok : bool) (s : Screen) : Screen :=
  match awaitingPhoto s with
  | O => s
  | S n =>
      if ok then set_awaiting n (S (awaitingFile s)) s
      else set_awaiting n (awaitingFile s) s
  end.

(** [captureAndStreamFrame] when the file read settles: with the base64
    text the counter is incremented and the frame processed, and the
    temporary file is deleted (whose outcome is only logged); a failed read
    is caught and logged. (The document does not import [FileSystem], so
    the read can only fail; the machine admits either outcome.) *)
Definition fileSettled (base64String : option string) (now : Z) (s : Screen)
  : Screen :=
  match awaitingFile s with
  | O => s
  | S n =>
      let s := set_awaiting (awaitingPhoto s) n s in
      match base64String with
      | Some b =>
          let s := set_frameCounterRef (frameCounterRef s + 1)%N s in
          processAndSendFrame b (frameCounterRef s) 640 480 now s
      | None => s
      end
  end.

(** [connectWebSocket]. [failure] is the message of the error if
    [new WebSocket] throws. *)
Definition connectWebSocket (failure : option string) (s : Screen) : Screen :=
  if socketIsOpen s then s
  else
    let s := setConnectionStatus "Connecting..." s in
    match failure with
    | None =>
        let s := set_wsRef (Some (length (sockets s))) s in
        set_sockets (sockets s ++ [mkSocket CONNECTING []]) s
    | Some message =>
        let s := alert "WebSocket Error" message s in
        setConnectionStatus "Error" s
    end.

(** The socket at [i] changes state. *)
Definition setReadyState (i : nat) (r : ReadyState) (s : Screen) : Screen :=
  set_sockets (alter (fun k => mkSocket r (sent k)) i (sockets s)) s.

(** [onopen]; [now] is [Date.now()]. *)
Definition onopen (now : Z) (s : Screen) : Screen :=
  let s := setConnectionStatus "Connected" s in
  (* Send ping to test connection *)
  send (Ping now) s.

(** [onmessage] *)
Definition onmessage (data : Incoming) (s : Screen) : Screen :=
  match data with
  | ProcessedFrame processed_image =>
      setProcessedFrame
        (Some ("data:image/jpeg;base64," ++ processed_image)%string) s
  | Unparsable | Logged => s
  end.

(** [onclose] *)
Definition onclose (s : Screen) : Screen :=
  let s := setConnectionStatus "Disconnected" s in
  let s := setIsStreaming false s in
  (* Clear streaming interval if active *)
  match streamingIntervalRef s with
  | Some id => set_streamingIntervalRef None (clearInterval id s)
  | None => s
  end.

(** [onerror] *)
Definition onerror (s : Screen) : Screen :=
  let s := setConnectionStatus "Error" s in
  alert "Connection Error"
    "Failed to connect to server. Make sure the backend is running." s.

(** [disconnectWebSocket]: [close()] leaves the socket closing. *)
Definition disconnectWebSocket (s : Screen) : Screen :=
  let s :=
    match wsRef s with
    | Some i =>
        let s :=
          set_sockets
            (alter (fun k => match readyState k with
                             | CLOSED => k
                             | _ => mkSocket CLOSING (sent k)
                             end) i (sockets s)) s in
        set_wsRef None s
    | None => s
    end in
  setConnectionStatus "Disconnected" s.

(** [startStreaming], of a render whose [isStreaming] is [seen]. *)
Definition startStreaming (seen : bool) (failure : option string)
    (s : Screen) : Screen :=
  if negb (socketIsOpen s) then
    let s :=
      alert "Error" "WebSocket not connected. Trying to reconnect..." s in
    connectWebSocket failure s
  else
    let s := setIsStreaming true s in
    let s := set_frameCounterRef 0 s in
    (* Start interval-based frame capture *)
    let '(id, s) := setInterval seen s in
    set_streamingIntervalRef (Some id) s.

(** [stopStreaming] *)
Definition stopStreaming (s : Screen) : Screen :=
  let s := setIsStreaming false s in
  let s := set_frameCounterRef 0 s in
  let s := setFrameCount 0 s in
  (* Clear streaming interval *)
  match streamingIntervalRef s with
  | Some id => set_streamingIntervalRef None (clearInterval id s)
  | None => s
  end.

(** [handleCirclePress], of a render whose [isStreaming] is [seen]. *)
Definition handleCirclePress (seen : bool) (failure : option string)
    (s : Screen) : Screen :=
  if negb seen then
    (* Start streaming *)
    if negb (socketIsOpen s) then
      let s := connectWebSocket failure s in
      (* Wait for connection to establish before starting streaming *)
      setTimeout seen s
    else startStreaming seen failure s
  else
    (* Stop streaming *)
    stopStreaming s.

(** The callback that [handleCirclePress] hands to [setTimeout]. *)
Definition connectionTimeout (seen : bool) (failure : option string)
    (s : Screen) : Screen :=
  if socketIsOpen s then startStreaming seen failure s
  else
    alert "Connection Failed"
      "Could not connect to server. Please check if the backend is running."
      s.

(** The mount effect, once the permission request is answered. *)
Definition permissionAnswered (status : string) (s : Screen) : Screen :=
  setPermission status
    (String.eqb status "granted" || String.eqb status "authorized"
     || String.eqb status "limited") s.

(** The cleanup of the mount effect. *)
Definition cleanup (s : Screen) : Screen :=
  disconnectWebSocket (stopStreaming s).

(** What can happen to the screen. A press or a timer callback belongs to
    some render, whose [isStreaming] it has seen; the library and the
    backend decide the rest. *)
Inductive Event : Type :=
  | PermissionAnswered (status : string)
  | CameraAttached
  | CameraDetached
  | PressCircle (seen : bool) (failure : option string)
  | PressLandmarks (seen : bool)
  | TimeoutFired (id : nat) (failure : option string)
  | IntervalFired (id : nat)
  | PhotoSettled (ok : bool)
  | FileSettled (base64String : option string) (now : Z)
  | SocketOpened (i : nat) (now : Z)
  | SocketMessage (i : nat) (data : Incoming)
  | SocketClosed (i : nat)
  | SocketError (i : nat)
  | Unmounted.

(** The [isStreaming] a pending timer's callback closes over. *)
Definition seenBy (timers : list (nat * bool)) (id : nat) : option bool :=
  match list_find (fun t => fst t = id) timers with
  | Some (_, t) => Some (snd t)
  | None => None
  end.

Definition socketState (s : Screen) (i : nat) : option ReadyState :=
  match sockets s !! i with
  | Some k => Some (readyState k)
  | None => None
  end.

Definition step (s : Screen) (e : Event) : Screen :=
  match e with
  | PermissionAnswered status => permissionAnswered status s
  | CameraAttached => set_cameraRef true s
  | CameraDetached => set_cameraRef false s
  | PressCircle seen failure => handleCirclePress seen failure s
  | PressLandmarks seen => setShowProcessedFrame (negb seen) s
  | TimeoutFired id failure =>
      match seenBy (timeouts s) id with
      | Some seen =>
          connectionTimeout seen failure
            (set_timeouts (filter (fun t => fst t <> id) (timeouts s)) s)
      | None => s
      end
  | IntervalFired id =>
      match seenBy (intervals s) id with
      | Some seen => captureAndStreamFrame seen s
      | None => s
      end
  | PhotoSettled ok => photoSettled ok s
  | FileSettled base64String now => fileSettled base64String now s
  | SocketOpened i now =>
      match socketState s i with
      | Some CONNECTING => onopen now (setReadyState i OPEN s)
      | _ => s
      end
  | SocketMessage i data =>
      match socketState s i with
      | Some OPEN => onmessage data s
      | _ => s
      end
  | SocketClosed i =>
      match socketState s i with
      | Some CLOSED | None => s
      | Some _ => onclose (setReadyState i CLOSED s)
      end
  | SocketError i =>
      match socketState s i with
      | Some _ => onerror s
      | None => s
      end
  | Unmounted => cleanup s
  end.

Definition run (es : list Event) : Screen := foldl step initialScreen es.

Definition isPing (m : Message) : Prop :=
  match m with Ping _ => True | FrameData _ _ _ _ _ => False end.

(** No callback of a timer has seen [isStreaming] true, and nothing of a
    capture has happened. *)
Definition idle (s : Screen) : Prop :=
  Forall (fun t => snd t = false) (intervals s) /\
  Forall (fun t => snd t = false) (timeouts s) /\
  awaitingPhoto s = 0%nat /\ awaitingFile s = 0%nat /\
  photosTaken s = 0%nat /\
  frameCounterRef s = 0%N /\ frameCount s = 0%N /\
  Forall (fun k => Forall isPing (sent k)) (sockets s).

End Streaming.

(** ** Phases and transitions *)

(** The tracked phase: [true] while DESCENDING, [false] while UP. *)
Definition phase (w : World) : bool := descending (current w).

(** The number of steps of a run at which the phase goes from DESCENDING to
    UP. *)
Fixpoint downUpTransitions (acos_approx : float -> float) (w : World)
    (es : list Event) : nat :=
  match es with
  | [] => 0
  | e :: es' =>
      let w' := step acos_approx w e in
      ((if phase w && negb (phase w') then 1 else 0)
       + downUpTransitions acos_approx w' es')%nat
  end.

(** A frame completes a repetition when it shows the knee below 30 while the
    phase is DESCENDING. *)
Definition completes (w : World) (t : Tick) : bool :=
  match t with
  | Angles k _ _ _ => Js.lt k 30 && phase w
  | _ => false
  end.

(** The completion transition on events: a frame with all six landmarks
    whose knee angle is below 30, arriving while the phase is DESCENDING. *)
Definition completing (acos_approx : float -> float) (w : World) (e : Event)
  : bool :=
  match e with
  | Frame landmarks =>
      match frameAngles acos_approx landmarks with
      | Some (kneeAngle, _, _, _) => Js.lt kneeAngle 30 && phase w
      | None => false
      end
  | _ => false
  end.

(** The number of completion transitions of a run. *)
Fixpoint completions (acos_approx : float -> float) (w : World)
    (es : list Event) : nat :=
  match es with
  | [] => 0
  | e :: es' =>
      ((if completing acos_approx w e then 1 else 0)
       + completions acos_approx (step acos_approx w e) es')%nat
  end.

(** Milliseconds that pass during a list of ticks. *)
Definition elapsed (ts : list Tick) : Z :=
  foldr (fun t acc =>
           match t with Wait dt => (Z.of_N dt + acc)%Z | _ => acc end)
    0%Z ts.

(** ** The store seen from the ref *)

(** The ref points into the store, and no pending timer captured the object
    the ref points to: the captured objects are older. *)
Definition wf (w : World) : Prop :=
  (squatState_current w < length (heap w))%nat /\
  Forall (fun t => (captured t < squatState_current w)%nat) (timers w).

(** What the component can observe of its world: the object behind the ref,
    the React state, and the pending timers with their due times. *)
Record Observation : Type := mkObservation {
  o_state : SquatState;
  o_counter : N;
  o_stage : option string;
  o_warnings : list string;
  o_current : CurrentAngles;
  o_display : DisplayAngles;
  o_timers : list (TimerId * Z);
  o_next : TimerId;
  o_now : Z
}.

Definition observe (w : World) : Observation :=
  {| o_state := current w; o_counter := squatCounter w;
     o_stage := squatStage w; o_warnings := warningMessages w;
     o_current := currentAngles w; o_display := displayAngles w;
     o_timers := map (fun t => (tid t, due t)) (timers w);
     o_next := nextTimer w; o_now := now w |}.

(** The operations on observations alone: what [analyzeSquat],
    the passing of time and [resetCounter] do to the observation of a
    well-formed world (proved in [Store] below). *)
Module Abs.

Definition startDescent (k h e : float) (s : SquatState) : SquatState :=
  set_minKneeAngle k (set_maxHeelAngle e (set_maxHipAngle h
    (set_maxKneeAngle k (set_descending true s)))).

Definition track (k h e x : float) (s : SquatState) : SquatState :=
  let s := set_maxKneeAngle (Js.Math_max (maxKneeAngle s) k) s in
  let s := set_maxHipAngle (Js.Math_max (maxHipAngle s) h) s in
  let s := set_maxHeelAngle (Js.Math_max (maxHeelAngle s) e) s in
  let s := set_maxKneeForward (Js.Math_max (maxKneeForward s) x) s in
  set_minKneeAngle (Js.Math_min (minKneeAngle s) k) s.

(** The object after the start and the track block. *)
Definition tracked (k h e x : float) (s : SquatState) : SquatState :=
  let s1 := if Js.gt k 85 && negb (descending s)
            then startDescent k h e s else s in
  if descending s1 then track k h e x s1 else s1.

Definition fresh (old : SquatState) : SquatState :=
  {| descending := false; minKneeAngle := 360; minHipAngle := 360;
     maxKneeAngle := 0; maxHipAngle := 0; maxHeelAngle := 0;
     maxKneeForward := -1; depthWarningGiven := false;
     backWarningGiven := false; toeWarningGiven := false;
     minHipAnkleDiff := 999;
     lastWarningTime := lastWarningTime old;
     angleDisplayTimer := angleDisplayTimer old |}.

Definition depthRule (s : SquatState) : list string * SquatState :=
  if negb (depthWarningGiven s) then
    if Js.gt (maxKneeAngle s) 140 then
      (["Too deep! Protect your knees"%string], set_depthWarningGiven true s)
    else if Js.lt (maxKneeAngle s) 100 then
      (["Not deep enough! Go deeper"%string], set_depthWarningGiven true s)
    else ([], s)
  else ([], s).

Definition bodySeen (seen : bool) (k h e x : float) (o : Observation)
  : Observation :=
  let s := o_state o in
  let cur :=
    mkCurrentAngles k h e (minKneeAngle s) (minHipAngle s) (maxKneeAngle s)
      (maxHipAngle s) (maxHeelAngle s) 0 (minHipAnkleDiff s)
      (maxKneeForward s) in
  let disp :=
    if negb seen then
      mkDisplayAngles k h e (minKneeAngle s) (minHipAngle s)
        (maxKneeAngle s) (maxHipAngle s) (maxHeelAngle s) false 0
        (minHipAnkleDiff s)
    else o_display o in
  let started := Js.gt k 85 && negb (descending s) in
  let s1 := if started then startDescent k h e s else s in
  let stage := if started then Some "down"%string else o_stage o in
  let s2 := if descending s1 then track k h e x s1 else s1 in
  if Js.lt k 30 && descending s2 then
    let final :=
      mkDisplayAngles k h e (minKneeAngle s2) (minHipAngle s2)
        (maxKneeAngle s2) (maxHipAngle s2) (maxHeelAngle s2) true 0
        (minHipAnkleDiff s2) in
    let pending :=
      match angleDisplayTimer s2 with
      | Some id => filter (fun t => fst t <> id) (o_timers o)
      | None => o_timers o
      end in
    let s3 := set_angleDisplayTimer (Some (o_next o)) s2 in
    let newWarnings := fst (depthRule s3) in
    let s4 := snd (depthRule s3) in
    let emitted := (0 <? length newWarnings)%nat in
    let s5 := if emitted then set_lastWarningTime (o_now o) s4 else s4 in
    let warnings := if emitted then newWarnings else o_warnings o in
    mkObservation (fresh s5) (o_counter o + 1)%N (Some "up"%string)
      (if (o_now o - lastWarningTime s5 >? 2000)%Z then [] else warnings)
      cur final (pending ++ [(o_next o, (o_now o + 3000)%Z)])
      (S (o_next o)) (o_now o)
  else
    mkObservation s2 (o_counter o) stage
      (if (o_now o - lastWarningTime s2 >? 2000)%Z then []
       else o_warnings o)
      cur disp (o_timers o) (o_next o) (o_now o).

Definition body (k h e x : float) (o : Observation) : Observation :=
  bodySeen (showingLastRep (o_display o)) k h e x o.

Definition elapse (dt : N) (o : Observation) : Observation :=
  let t := (o_now o + Z.of_N dt)%Z in
  let dueNow := filter (fun x => (snd x <= t)%Z) (o_timers o) in
  let later := filter (fun x => ~ (snd x <= t)%Z) (o_timers o) in
  mkObservation (o_state o) (o_counter o) (o_stage o) (o_warnings o)
    (o_current o)
    (match dueNow with
     | [] => o_display o
     | _ :: _ => set_showingLastRep false (o_display o)
     end)
    later (o_next o) t.

Definition reset (o : Observation) : Observation :=
  mkObservation (set_angleDisplayTimer None (fresh (o_state o))) 0 None []
    initialCurrentAngles initialDisplayAngles
    (match angleDisplayTimer (o_state o) with
     | Some id => filter (fun t => fst t <> id) (o_timers o)
     | None => o_timers o
     end)
    (o_next o) (o_now o).

Definition tick (o : Observation) (t : Tick) : Observation :=
  match t with
  | Angles k h e x => body k h e x o
  | Wait dt => elapse dt o
  | ResetPressed => reset o
  end.

Definition tickSeen (o : Observation) (st : bool * Tick) : Observation :=
  match snd st with
  | Angles k h e x => bodySeen (fst st) k h e x o
  | Wait dt => elapse dt o
  | ResetPressed => reset o
  end.

(** What holds of every observation of a running component: the phase
    flags of a fresh repetition, and the one timer that may be pending. *)
Definition inv (o : Observation) : Prop :=
  depthWarningGiven (o_state o) = false /\
  Forall (fun t => (fst t < o_next o)%nat /\
                   (o_now o < snd t <= o_now o + 3000)%Z) (o_timers o) /\
  match o_timers o with
  | [] => showingLastRep (o_display o) = false
  | [t] => showingLastRep (o_display o) = true /\
           angleDisplayTimer (o_state o) = Some (fst t)
  | _ => False
  end.

(** What holds whichever renders the handlers belong to: as [inv], but a
    pending expiry does not tell that the snapshot is still shown, since a
    frame taken by an older render overwrites it. *)
Definition sound (o : Observation) : Prop :=
  depthWarningGiven (o_state o) = false /\
  Forall (fun t => (fst t < o_next o)%nat /\
                   (o_now o < snd t <= o_now o + 3000)%Z) (o_timers o) /\
  match o_timers o with
  | [] => showingLastRep (o_display o) = false
  | [t] => angleDisplayTimer (o_state o) = Some (fst t)
  | _ => False
  end.

(** The one expiry that matters to an observation: pending for the clock
    value [T], or already run. *)
Definition deadline (o : Observation) (T : Z) : Prop :=
  (exists i, o_timers o = [(i, T)]) \/ (o_timers o = [] /\ (T <= o_now o)%Z).

End Abs.

(** ** Rules and scenarios *)

(** The depth rule in the spec's words: what a repetition whose largest knee
    angle was [maxKnee] is warned about. *)
Definition depthWarning (maxKnee : float) : list string :=
  if Js.gt maxKnee 140 then ["Too deep! Protect your knees"%string]
  else if Js.lt maxKnee 100 then ["Not deep enough! Go deeper"%string]
  else [].

(** A frame of 33 slots in which only the six landmarks that [analyzeSquat]
    reads may be present. *)
Definition frame
    (rShoulder rHip rKnee rAnkle rHeel rFootIndex : option Landmark)
  : Landmarks :=
  replicate 11 None ++ [rShoulder] ++ replicate 11 None ++
  [rHip; None; rKnee; None; rAnkle; None; rHeel; None; rFootIndex; None].

Definition at_ (x y : float) : option Landmark := Some (mkLandmark x y).

(** A leg folded shut: hip and ankle on the same side of the knee. *)
Definition foldedLeg : Landmarks :=
  frame (at_ 0.5 0) (at_ 0.5 0.25) (at_ 0.5 0.75) (at_ 0.5 0.5)
        (at_ 0.5 0.5) (at_ 0.75 0.5).

(** A frame in which the hip landmark coincides with the knee landmark. *)
Definition hipOnKnee : Landmarks :=
  frame (at_ 0.5 0) (at_ 0.5 0.5) (at_ 0.5 0.5) (at_ 0.5 0.75)
        (at_ 0.5 0.75) (at_ 0.75 0.75).

(** A straight leg: the knee between hip and ankle. *)
Definition straightLeg : Landmarks :=
  frame (at_ 0.5 0) (at_ 0.5 0.25) (at_ 0.5 0.5) (at_ 0.5 0.75)
        (at_ 0.5 0.75) (at_ 0.75 0.75).

(** A frame in which the knee was not detected. *)
Definition kneeMissing : Landmarks :=
  frame (at_ 0.5 0) (at_ 0.5 0.25) None (at_ 0.5 0.75)
        (at_ 0.5 0.75) (at_ 0.75 0.75).

(** Two short arms for [calculateAngle]: the double nearest to 1e-200,
    whose square underflows to zero, and 2^-537, whose square is the least
    positive double. *)
Definition tiny : float := 0x1.87e92154ef7acp-665.
Definition short : float := 0x1p-537.

(** An inverse cosine that answers pi whatever it is asked: enough of a
    math library to run the frames above, whose cosines are 1, -1 or NaN. *)
Definition acos_pi (x : float) : float := Js.Math_PI.

(** The double nearest to pi/2. *)
Definition half_pi : float := 0x1.921fb54442d18p+0.

(** Scenario 1 of the spec: knee angles 170, 120, 90, 70, 50, 20 with hip and
    heel angles held at 90, at any knee abscissas and any pace. *)
Definition scenario1 (x1 x2 x3 x4 x5 x6 : float) (d1 d2 d3 d4 d5 : N)
  : list Tick :=
  [Angles 170 90 90 x1; Wait d1; Angles 120 90 90 x2; Wait d2;
   Angles 90 90 90 x3; Wait d3; Angles 70 90 90 x4; Wait d4;
   Angles 50 90 90 x5; Wait d5; Angles 20 90 90 x6].

(** Every frame of a list of ticks gave a knee angle that is a number. *)
Definition numericKnees (ts : list Tick) : Prop :=
  Forall (fun t => match t with
                   | Angles k _ _ _ => is_nan k = false
                   | _ => True
                   end) ts.

(** A short session: a repetition with a skipped frame in the middle, and
    the start of the next. *)
Definition sessionEvents : list Event :=
  [Frame foldedLeg; Elapse 33; Frame kneeMissing; Frame straightLeg;
   Elapse 33; Frame foldedLeg].

(** A clock value for closed examples. *)
Definition someTime : Z := 1700000000000.

(** Two repetitions one second apart: the first too deep, the second not
    deep enough. *)
Definition twoReps : list Tick :=
  [Angles 150 90 90 0.5; Angles 20 90 90 0.5; Wait 1000;
   Angles 90 90 90 0.5].

(** ** Degenerate numbers *)

(** A number that is a zero or NaN. *)
Definition zn (x : float) : Prop :=
  match Prim2SF x with
  | S754_zero _ | S754_nan => True
  | _ => False
  end.

(** ** Notions of the further properties *)

(** The angles of a frame. *)
Definition kneeOf (t : Tick) : option float :=
  match t with Angles k _ _ _ => Some k | _ => None end.
Definition hipOf (t : Tick) : option float :=
  match t with Angles _ h _ _ => Some h | _ => None end.
Definition heelOf (t : Tick) : option float :=
  match t with Angles _ _ e _ => Some e | _ => None end.

(** A tick in the middle of a repetition: time passing, or a frame whose
    knee angle is not below 30. *)
Definition continues (t : Tick) : bool :=
  match t with
  | Angles k _ _ _ => negb (Js.lt k 30)
  | Wait _ => true
  | ResetPressed => false
  end.


(** The warning lists the screen can show. *)
Definition knownWarnings (l : list string) : Prop :=
  l = [] \/ l = ["Too deep! Protect your knees"%string] \/
  l = ["Not deep enough! Go deeper"%string] \/ l = ["Test Warning!"%string].

(** The stage shown agrees with the tracked phase and the counter. *)
Definition stageAgrees (o : Observation) : Prop :=
  match o_stage o with
  | None => descending (o_state o) = false /\ o_counter o = 0%N
  | Some s =>
      (s = "down"%string /\ descending (o_state o) = true) \/
      (s = "up"%string /\ descending (o_state o) = false /\
       (0 < o_counter o)%N)
  end.

(** The fields the analysis declares and resets but never updates. *)
Definition untracked (o : Observation) : Prop :=
  (minHipAngle (o_state o) = 360 /\ minHipAnkleDiff (o_state o) = 999 /\
   backWarningGiven (o_state o) = false /\
   toeWarningGiven (o_state o) = false) /\
  (c_minHipAngle (o_current o) = 360 /\
   c_minHipAnkleDiff (o_current o) = 999 /\
   c_hipAnkleDiff (o_current o) = 0) /\
  (d_minHipAngle (o_display o) = 360 /\
   d_minHipAnkleDiff (o_display o) = 999 /\
   d_hipAnkleDiff (o_display o) = 0).

(** Two state objects that agree on everything but the last-warning time
    and the timer handle. *)
Definition sameRep (s1 s2 : SquatState) : Prop :=
  set_lastWarningTime 0 (set_angleDisplayTimer None s1)
  = set_lastWarningTime 0 (set_angleDisplayTimer None s2).

(** Two observations that show the same and will go on showing the same:
    they differ at most in timer handles, and in the time of a last warning
    that is no longer on display. *)
Definition alike (a b : Observation) : Prop :=
  sameRep (o_state a) (o_state b) /\
  o_counter a = o_counter b /\ o_stage a = o_stage b /\
  o_warnings a = o_warnings b /\ o_current a = o_current b /\
  o_display a = o_display b /\
  map snd (o_timers a) = map snd (o_timers b) /\
  o_now a = o_now b /\
  (o_warnings a <> [] ->
   lastWarningTime (o_state a) = lastWarningTime (o_state b)).

(** A binary64 value that is a zero, positive or NaN. *)
Definition unsigned (x : spec_float) : Prop :=
  match x with
  | S754_zero s | S754_infinity s | S754_finite s _ _ => s = false
  | S754_nan => True
  end.

(** The decimal digit [d] (below 10) as a character. *)
Definition digit (d : N) : ascii := ascii_of_N (48 + d).

(** [s] (below 100) as two digits. *)
Definition twoDigits (s : N) : string :=
  String (digit (s / 10)) (String (digit (s mod 10)) ""%string).


(** * Properties *)

(** ** Order and NaN on binary64 *)

Module FloatFacts.

Lemma SFcompare_trans_lt a b c :
  SFcompare a b = Some Lt -> SFcompare b c = Some Lt ->
  SFcompare a c = Some Lt.
Proof.
  destruct a as [sa|sa| |sa ma ea], b as [sb|sb| |sb mb eb],
           c as [sc|sc| |sc mc ec];
    simpl; try discriminate;
    repeat match goal with s : bool |- _ => destruct s end; simpl;
    try discriminate; try reflexivity.
  all: intros H1 H2; injection H1 as H1; injection H2 as H2; f_equal;
    revert H1 H2.
  all: destruct (Z.compare_spec ea eb), (Z.compare_spec eb ec),
         (Z.compare_spec ea ec);
    try discriminate; try lia; try reflexivity; subst;
    rewrite ?Pos.compare_cont_spec; simpl;
    destruct (Pos.compare_spec ma mb), (Pos.compare_spec mb mc),
      (Pos.compare_spec ma mc);
    simpl; try discriminate; try lia; try reflexivity.
Qed.

Lemma SFcompare_refl a : a <> S754_nan -> SFcompare a a = Some Eq.
Proof.
  destruct a as [s|s| |s m e]; simpl; try congruence; intros _.
  - now destruct s.
  - destruct s;
      rewrite Z.compare_refl, Pos.compare_cont_spec, Pos.compare_refl;
      reflexivity.
Qed.

Lemma SFcompare_eq_compat a b c :
  SFcompare a b = Some Eq -> SFcompare a c = SFcompare b c.
Proof.
  destruct a as [sa|sa| |sa ma ea], b as [sb|sb| |sb mb eb],
           c as [sc|sc| |sc mc ec];
    simpl; try discriminate; try reflexivity;
    repeat match goal with s : bool |- _ => destruct s end; simpl;
    try discriminate; try reflexivity.
  all: intros H; injection H as H; revert H.
  all: destruct (Z.compare_spec ea eb); try discriminate; subst;
    rewrite ?Pos.compare_cont_spec;
    destruct (Pos.compare_spec ma mb); simpl; try discriminate; subst;
    reflexivity.
Qed.

Lemma SFcompare_total a b :
  a <> S754_nan -> b <> S754_nan ->
  SFcompare a b <> Some Lt -> SFcompare b a <> Some Lt ->
  SFcompare a b = Some Eq.
Proof.
  destruct a as [sa|sa| |sa ma ea], b as [sb|sb| |sb mb eb];
    simpl; try congruence;
    repeat match goal with s : bool |- _ => destruct s end; simpl;
    try congruence.
  all: intros _ _; rewrite ?Pos.compare_cont_spec;
    destruct (Z.compare_spec ea eb), (Z.compare_spec eb ea);
    try lia; try congruence; subst;
    destruct (Pos.compare_spec ma mb), (Pos.compare_spec mb ma); simpl;
    try lia; congruence.
Qed.

Lemma is_nan_spec x : is_nan x = true <-> Prim2SF x = S754_nan.
Proof.
  unfold is_nan. rewrite FloatAxioms.eqb_spec. unfold SFeqb.
  destruct (Prim2SF x) as [s|s| |s m e] eqn:E.
  2,1,4: rewrite SFcompare_refl by discriminate; split; discriminate.
  simpl. split; reflexivity.
Qed.

Lemma is_nan_false x : is_nan x = false <-> Prim2SF x <> S754_nan.
Proof.
  rewrite <- is_nan_spec. destruct (is_nan x); split; congruence.
Qed.

Lemma ltb_trans x y z :
  (x <? y) = true -> (y <? z) = true -> (x <? z) = true.
Proof.
  rewrite !ltb_spec. unfold SFltb.
  destruct (SFcompare (Prim2SF x) (Prim2SF y)) as [[]|] eqn:E1;
    try discriminate.
  destruct (SFcompare (Prim2SF y) (Prim2SF z)) as [[]|] eqn:E2;
    try discriminate.
  now rewrite (SFcompare_trans_lt _ _ _ E1 E2).
Qed.

Lemma ltb_irrefl x : (x <? x) = false.
Proof.
  rewrite ltb_spec. unfold SFltb.
  destruct (Prim2SF x) as [s|s| |s m e] eqn:E.
  2,1,4: rewrite SFcompare_refl by discriminate; reflexivity.
  reflexivity.
Qed.

Lemma ltb_asym x y : (x <? y) = true -> (y <? x) = false.
Proof.
  intros H. destruct (y <? x) eqn:E; [|reflexivity].
  pose proof (ltb_trans _ _ _ H E) as C. now rewrite ltb_irrefl in C.
Qed.

Lemma ltb_not_nan x y :
  (x <? y) = true -> is_nan x = false /\ is_nan y = false.
Proof.
  rewrite ltb_spec, !is_nan_false. unfold SFltb.
  destruct (Prim2SF x), (Prim2SF y); simpl; try discriminate;
    split; discriminate.
Qed.

Lemma ltb_eq_compat x y z :
  is_nan x = false -> is_nan y = false ->
  (x <? y) = false -> (y <? x) = false ->
  (x <? z) = (y <? z).
Proof.
  rewrite !is_nan_false, !ltb_spec. unfold SFltb. intros Hx Hy H1 H2.
  rewrite (SFcompare_eq_compat (Prim2SF x) (Prim2SF y)); [reflexivity|].
  apply SFcompare_total; trivial; intros C; rewrite C in *; discriminate.
Qed.

(** The two thresholds of the phase tracker exclude each other. *)
Lemma below_30_not_above_85 k :
  Js.lt k 30 = true -> Js.gt k 85 = false.
Proof.
  unfold Js.lt, Js.gt. intros H.
  destruct (85 <? k) eqn:E; [|reflexivity].
  pose proof (ltb_trans _ _ _ E H) as C. vm_compute in C. discriminate.
Qed.

Lemma Math_min_nan_l m k : is_nan m = true -> Js.Math_min m k = nan.
Proof. intros H. unfold Js.Math_min. now rewrite H. Qed.

Lemma Math_min_nan_r m k : is_nan k = true -> Js.Math_min m k = nan.
Proof.
  intros H. unfold Js.Math_min. rewrite H, orb_true_r. reflexivity.
Qed.

Lemma Math_max_nan_r m k : is_nan k = true -> Js.Math_max m k = nan.
Proof.
  intros H. unfold Js.Math_max. rewrite H, orb_true_r. reflexivity.
Qed.

(** A minimum with a number below [c] is below [c], unless the other
    argument is NaN. *)
Lemma Math_min_below m k c :
  is_nan m = false -> (k <? c) = true -> (Js.Math_min m k <? c) = true.
Proof.
  intros Hm Hk. destruct (ltb_not_nan _ _ Hk) as [Hkn _].
  unfold Js.Math_min. rewrite Hm, Hkn. simpl.
  destruct (m <? k) eqn:E1; [now apply ltb_trans with k|].
  destruct (k <? m) eqn:E2; [assumption|].
  destruct (is_zero m && get_sign m); [|assumption].
  now rewrite (ltb_eq_compat m k c).
Qed.

Lemma Math_min_not_nan m k :
  is_nan m = false -> is_nan k = false -> is_nan (Js.Math_min m k) = false.
Proof.
  intros Hm Hk. unfold Js.Math_min. rewrite Hm, Hk. simpl.
  destruct (m <? k), (k <? m), (is_zero m && get_sign m); assumption.
Qed.

End FloatFacts.

(** ** Zero-length vectors in [calculateAngle] *)

Module Degenerate.

Lemma sub_self x : zn (x - x).
Proof.
  unfold zn. rewrite sub_spec. unfold SF64sub.
  destruct (Prim2SF x) as [s|s| |s m e]; simpl; trivial.
  - now destruct s.
  - now destruct s.
  - now rewrite Z.sub_diag.
Qed.

Lemma mul_zn_l x y : zn x -> zn (x * y).
Proof.
  unfold zn. rewrite mul_spec. unfold SF64mul.
  destruct (Prim2SF x), (Prim2SF y); simpl; tauto.
Qed.

Lemma mul_zn_r x y : zn y -> zn (x * y).
Proof.
  unfold zn. rewrite mul_spec. unfold SF64mul.
  destruct (Prim2SF x), (Prim2SF y); simpl; tauto.
Qed.

Lemma add_zn x y : zn x -> zn y -> zn (x + y).
Proof.
  unfold zn. rewrite add_spec. unfold SF64add.
  destruct (Prim2SF x) as [[]| | |], (Prim2SF y) as [[]| | |]; simpl; tauto.
Qed.

Lemma sqrt_zn x : zn x -> zn (Js.Math_sqrt x).
Proof.
  unfold zn, Js.Math_sqrt. rewrite sqrt_spec. unfold SF64sqrt.
  destruct (Prim2SF x); simpl; tauto.
Qed.

Lemma div_zn x y : zn x -> zn y -> is_nan (x / y) = true.
Proof.
  unfold zn. rewrite FloatFacts.is_nan_spec, div_spec. unfold SF64div.
  destruct (Prim2SF x), (Prim2SF y); simpl; tauto.
Qed.

(** Once the cosine is NaN, so is the angle: [Math.min], [Math.max],
    [Math.acos], the arithmetic and [Math.round] all pass NaN on. *)
Lemma nan_cosine_gives_nan acos_approx (cosTheta : float) :
  is_nan cosTheta = true ->
  is_nan (Js.Math_round
            (180 - (Js.Math_acos acos_approx
                      (Js.Math_max (-1) (Js.Math_min 1 cosTheta)) * 180)
                   / Js.Math_PI)) = true.
Proof.
  intros H. rewrite (FloatFacts.Math_min_nan_r 1 cosTheta H).
  reflexivity.
Qed.

Lemma coincident_first acos_approx (b c : Vec2) :
  is_nan (calculateAngle acos_approx b b c) = true.
Proof.
  unfold calculateAngle. apply nan_cosine_gives_nan. cbn [fst snd].
  apply div_zn.
  - apply add_zn; apply mul_zn_l, sub_self.
  - apply mul_zn_l, sqrt_zn, add_zn; apply mul_zn_l, sub_self.
Qed.

Lemma coincident_last acos_approx (a b : Vec2) :
  is_nan (calculateAngle acos_approx a b b) = true.
Proof.
  unfold calculateAngle. apply nan_cosine_gives_nan. cbn [fst snd].
  apply div_zn.
  - apply add_zn; apply mul_zn_r, sub_self.
  - apply mul_zn_r, sqrt_zn, add_zn; apply mul_zn_l, sub_self.
Qed.

End Degenerate.

(** ** The store and what is observed of it

    Every operation of the component acts on the observation of a
    well-formed world as its counterpart in [Abs] does, and keeps the world
    well-formed: the objects left behind by [resetSquatRep], which the timer
    callbacks still write to, are never read again. *)

Module Store.

Ltac projs :=
  cbn [heap squatState_current squatCounter squatStage warningMessages
       currentAngles displayAngles timers nextTimer now].

Ltac oprojs :=
  cbn [o_state o_counter o_stage o_warnings o_current o_display o_timers
       o_next o_now].

Lemma lookup_total_mid (pre post : list SquatState) s :
  (pre ++ s :: post) !!! length pre = s.
Proof. induction pre; simpl; auto. Qed.

Lemma alter_mid (f : SquatState -> SquatState) pre post s :
  alter f (length pre) (pre ++ s :: post) = pre ++ f s :: post.
Proof. induction pre; simpl; auto. unfold alter in *. simpl. now f_equal. Qed.

Lemma wf_split (hp : list SquatState) (cur : nat) : (cur < length hp)%nat ->
  exists pre s post, hp = pre ++ s :: post /\ length pre = cur.
Proof.
  intros H. destruct (lookup_lt_is_Some_2 hp cur H) as [s Hs].
  exists (take cur hp), s, (drop (S cur) hp). split.
  - now rewrite (take_drop_middle hp cur s Hs).
  - rewrite length_take. lia.
Qed.

Lemma obj_mid pre s post c cnt stg wrn ca da tms nxt nw :
  obj (mkWorld (pre ++ s :: post) c cnt stg wrn ca da tms nxt nw) (length pre)
  = s.
Proof. apply lookup_total_mid. Qed.

Lemma mutate_mid f pre s post c cnt stg wrn ca da tms nxt nw :
  mutate (length pre) f
    (mkWorld (pre ++ s :: post) c cnt stg wrn ca da tms nxt nw)
  = mkWorld (pre ++ f s :: post) c cnt stg wrn ca da tms nxt nw.
Proof. unfold mutate. projs. now rewrite alter_mid. Qed.

Lemma startGoingDown_nf k h e pre s post c cnt stg wrn ca da tms nxt nw :
  startGoingDown (length pre) k h e
    (mkWorld (pre ++ s :: post) c cnt stg wrn ca da tms nxt nw)
  = let started := Js.gt k 85 && negb (descending s) in
    mkWorld (pre ++ (if started then Abs.startDescent k h e s else s) :: post)
      c cnt (if started then Some "down"%string else stg) wrn ca da tms nxt nw.
Proof.
  unfold startGoingDown. rewrite obj_mid. cbv zeta.
  destruct (Js.gt k 85 && negb (descending s)); [|reflexivity].
  rewrite !mutate_mid. reflexivity.
Qed.

Lemma trackAngles_nf k h e x pre s post c cnt stg wrn ca da tms nxt nw :
  trackAngles (length pre) k h e x
    (mkWorld (pre ++ s :: post) c cnt stg wrn ca da tms nxt nw)
  = mkWorld (pre ++ (if descending s then Abs.track k h e x s else s) :: post)
      c cnt stg wrn ca da tms nxt nw.
Proof.
  unfold trackAngles. rewrite obj_mid. cbv zeta.
  destruct (descending s); [|reflexivity].
  rewrite !mutate_mid. reflexivity.
Qed.

Lemma checkKneePosition_nf nws pre s post c cnt stg wrn ca da tms nxt nw :
  checkKneePosition (length pre) nws
    (mkWorld (pre ++ s :: post) c cnt stg wrn ca da tms nxt nw)
  = (nws ++ fst (Abs.depthRule s),
     mkWorld (pre ++ snd (Abs.depthRule s) :: post) c cnt stg wrn ca da tms
       nxt nw).
Proof.
  unfold checkKneePosition, Abs.depthRule. rewrite !obj_mid.
  destruct (depthWarningGiven s); simpl; [now rewrite app_nil_r|].
  destruct (Js.gt (maxKneeAngle s) 140); simpl; [now rewrite mutate_mid|].
  destruct (Js.lt (maxKneeAngle s) 100); simpl; [now rewrite mutate_mid|].
  now rewrite app_nil_r.
Qed.

Lemma showLastRep_nf k h e pre s post c cnt stg wrn ca da tms nxt nw :
  showLastRep (length pre) k h e
    (mkWorld (pre ++ s :: post) c cnt stg wrn ca da tms nxt nw)
  = mkWorld (pre ++ set_angleDisplayTimer (Some nxt) s :: post) c cnt stg wrn ca
      (mkDisplayAngles k h e (minKneeAngle s) (minHipAngle s)
          (maxKneeAngle s) (maxHipAngle s) (maxHeelAngle s) true 0
          (minHipAnkleDiff s))
      (match angleDisplayTimer s with
       | Some id => filter (fun t => tid t <> id) tms
       | None => tms
       end ++ [mkTimer nxt (nw + 3000) (length pre)])
      (S nxt) nw.
Proof.
  unfold showLastRep. cbv zeta. unfold setDisplayAngles.
  projs.
  rewrite !obj_mid.
  destruct (angleDisplayTimer s); unfold clearTimeout, setTimeout;
  projs;
  rewrite mutate_mid; reflexivity.
Qed.

Lemma standUp_nf t k h e pre s post cnt stg wrn ca da tms nxt nw :
  standUp (length pre) t k h e
    (mkWorld (pre ++ s :: post) (length pre) cnt stg wrn ca da tms nxt nw)
  = if Js.lt k 30 && descending s then
      let s3 := set_angleDisplayTimer (Some nxt) s in
      let emitted := (0 <? length (fst (Abs.depthRule s3)))%nat in
      let s5 := if emitted then set_lastWarningTime t (snd (Abs.depthRule s3))
                else snd (Abs.depthRule s3) in
      mkWorld ((pre ++ s5 :: post) ++ [Abs.fresh s5])
        (length (pre ++ s5 :: post)) (cnt + 1)%N (Some "up"%string)
        (if emitted then fst (Abs.depthRule s3) else wrn) ca
        (mkDisplayAngles k h e (minKneeAngle s) (minHipAngle s)
           (maxKneeAngle s) (maxHipAngle s) (maxHeelAngle s) true 0
           (minHipAnkleDiff s))
        (match angleDisplayTimer s with
         | Some id => filter (fun t => tid t <> id) tms
         | None => tms
         end ++ [mkTimer nxt (nw + 3000) (length pre)])
        (S nxt) nw
    else mkWorld (pre ++ s :: post) (length pre) cnt stg wrn ca da tms nxt nw.
Proof.
  unfold standUp. rewrite obj_mid.
  destruct (Js.lt k 30 && descending s); [|reflexivity].
  cbv zeta. unfold setSquatCounter. projs.
  rewrite showLastRep_nf, checkKneePosition_nf. cbn [app].
  set (s3 := set_angleDisplayTimer (Some nxt) s).
  destruct (0 <? length (fst (Abs.depthRule s3)))%nat.
  - unfold setWarningMessages. projs. rewrite mutate_mid.
    unfold resetSquatRep, current. projs. rewrite obj_mid.
    rewrite !length_app. reflexivity.
  - unfold resetSquatRep, current. projs. rewrite obj_mid.
    rewrite !length_app. reflexivity.
Qed.

Lemma showAnglesSeen_nf seen k h e pre s post cnt stg wrn ca da tms nxt nw :
  showAnglesSeen seen k h e
    (mkWorld (pre ++ s :: post) (length pre) cnt stg wrn ca da tms nxt nw)
  = mkWorld (pre ++ s :: post) (length pre) cnt stg wrn
      (mkCurrentAngles k h e (minKneeAngle s) (minHipAngle s) (maxKneeAngle s)
        (maxHipAngle s) (maxHeelAngle s) 0 (minHipAnkleDiff s)
        (maxKneeForward s))
      (if negb seen then
        mkDisplayAngles k h e (minKneeAngle s) (minHipAngle s)
          (maxKneeAngle s) (maxHipAngle s) (maxHeelAngle s) false 0
          (minHipAnkleDiff s)
       else da) tms nxt nw.
Proof.
  unfold showAnglesSeen, current. projs. rewrite obj_mid.
  destruct seen; reflexivity.
Qed.

Lemma showAngles_nf k h e pre s post cnt stg wrn ca da tms nxt nw :
  showAngles k h e
    (mkWorld (pre ++ s :: post) (length pre) cnt stg wrn ca da tms nxt nw)
  = mkWorld (pre ++ s :: post) (length pre) cnt stg wrn
      (mkCurrentAngles k h e (minKneeAngle s) (minHipAngle s) (maxKneeAngle s)
        (maxHipAngle s) (maxHeelAngle s) 0 (minHipAnkleDiff s)
        (maxKneeForward s))
      (if negb (showingLastRep da) then
        mkDisplayAngles k h e (minKneeAngle s) (minHipAngle s)
          (maxKneeAngle s) (maxHipAngle s) (maxHeelAngle s) false 0
          (minHipAnkleDiff s)
       else da) tms nxt nw.
Proof. unfold showAngles. projs. apply showAnglesSeen_nf. Qed.

Lemma clearWarnings_nf t pre s post c cnt stg wrn ca da tms nxt nw :
  clearWarnings (length pre) t
    (mkWorld (pre ++ s :: post) c cnt stg wrn ca da tms nxt nw)
  = mkWorld (pre ++ s :: post) c cnt stg
      (if (t - lastWarningTime s >? 2000)%Z then [] else wrn)
      ca da tms nxt nw.
Proof.
  unfold clearWarnings. rewrite obj_mid.
  destruct (t - lastWarningTime s >? 2000)%Z; reflexivity.
Qed.

Lemma map_filter_tid (id : TimerId) (l : list Timer) :
  map (fun t => (tid t, due t)) (filter (fun t => tid t <> id) l)
  = filter (fun p : TimerId * Z => fst p <> id)
      (map (fun t => (tid t, due t)) l).
Proof.
  induction l as [|a l IH]; [reflexivity|].
  rewrite filter_cons. simpl. rewrite filter_cons. simpl.
  destruct (decide (tid a <> id)); simpl; now rewrite IH.
Qed.

Lemma Forall_filter_keep {A} (Q P : A -> Prop) `{!forall x, Decision (P x)}
    (l : list A) :
  Forall Q l -> Forall Q (filter P l).
Proof.
  induction 1 as [|a l Ha Hl IH]; [constructor|].
  rewrite filter_cons. destruct (decide (P a)); [constructor|]; assumption.
Qed.

Lemma app_mid_assoc (l : list SquatState) x m n :
  (l ++ x :: m) ++ n = l ++ x :: (m ++ n).
Proof. induction l; simpl; [reflexivity|now f_equal]. Qed.

Lemma bodySeen_sim seen k h e x w :
  wf w ->
  observe (analyzeSquat_bodySeen seen k h e x w)
  = Abs.bodySeen seen k h e x (observe w)
  /\ wf (analyzeSquat_bodySeen seen k h e x w).
Proof.
  intros [Hwf Ht]. destruct w as [hp cur cnt stg wrn ca da tms nxt nw].
  simpl in *. destruct (wf_split hp cur Hwf) as (pre & s & post & -> & <-).
  unfold analyzeSquat_bodySeen. rewrite showAnglesSeen_nf. cbv zeta. projs.
  rewrite startGoingDown_nf. cbv zeta. rewrite trackAngles_nf, standUp_nf.
  match goal with |- context [Abs.bodySeen _ _ _ _ _ (observe ?W)] =>
    replace (observe W) with
      (mkObservation s cnt stg wrn ca da (map (fun t => (tid t, due t)) tms)
         nxt nw)
      by (unfold observe, current; projs; now rewrite obj_mid)
  end.
  unfold Abs.bodySeen.
  oprojs.
  cbv zeta.
  set (started := Js.gt k 85 && negb (descending s)).
  set (s1 := if started then Abs.startDescent k h e s else s).
  set (s2 := if descending s1 then Abs.track k h e x s1 else s1).
  destruct (Js.lt k 30 && descending s2) eqn:Hc.
  - cbv zeta.
    set (s3 := set_angleDisplayTimer (Some nxt) s2).
    set (em := (0 <? length (fst (Abs.depthRule s3)))%nat).
    set (s5 := if em then set_lastWarningTime nw (snd (Abs.depthRule s3))
               else snd (Abs.depthRule s3)).
    assert (E : (pre ++ s5 :: post) ++ [Abs.fresh s5]
                = pre ++ s5 :: (post ++ [Abs.fresh s5])).
    { apply app_mid_assoc. }
    rewrite E, clearWarnings_nf, <- E. split.
    + unfold observe, current. projs.
      rewrite obj_mid. f_equal.
      rewrite map_app. simpl. f_equal.
      destruct (angleDisplayTimer s2); [|reflexivity].
      apply map_filter_tid.
    + split; projs.
      * repeat rewrite length_app. simpl. lia.
      * assert (Hlt : forall t : Timer, (captured t < length pre)%nat ->
                  (captured t < length (pre ++ s5 :: post))%nat).
        { intros t Hlt. rewrite length_app. lia. }
        rewrite Forall_app. split.
        -- destruct (angleDisplayTimer s2); [apply Forall_filter_keep|];
             (eapply Forall_impl; [exact Ht|exact Hlt]).
        -- constructor; [|constructor]. simpl. rewrite length_app. simpl. lia.
  - rewrite clearWarnings_nf. split.
    + unfold observe, current. projs. rewrite obj_mid. reflexivity.
    + split; projs; [rewrite length_app in *; simpl in *; lia| exact Ht].
Qed.

Lemma body_sim k h e x w :
  wf w ->
  observe (analyzeSquat_body k h e x w) = Abs.body k h e x (observe w)
  /\ wf (analyzeSquat_body k h e x w).
Proof. apply bodySeen_sim. Qed.


Lemma obj_mutate_ne l l' f w : l <> l' -> obj (mutate l f w) l' = obj w l'.
Proof.
  intros H. unfold obj, mutate. projs.
  apply list_lookup_total_alter_ne. exact H.
Qed.

Lemma timeouts_sim (l : list Timer) : forall w,
  Forall (fun t => (captured t < squatState_current w)%nat) l ->
  let w' := foldl (fun w x => angleDisplayTimeout (captured x) w) w l in
  observe w' =
    mkObservation (current w) (squatCounter w) (squatStage w)
      (warningMessages w) (currentAngles w)
      (match l with
       | [] => displayAngles w
       | _ :: _ => set_showingLastRep false (displayAngles w)
       end)
      (map (fun t => (tid t, due t)) (timers w)) (nextTimer w) (now w)
  /\ squatState_current w' = squatState_current w
  /\ length (heap w') = length (heap w)
  /\ timers w' = timers w.
Proof.
  induction l as [|a l IH]; intros w Hl; [cbn; auto|].
  inversion Hl as [|? ? Ha Hl']; subst. cbn [foldl].
  set (w1 := angleDisplayTimeout (captured a) w).
  assert (H1 : squatState_current w1 = squatState_current w) by reflexivity.
  assert (H2 : length (heap w1) = length (heap w)).
  { unfold w1, angleDisplayTimeout, mutate, setDisplayAngles. projs.
    apply length_alter. }
  assert (H3 : current w1 = current w).
  { unfold current. rewrite H1. unfold w1, angleDisplayTimeout.
    rewrite obj_mutate_ne by lia. reflexivity. }
  destruct (IH w1) as (E1 & E2 & E3 & E4).
  { now rewrite H1. }
  cbv zeta. rewrite E1, E2, E3, E4, H1, H2, H3. repeat split.
  f_equal.
  destruct l; unfold w1, angleDisplayTimeout, setDisplayAngles, mutate;
    projs; [reflexivity|]. now destruct (displayAngles w).
Qed.

Lemma map_filter_due (t : Z) (l : list Timer) :
  map (fun x => (tid x, due x)) (filter (fun x => (due x <= t)%Z) l)
  = filter (fun p : TimerId * Z => (snd p <= t)%Z)
      (map (fun x => (tid x, due x)) l).
Proof.
  induction l as [|a l IH]; [reflexivity|].
  rewrite filter_cons. simpl. rewrite filter_cons. simpl.
  destruct (decide (due a <= t)%Z); simpl; now rewrite IH.
Qed.

Lemma map_filter_not_due (t : Z) (l : list Timer) :
  map (fun x => (tid x, due x)) (filter (fun x => ~ (due x <= t)%Z) l)
  = filter (fun p : TimerId * Z => ~ (snd p <= t)%Z)
      (map (fun x => (tid x, due x)) l).
Proof.
  induction l as [|a l IH]; [reflexivity|].
  rewrite filter_cons. simpl. rewrite filter_cons. simpl.
  destruct (decide (~ (due a <= t)%Z)); simpl; now rewrite IH.
Qed.

Lemma elapse_sim dt w :
  wf w ->
  observe (elapse dt w) = Abs.elapse dt (observe w) /\ wf (elapse dt w).
Proof.
  intros [Hwf Ht]. unfold elapse. cbv zeta.
  set (t := (now w + Z.of_N dt)%Z).
  set (w0 := mkWorld _ _ _ _ _ _ _ _ _ _).
  destruct (timeouts_sim (filter (fun x => (due x <= t)%Z) (timers w)) w0)
    as (E1 & E2 & E3 & E4).
  { apply Forall_filter_keep. exact Ht. }
  cbv zeta in E1. split.
  - rewrite E1. unfold Abs.elapse, observe, w0, current, obj. projs.
    oprojs.
    fold t. rewrite <- map_filter_due, <- map_filter_not_due.
    f_equal. now destruct (filter (fun x => (due x <= t)%Z) (timers w)).
  - split.
    + rewrite E2, E3. exact Hwf.
    + rewrite E2, E4. unfold w0. projs. apply Forall_filter_keep. exact Ht.
Qed.

Lemma resetSquatRep_nf pre s post cnt stg wrn ca da tms nxt nw :
  resetSquatRep
    (mkWorld (pre ++ s :: post) (length pre) cnt stg wrn ca da tms nxt nw)
  = mkWorld ((pre ++ s :: post) ++ [Abs.fresh s]) (length (pre ++ s :: post))
      cnt stg wrn ca da tms nxt nw.
Proof. unfold resetSquatRep, current. projs. rewrite obj_mid. reflexivity. Qed.

Lemma reset_sim w :
  wf w ->
  observe (resetCounter w) = Abs.reset (observe w) /\ wf (resetCounter w).
Proof.
  intros [Hwf Ht]. destruct w as [hp cur cnt stg wrn ca da tms nxt nw].
  simpl in *. destruct (wf_split hp cur Hwf) as (pre & s & post & -> & <-).
  assert (Hlt : Forall (fun t : Timer =>
                  (captured t < length (pre ++ s :: post))%nat) tms).
  { eapply Forall_impl; [exact Ht|]. simpl. intros. lia. }
  match goal with |- context [Abs.reset (observe ?W)] =>
    replace (observe W) with
      (mkObservation s cnt stg wrn ca da (map (fun t => (tid t, due t)) tms)
         nxt nw)
      by (unfold observe, current; projs; now rewrite obj_mid)
  end.
  unfold resetCounter, setSquatCounter, setWarningMessages. cbv zeta. projs.
  rewrite resetSquatRep_nf. unfold setSquatStage, current. projs.
  set (hp := pre ++ s :: post) in *.
  rewrite obj_mid.
  unfold Abs.reset.
  oprojs.
  change (angleDisplayTimer (Abs.fresh s)) with (angleDisplayTimer s).
  destruct (angleDisplayTimer s) eqn:Ea.
  - unfold clearTimeout. projs. rewrite mutate_mid.
    unfold setDisplayAngles, setCurrentAngles. projs. split.
    + unfold observe, current. projs.
      rewrite obj_mid, map_filter_tid. reflexivity.
    + split; projs; [rewrite length_app; simpl; lia|].
      apply Forall_filter_keep. exact Hlt.
  - unfold setDisplayAngles, setCurrentAngles. projs. split.
    + unfold observe, current. projs.
      rewrite obj_mid. unfold Abs.fresh, set_angleDisplayTimer. simpl.
      rewrite Ea. reflexivity.
    + split; projs; [rewrite length_app; simpl; lia|exact Hlt].
Qed.

Lemma tick_sim w t :
  wf w -> observe (tick w t) = Abs.tick (observe w) t /\ wf (tick w t).
Proof.
  destruct t; simpl; [apply body_sim|apply elapse_sim|apply reset_sim].
Qed.

Lemma wf_initial t0 : wf (initialWorld t0).
Proof. split; simpl; [lia|constructor]. Qed.

Lemma ticks_sim ts : forall w,
  wf w ->
  observe (ticks w ts) = foldl Abs.tick (observe w) ts /\ wf (ticks w ts).
Proof.
  induction ts as [|t ts IH]; intros w H; [now split|].
  unfold ticks in *. cbn [foldl].
  destruct (tick_sim w t H) as [E H']. rewrite <- E. now apply IH.
Qed.

Lemma tickSeen_sim w st :
  wf w ->
  observe (tickSeen w st) = Abs.tickSeen (observe w) st /\ wf (tickSeen w st).
Proof.
  destruct st as [seen [k h e x|dt|]]; unfold tickSeen, Abs.tickSeen;
    cbn [fst snd]; [apply bodySeen_sim|apply elapse_sim|apply reset_sim].
Qed.

Lemma ticksSeen_sim sts : forall w,
  wf w ->
  observe (ticksSeen w sts) = foldl Abs.tickSeen (observe w) sts
  /\ wf (ticksSeen w sts).
Proof.
  induction sts as [|st sts IH]; intros w H; [now split|].
  unfold ticksSeen in *. cbn [foldl].
  destruct (tickSeen_sim w st H) as [E H']. rewrite <- E. now apply IH.
Qed.

End Store.

(** ** The tracker on observations *)

Import Store.

Lemma track_keeps k h e x s :
  descending (Abs.track k h e x s) = descending s /\
  depthWarningGiven (Abs.track k h e x s) = depthWarningGiven s /\
  angleDisplayTimer (Abs.track k h e x s) = angleDisplayTimer s /\
  lastWarningTime (Abs.track k h e x s) = lastWarningTime s.
Proof. repeat split. Qed.

Lemma startDescent_keeps k h e s :
  descending (Abs.startDescent k h e s) = true /\
  depthWarningGiven (Abs.startDescent k h e s) = depthWarningGiven s /\
  angleDisplayTimer (Abs.startDescent k h e s) = angleDisplayTimer s /\
  lastWarningTime (Abs.startDescent k h e s) = lastWarningTime s.
Proof. repeat split. Qed.

Lemma tracked_keeps k h e x s :
  descending (Abs.tracked k h e x s) = (Js.gt k 85 || descending s) /\
  depthWarningGiven (Abs.tracked k h e x s) = depthWarningGiven s /\
  angleDisplayTimer (Abs.tracked k h e x s) = angleDisplayTimer s /\
  lastWarningTime (Abs.tracked k h e x s) = lastWarningTime s.
Proof.
  unfold Abs.tracked, Abs.track, Abs.startDescent.
  destruct (Js.gt k 85), (descending s) eqn:E; cbn; rewrite ?E; cbn;
    rewrite ?E; repeat split.
Qed.

Lemma depthRule_keeps s :
  angleDisplayTimer (snd (Abs.depthRule s)) = angleDisplayTimer s /\
  lastWarningTime (snd (Abs.depthRule s)) = lastWarningTime s /\
  maxKneeAngle (snd (Abs.depthRule s)) = maxKneeAngle s.
Proof.
  unfold Abs.depthRule.
  destruct (depthWarningGiven s), (Js.gt (maxKneeAngle s) 140),
    (Js.lt (maxKneeAngle s) 100); repeat split.
Qed.

Lemma inv_initial t0 : Abs.inv (observe (initialWorld t0)).
Proof. repeat split. constructor. Qed.

Lemma pending_cleared o :
  Abs.inv o ->
  match angleDisplayTimer (o_state o) with
  | Some id => filter (fun t : TimerId * Z => fst t <> id) (o_timers o)
  | None => o_timers o
  end = [].
Proof.
  intros (_ & _ & Hs).
  destruct (o_timers o) as [|t [|t' l]]; [| |contradiction].
  - now destruct (angleDisplayTimer (o_state o)).
  - destruct Hs as [_ ->]. rewrite filter_cons, filter_nil.
    destruct (decide (fst t <> fst t)); congruence.
Qed.

Lemma inv_body k h e x o : Abs.inv o -> Abs.inv (Abs.body k h e x o).
Proof.
  intros (Hd & Hf & Hs). unfold Abs.body, Abs.bodySeen. cbv zeta.
  fold (Abs.tracked k h e x (o_state o)).
  destruct (tracked_keeps k h e x (o_state o)) as (T1 & T2 & T3 & T4).
  destruct (Js.lt k 30 && descending (Abs.tracked k h e x (o_state o))).
  - set (s3 := set_angleDisplayTimer _ _).
    pose proof (pending_cleared o (conj Hd (conj Hf Hs))) as Hp.
    rewrite T3, Hp. unfold Abs.inv. oprojs. cbn [app]. repeat split.
    + constructor; [|constructor]. simpl. lia.
    + destruct (depthRule_keeps s3) as (D1 & _).
      destruct (0 <? length (fst (Abs.depthRule s3)))%nat; simpl;
        rewrite D1; reflexivity.
  - unfold Abs.inv. oprojs. rewrite T2, T3. repeat split; trivial.
    destruct (o_timers o) as [|t [|t' l]]; [| |contradiction].
    + now rewrite Hs.
    + destruct Hs as [Hs1 Hs2]. rewrite Hs1. simpl. now split.
Qed.

Lemma inv_elapse dt o : Abs.inv o -> Abs.inv (Abs.elapse dt o).
Proof.
  intros (Hd & Hf & Hs). unfold Abs.elapse, Abs.inv. cbv zeta. oprojs.
  split; [exact Hd|].
  destruct (o_timers o) as [|t [|t' l]]; [| |contradiction].
  - rewrite !filter_nil. repeat split; [constructor|exact Hs].
  - rewrite !filter_cons, !filter_nil. inversion Hf as [|? ? [Hn Hb] _]; subst.
    destruct (decide (snd t <= o_now o + Z.of_N dt)%Z) as [Hle|Hle];
      destruct (decide (~ (snd t <= o_now o + Z.of_N dt)%Z)) as [Hn'|Hn'];
      try tauto.
    + split; [constructor|]. now destruct (o_display o).
    + split; [|exact Hs]. constructor; [|constructor]. split; [exact Hn|]. lia.
Qed.

Lemma inv_reset o : Abs.inv o -> Abs.inv (Abs.reset o).
Proof.
  intros (Hd & Hf & Hs). unfold Abs.reset, Abs.inv. oprojs.
  split; [reflexivity|].
  destruct (o_timers o) as [|t [|t' l]]; [| |contradiction].
  - destruct (angleDisplayTimer (o_state o)); rewrite ?filter_nil;
      repeat split; constructor.
  - destruct Hs as [_ ->]. rewrite filter_cons, filter_nil.
    destruct (decide (fst t <> fst t)); [congruence|].
    repeat split; constructor.
Qed.

Lemma inv_tick o t : Abs.inv o -> Abs.inv (Abs.tick o t).
Proof.
  destruct t; simpl; [apply inv_body|apply inv_elapse|apply inv_reset].
Qed.

(** Every world reached from the first render is well-formed and its
    observation satisfies the invariant. *)
Lemma reached_ok t0 ts :
  let w := ticks (initialWorld t0) ts in wf w /\ Abs.inv (observe w).
Proof.
  cbv zeta. unfold ticks.
  induction ts as [|t ts IH] using rev_ind.
  - split; [apply wf_initial|apply inv_initial].
  - rewrite foldl_app. cbn [foldl]. destruct IH as [Hw Hi].
    destruct (tick_sim _ t Hw) as [E Hw']. split; [exact Hw'|].
    rewrite E. now apply inv_tick.
Qed.

(** *** Reading the observation *)

Lemma squatCounter_observed w : squatCounter w = o_counter (observe w).
Proof. reflexivity. Qed.

Lemma displayAngles_observed w : displayAngles w = o_display (observe w).
Proof. reflexivity. Qed.

Lemma phase_observed w : phase w = descending (o_state (observe w)).
Proof. reflexivity. Qed.

Lemma now_observed w : now w = o_now (observe w).
Proof. reflexivity. Qed.

Lemma dues_observed w : map due (timers w) = map snd (o_timers (observe w)).
Proof. cbn [observe o_timers]. now rewrite map_map. Qed.

(** *** The counter *)

Lemma body_counter k h e x o :
  let o' := Abs.body k h e x o in
  (Js.lt k 30 && descending (o_state o) = true ->
     o_counter o' = (o_counter o + 1)%N /\ descending (o_state o') = false) /\
  (Js.lt k 30 && descending (o_state o) = false ->
     o_counter o' = o_counter o /\
     (descending (o_state o) = true -> descending (o_state o') = true)).
Proof.
  cbv zeta. unfold Abs.body, Abs.bodySeen. cbv zeta.
  fold (Abs.tracked k h e x (o_state o)).
  destruct (tracked_keeps k h e x (o_state o)) as (T1 & _).
  rewrite T1.
  destruct (Js.lt k 30) eqn:Hk.
  - rewrite (FloatFacts.below_30_not_above_85 k Hk).
    destruct (descending (o_state o)); cbn [orb andb]; split; intros;
      try discriminate; oprojs; auto.
    split; [reflexivity|discriminate].
  - simpl. split; [discriminate|]. intros _. oprojs. split; [reflexivity|].
    rewrite T1. intros ->. now rewrite orb_true_r.
Qed.


Lemma tick_counter w t :
  wf w -> t <> ResetPressed ->
  squatCounter (tick w t)
  = (squatCounter w + (if phase w && negb (phase (tick w t)) then 1 else 0))%N
  /\ (phase w && negb (phase (tick w t))) = completes w t.
Proof.
  intros Hw Ht. destruct (tick_sim w t Hw) as [E _].
  change (squatCounter (tick w t)) with (o_counter (observe (tick w t))).
  change (phase (tick w t)) with (descending (o_state (observe (tick w t)))).
  rewrite E. change (phase w) with (descending (o_state (observe w))).
  change (squatCounter w) with (o_counter (observe w)).
  unfold completes.
  change (phase w) with (descending (o_state (observe w))).
  destruct t as [k h e x|dt|]; [| |congruence]; cbn [Abs.tick].
  - destruct (body_counter k h e x (observe w)) as [B1 B2].
    destruct (Js.lt k 30 && descending (o_state (observe w))) eqn:Hc.
    + destruct (B1 eq_refl) as [-> ->].
      apply andb_true_iff in Hc as [_ ->]. now split.
    + destruct (B2 eq_refl) as [-> B3].
      destruct (descending (o_state (observe w))) eqn:Hd.
      * rewrite (B3 eq_refl). simpl. split; [now rewrite N.add_0_r|].
        reflexivity.
      * simpl. split; [now rewrite N.add_0_r|reflexivity].
  - unfold Abs.elapse. oprojs.
    destruct (descending (o_state (observe w))); simpl;
      now rewrite N.add_0_r.
Qed.

Lemma landmarkAt_nil i : landmarkAt [] i = None.
Proof. now destruct i. Qed.

Lemma step_lower acos w e : step acos w e = ticks w (lower acos e).
Proof.
  destruct e as [lm|dt|]; [|reflexivity|reflexivity].
  cbn [step lower]. unfold handleLandmark, analyzeSquat, frameAngles.
  destruct lm as [|a l].
  - rewrite !landmarkAt_nil. reflexivity.
  - cbn [length Nat.ltb Nat.leb].
    destruct (landmarkAt (a :: l) LANDMARK_INDICES.RIGHT_SHOULDER),
      (landmarkAt (a :: l) LANDMARK_INDICES.RIGHT_HIP),
      (landmarkAt (a :: l) LANDMARK_INDICES.RIGHT_KNEE),
      (landmarkAt (a :: l) LANDMARK_INDICES.RIGHT_ANKLE),
      (landmarkAt (a :: l) LANDMARK_INDICES.RIGHT_FOOT_INDEX),
      (landmarkAt (a :: l) LANDMARK_INDICES.RIGHT_HEEL); reflexivity.
Qed.

Lemma run_ticks acos es : forall w,
  run acos w es = ticks w (concat (map (lower acos) es)).
Proof.
  induction es as [|e es IH]; intros w; [reflexivity|].
  unfold run in *. cbn [foldl map concat]. rewrite IH, step_lower.
  unfold ticks. now rewrite foldl_app.
Qed.

Lemma lower_cases acos e :
  e <> PressReset ->
  lower acos e = [] \/ exists t, lower acos e = [t] /\ t <> ResetPressed.
Proof.
  destruct e as [lm|dt|]; [| |congruence]; intros _; cbn [lower].
  - destruct (frameAngles acos lm) as [[[[k h] a] x]|]; [right|now left].
    eexists. split; [reflexivity|discriminate].
  - right. eexists. split; [reflexivity|discriminate].
Qed.

Lemma step_counter acos w e :
  wf w -> e <> PressReset ->
  let w' := step acos w e in
  wf w' /\
  squatCounter w'
  = (squatCounter w + (if phase w && negb (phase w') then 1 else 0))%N /\
  (phase w && negb (phase w') = true ->
     exists lm k h a x, e = Frame lm /\
       frameAngles acos lm = Some (k, h, a, x) /\ Js.lt k 30 = true).
Proof.
  intros Hw He. cbv zeta. rewrite step_lower.
  destruct (lower_cases acos e He) as [E|(t & E & Ht)].
  - rewrite E. cbn [ticks foldl]. rewrite andb_negb_r.
    split; [exact Hw|split; [lia|discriminate]].
  - rewrite E. cbn [ticks foldl].
    destruct (tick_sim w t Hw) as [_ Hw'].
    destruct (tick_counter w t Hw Ht) as [Hc Hf].
    split; [exact Hw'|split; [exact Hc|]].
    rewrite Hf. destruct e as [lm|dt|]; [| |congruence]; cbn [lower] in E.
    + destruct (frameAngles acos lm) as [[[[k h] a] x]|] eqn:Ef;
        [|discriminate].
      injection E as <-. cbn [completes]. intros Hk.
      apply andb_true_iff in Hk as [Hk _]. now exists lm, k, h, a, x.
    + injection E as <-. discriminate.
Qed.

Lemma run_counter acos es : forall w,
  wf w -> PressReset ∉ es ->
  wf (run acos w es) /\
  squatCounter (run acos w es)
  = (squatCounter w + N.of_nat (downUpTransitions acos w es))%N.
Proof.
  induction es as [|e es IH]; intros w Hw Hn.
  - cbn. split; [exact Hw|now rewrite N.add_0_r].
  - apply not_elem_of_cons in Hn as [He Hn].
    destruct (step_counter acos w e Hw (not_eq_sym He)) as (Hw' & Hc & _).
    destruct (IH _ Hw' Hn) as [Hw'' Hr].
    unfold run in *. cbn [foldl downUpTransitions]. split; [exact Hw''|].
    rewrite Hr, Hc. destruct (phase w && negb (phase (step acos w e))); lia.
Qed.

Lemma wf_run acos es : forall w, wf w -> wf (run acos w es).
Proof.
  intros w Hw. rewrite run_ticks. now apply ticks_sim.
Qed.

Lemma step_completing acos w e :
  wf w -> e <> PressReset ->
  phase w && negb (phase (step acos w e)) = completing acos w e.
Proof.
  intros Hw He. rewrite step_lower.
  destruct e as [lm|dt|]; [| |congruence]; cbn [lower completing].
  - destruct (frameAngles acos lm) as [[[[k h] a] x]|].
    + cbn [ticks foldl].
      destruct (tick_counter w (Angles k h a x) Hw) as [_ ->];
        [discriminate|reflexivity].
    + cbn [ticks foldl]. apply andb_negb_r.
  - cbn [ticks foldl].
    destruct (tick_counter w (Wait dt) Hw) as [_ ->];
      [discriminate|reflexivity].
Qed.

Lemma run_completions acos es : forall w,
  wf w -> PressReset ∉ es ->
  downUpTransitions acos w es = completions acos w es.
Proof.
  induction es as [|e es IH]; intros w Hw Hn; [reflexivity|].
  apply not_elem_of_cons in Hn as [He Hn].
  cbn [downUpTransitions completions].
  rewrite (step_completing acos w e Hw (not_eq_sym He)).
  destruct (step_counter acos w e Hw (not_eq_sym He)) as (Hw' & _).
  now rewrite (IH _ Hw' Hn).
Qed.

(** C4: for every run of frames and elapsed time from the first render, with
    no reset, [squatCounter] is the number of completion transitions: the
    frames with all six landmarks whose knee angle is below 30, arriving
    while DESCENDING; these are exactly the steps at which the phase goes
    from DESCENDING to UP. Every such frame adds one to the counter and ends
    in UP, and every other step leaves the counter alone. *)
Theorem repCount_counts_completed_transitions acos t0 es :
  PressReset ∉ es ->
  squatCounter (run acos (initialWorld t0) es)
  = N.of_nat (completions acos (initialWorld t0) es)
  /\ squatCounter (run acos (initialWorld t0) es)
     = N.of_nat (downUpTransitions acos (initialWorld t0) es)
  /\ forall pre e post, es = pre ++ e :: post ->
      let w := run acos (initialWorld t0) pre in
      let w' := step acos w e in
      (completing acos w e = true ->
         squatCounter w' = (squatCounter w + 1)%N /\
         phase w = true /\ phase w' = false) /\
      (completing acos w e = false -> squatCounter w' = squatCounter w) /\
      (squatCounter w' = squatCounter w \/
       (squatCounter w' = (squatCounter w + 1)%N /\
        phase w = true /\ phase w' = false /\
        exists lm k h a x, e = Frame lm /\
          frameAngles acos lm = Some (k, h, a, x) /\ Js.lt k 30 = true)).
Proof.
  intros Hn.
  destruct (run_counter acos es (initialWorld t0) (wf_initial t0) Hn)
    as [_ Hr].
  split; [|split].
  - rewrite Hr, (run_completions acos es _ (wf_initial t0) Hn). reflexivity.
  - rewrite Hr. reflexivity.
  - intros pre e post -> w w'.
    assert (He : e <> PressReset).
    { intros ->. apply Hn. apply elem_of_app. right. constructor. }
    assert (Hw : wf w) by apply (wf_run acos pre _ (wf_initial t0)).
    destruct (step_counter acos w e Hw He) as (_ & Hc & Hf).
    pose proof (step_completing acos w e Hw He) as Hg.
    fold w' in Hc, Hf, Hg. rewrite Hc.
    destruct (phase w && negb (phase w')) eqn:Hp.
    + apply andb_true_iff in Hp as [Hp1 Hp2].
      apply negb_true_iff in Hp2. rewrite <- Hg.
      split; [now intros _|]. split; [discriminate|].
      right. repeat split; trivial. now apply Hf.
    + rewrite <- Hg, N.add_0_r.
      split; [discriminate|]. split; [reflexivity|now left].
Qed.

(** The count on a short session, with a constant for the math library's
    [acos]: one repetition, one completion, one transition. *)
Lemma repCount_witness :
  squatCounter (run acos_pi (initialWorld someTime) sessionEvents) = 1%N /\
  completions acos_pi (initialWorld someTime) sessionEvents = 1%nat /\
  downUpTransitions acos_pi (initialWorld someTime) sessionEvents = 1%nat.
Proof.
  assert (Hn : PressReset ∉ sessionEvents).
  { unfold sessionEvents. rewrite !elem_of_cons, elem_of_nil.
    intros [H|[H|[H|[H|[H|[H|H]]]]]]; try discriminate; exact H. }
  destruct (repCount_counts_completed_transitions acos_pi someTime
              sessionEvents Hn) as [H _].
  split; [rewrite H|split]; vm_compute; reflexivity.
Defined.

(** *** Completion *)

Lemma completes_tracked k h e x s :
  Js.lt k 30 && descending (Abs.tracked k h e x s)
  = Js.lt k 30 && descending s.
Proof.
  destruct (tracked_keeps k h e x s) as (-> & _).
  destruct (Js.lt k 30) eqn:Hk; [|reflexivity].
  now rewrite (FloatFacts.below_30_not_above_85 k Hk).
Qed.

Lemma tracked_extrema k h e x s :
  descending s = true ->
  maxKneeAngle (Abs.tracked k h e x s) = Js.Math_max (maxKneeAngle s) k /\
  minKneeAngle (Abs.tracked k h e x s) = Js.Math_min (minKneeAngle s) k.
Proof.
  intros Hd. unfold Abs.tracked. rewrite Hd, andb_false_r. cbn zeta.
  rewrite Hd. split; reflexivity.
Qed.

Lemma depthRule_fresh s :
  depthWarningGiven s = false ->
  fst (Abs.depthRule s) = depthWarning (maxKneeAngle s).
Proof.
  intros H. unfold Abs.depthRule, depthWarning. rewrite H. simpl.
  destruct (Js.gt (maxKneeAngle s) 140); [reflexivity|].
  destruct (Js.lt (maxKneeAngle s) 100); reflexivity.
Qed.

Lemma depthWarning_length m : (length (depthWarning m) <= 1)%nat.
Proof.
  unfold depthWarning. destruct (Js.gt m 140); [simpl; lia|].
  destruct (Js.lt m 100); simpl; lia.
Qed.

Lemma body_completion k h e x o :
  Abs.inv o ->
  Js.lt k 30 && descending (o_state o) = true ->
  let o' := Abs.body k h e x o in
  let M := Js.Math_max (maxKneeAngle (o_state o)) k in
  o_counter o' = (o_counter o + 1)%N /\
  showingLastRep (o_display o') = true /\
  d_maxKneeAngle (o_display o') = M /\
  d_minKneeAngle (o_display o')
    = Js.Math_min (minKneeAngle (o_state o)) k /\
  o_timers o' = [(o_next o, (o_now o + 3000)%Z)] /\
  o_now o' = o_now o /\
  (depthWarning M <> [] ->
     o_warnings o' = depthWarning M /\
     lastWarningTime (o_state o') = o_now o) /\
  (depthWarning M = [] ->
     o_warnings o'
       = (if (o_now o - lastWarningTime (o_state o) >? 2000)%Z then []
          else o_warnings o) /\
     lastWarningTime (o_state o') = lastWarningTime (o_state o)).
Proof.
  intros Hi Hc. pose proof (pending_cleared o Hi) as Hp.
  destruct Hi as (Hd & Hf & Hs).
  apply andb_true_iff in Hc as [Hk Hdesc].
  destruct (tracked_extrema k h e x (o_state o) Hdesc) as [Emax Emin].
  destruct (tracked_keeps k h e x (o_state o)) as (T1 & T2 & T3 & T4).
  cbv zeta. unfold Abs.body, Abs.bodySeen. cbv zeta.
  fold (Abs.tracked k h e x (o_state o)).
  rewrite completes_tracked, Hk, Hdesc. cbn [andb].
  set (s2 := Abs.tracked k h e x (o_state o)) in *.
  set (s3 := set_angleDisplayTimer (Some (o_next o)) s2).
  assert (H3 : fst (Abs.depthRule s3) = depthWarning (maxKneeAngle s2)).
  { change (maxKneeAngle s2) with (maxKneeAngle s3).
    apply depthRule_fresh. change (depthWarningGiven s2 = false).
    now rewrite T2. }
  destruct (depthRule_keeps s3) as (D1 & D2 & D3).
  rewrite H3, Emax.
  set (M := Js.Math_max (maxKneeAngle (o_state o)) k).
  rewrite T3, Hp.
  oprojs. cbn [showingLastRep d_maxKneeAngle d_minKneeAngle app].
  repeat split; trivial.
  all: destruct (depthWarning M) as [|m l] eqn:Ew; try congruence;
    cbn [length Nat.ltb Nat.leb Abs.fresh lastWarningTime set_lastWarningTime];
    rewrite ?Z.sub_diag, ?D2; trivial;
    cbn [lastWarningTime s3 set_angleDisplayTimer]; now rewrite ?T4.
Qed.

Lemma body_no_completion k h e x o :
  Js.lt k 30 && descending (o_state o) = false ->
  let o' := Abs.body k h e x o in
  o_counter o' = o_counter o /\
  o_warnings o'
    = (if (o_now o - lastWarningTime (o_state o) >? 2000)%Z then []
       else o_warnings o) /\
  lastWarningTime (o_state o') = lastWarningTime (o_state o) /\
  o_timers o' = o_timers o /\ o_now o' = o_now o /\
  showingLastRep (o_display o') = showingLastRep (o_display o) /\
  minKneeAngle (o_state o') = minKneeAngle (Abs.tracked k h e x (o_state o)).
Proof.
  intros Hc. cbv zeta. unfold Abs.body, Abs.bodySeen. cbv zeta.
  fold (Abs.tracked k h e x (o_state o)).
  destruct (tracked_keeps k h e x (o_state o)) as (T1 & T2 & T3 & T4).
  rewrite completes_tracked, Hc. oprojs. rewrite T4. repeat split.
  destruct (showingLastRep (o_display o)) eqn:E; simpl; congruence.
Qed.

(** *** Claims on reached worlds *)

Lemma depthWarning_cases m :
  (Js.gt m 140 = true /\
     depthWarning m = ["Too deep! Protect your knees"%string]) \/
  (Js.gt m 140 = false /\ Js.lt m 100 = true /\
     depthWarning m = ["Not deep enough! Go deeper"%string]) \/
  (Js.gt m 140 = false /\ Js.lt m 100 = false /\ depthWarning m = []).
Proof.
  unfold depthWarning. destruct (Js.gt m 140); [now left|].
  destruct (Js.lt m 100); [right; left|right; right]; auto.
Qed.

(** C5: on the frame that completes a repetition the depth rule is applied
    to the frozen maximum knee angle [M] (the running maximum with this
    frame folded in): above 140 the warning list becomes the single "too
    deep" warning, else below 100 the single "not deep enough" warning, else
    no warning is emitted (the list is kept, or cleared once 2000 ms old, and
    the last-warning time stays). On any other frame no warning is emitted
    either, so a repetition is warned at most once. *)
Theorem depth_warning_once_per_repetition t0 ts k h e x :
  let w := ticks (initialWorld t0) ts in
  let w' := tick w (Angles k h e x) in
  let M := d_maxKneeAngle (displayAngles w') in
  let unchanged :=
    lastWarningTime (current w') = lastWarningTime (current w) /\
    warningMessages w'
      = (if (now w - lastWarningTime (current w) >? 2000)%Z then []
         else warningMessages w) in
  (completes w (Angles k h e x) = true ->
     squatCounter w' = (squatCounter w + 1)%N /\
     M = Js.Math_max (maxKneeAngle (current w)) k /\
     (Js.gt M 140 = true ->
        warningMessages w' = ["Too deep! Protect your knees"%string]) /\
     (Js.gt M 140 = false -> Js.lt M 100 = true ->
        warningMessages w' = ["Not deep enough! Go deeper"%string]) /\
     (Js.gt M 140 = false -> Js.lt M 100 = false -> unchanged)) /\
  (completes w (Angles k h e x) = false ->
     squatCounter w' = squatCounter w /\ unchanged).
Proof.
  cbv zeta. destruct (reached_ok t0 ts) as [Hw Hi].
  set (w := ticks (initialWorld t0) ts) in *.
  destruct (tick_sim w (Angles k h e x) Hw) as [E _].
  set (w' := tick w (Angles k h e x)) in *. cbn [Abs.tick] in E.
  change (displayAngles w') with (o_display (observe w')).
  change (squatCounter w') with (o_counter (observe w')).
  change (warningMessages w') with (o_warnings (observe w')).
  change (current w') with (o_state (observe w')).
  rewrite E. unfold completes, phase.
  change (current w) with (o_state (observe w)).
  change (squatCounter w) with (o_counter (observe w)).
  change (warningMessages w) with (o_warnings (observe w)).
  change (now w) with (o_now (observe w)).
  split; intros Hc.
  - destruct (body_completion k h e x (observe w) Hi Hc)
      as (C1 & _ & C3 & _ & _ & _ & C7 & C8).
    rewrite C3. split; [exact C1|]. split; [reflexivity|].
    destruct (depthWarning_cases
                (Js.Math_max (maxKneeAngle (o_state (observe w))) k))
      as [[G W]|[(G & L & W)|(G & L & W)]]; rewrite G, ?L.
    + split; [|split; intros; discriminate].
      intros _. rewrite <- W. apply C7. rewrite W. discriminate.
    + split; [discriminate|]. split; [|intros; discriminate].
      intros _ _. rewrite <- W. apply C7. rewrite W. discriminate.
    + split; [discriminate|]. split; [intros; discriminate|].
      intros _ _. destruct (C8 W). now split.
  - destruct (body_no_completion k h e x (observe w) Hc)
      as (N1 & N2 & N3 & _). auto.
Qed.

(** Scenario 2 of the spec: a repetition that reached 150 is warned "too
    deep". *)
Lemma depth_warning_witness :
  warningMessages
    (tick (ticks (initialWorld someTime) [Angles 150 90 90 0.5])
       (Angles 20 90 90 0.5))
  = ["Too deep! Protect your knees"%string].
Proof.
  destruct (depth_warning_once_per_repetition someTime
              [Angles 150 90 90 0.5] 20 90 90 0.5) as [H _].
  destruct (H eq_refl) as (_ & _ & H1 & _).
  apply H1. vm_compute. reflexivity.
Defined.

(** C3, as amended: the warnings emitted when a repetition completes become
    the warning list, whatever was active before, and the last-warning time
    is the current instant. *)
Theorem emitted_warnings_replace_active_list t0 ts k h e x :
  let w := ticks (initialWorld t0) ts in
  let w' := tick w (Angles k h e x) in
  let emitted := depthWarning (d_maxKneeAngle (displayAngles w')) in
  completes w (Angles k h e x) = true ->
  emitted <> [] ->
  warningMessages w' = emitted /\
  length (warningMessages w') = 1%nat /\
  lastWarningTime (current w') = now w' /\
  now w' = now w.
Proof.
  cbv zeta. destruct (reached_ok t0 ts) as [Hw Hi].
  set (w := ticks (initialWorld t0) ts) in *.
  destruct (tick_sim w (Angles k h e x) Hw) as [E _].
  set (w' := tick w (Angles k h e x)) in *. cbn [Abs.tick] in E.
  change (displayAngles w') with (o_display (observe w')).
  change (warningMessages w') with (o_warnings (observe w')).
  change (current w') with (o_state (observe w')).
  change (now w') with (o_now (observe w')).
  rewrite E. unfold completes, phase.
  change (current w) with (o_state (observe w)).
  change (now w) with (o_now (observe w)).
  intros Hc.
  destruct (body_completion k h e x (observe w) Hi Hc)
    as (_ & _ & C3 & _ & _ & C6 & C7 & _).
  rewrite C3. intros Hne. destruct (C7 Hne) as [Hwarn Hstamp].
  rewrite Hwarn, Hstamp, C6. repeat split.
  pose proof (depthWarning_length
                (Js.Math_max (maxKneeAngle (o_state (observe w))) k)).
  destruct (depthWarning _) as [|m [|m' l]]; simpl in *; [congruence|lia|lia].
Qed.

(** The second of two repetitions one second apart: its warning is the
    list, stamped with the clock. *)
Lemma replaced_warnings_witness :
  let w' := tick (ticks (initialWorld someTime) twoReps)
              (Angles 20 90 90 0.5) in
  warningMessages w' = ["Not deep enough! Go deeper"%string] /\
  lastWarningTime (current w') = now w'.
Proof.
  intros w'.
  assert (Hne : depthWarning (d_maxKneeAngle (displayAngles w')) <> [])
    by (vm_compute; discriminate).
  destruct (emitted_warnings_replace_active_list someTime twoReps
              20 90 90 0.5 eq_refl Hne) as (H1 & _ & H3 & _).
  split; [|exact H3]. fold w' in H1. rewrite H1. vm_compute. reflexivity.
Defined.

Lemma counter_mono_tick o t :
  t <> ResetPressed -> (o_counter o <= o_counter (Abs.tick o t))%N.
Proof.
  destruct t as [k h e x|dt|]; [| |congruence]; intros _; cbn [Abs.tick].
  - destruct (body_counter k h e x o) as [B1 B2].
    destruct (Js.lt k 30 && descending (o_state o)).
    + destruct (B1 eq_refl) as [-> _]. lia.
    + destruct (B2 eq_refl) as [-> _]. lia.
  - unfold Abs.elapse. oprojs. lia.
Qed.

Lemma counter_mono ts : forall o,
  ResetPressed ∉ ts -> (o_counter o <= o_counter (foldl Abs.tick o ts))%N.
Proof.
  induction ts as [|t ts IH]; intros o Hn; [simpl; lia|].
  apply not_elem_of_cons in Hn as [Ht Hn]. cbn [foldl].
  pose proof (counter_mono_tick o t (not_eq_sym Ht)).
  pose proof (IH (Abs.tick o t) Hn). lia.
Qed.

Lemma deadline_showing o T :
  Abs.inv o -> Abs.deadline o T ->
  showingLastRep (o_display o) = (o_now o <? T)%Z.
Proof.
  intros (_ & Hf & Hs) [[i Ei]|[En Hle]].
  - rewrite Ei in Hf, Hs. destruct Hs as [-> _].
    inversion Hf as [|? ? [_ Hb] _]; subst. simpl in Hb.
    symmetry. apply Z.ltb_lt. lia.
  - rewrite En in Hs. rewrite Hs. symmetry. apply Z.ltb_ge. exact Hle.
Qed.

Lemma deadline_tick o T t :
  Abs.inv o -> Abs.deadline o T -> t <> ResetPressed ->
  o_counter (Abs.tick o t) = o_counter o ->
  Abs.deadline (Abs.tick o t) T /\
  o_now (Abs.tick o t)
  = (o_now o + match t with Wait dt => Z.of_N dt | _ => 0 end)%Z.
Proof.
  intros Hi Hd Ht Hc. destruct t as [k h e x|dt|]; [| |congruence];
    cbn [Abs.tick] in *.
  - destruct (Js.lt k 30 && descending (o_state o)) eqn:Hk.
    + destruct (body_completion k h e x o Hi Hk) as (C1 & _). lia.
    + destruct (body_no_completion k h e x o Hk)
        as (_ & _ & _ & N4 & N5 & _).
      unfold Abs.deadline. rewrite N4, N5. split; [exact Hd|lia].
  - unfold Abs.elapse, Abs.deadline. oprojs. split; [|reflexivity].
    destruct Hd as [[i Ei]|[En Hle]].
    + rewrite Ei, !filter_cons, !filter_nil. cbn [snd].
      destruct (decide (T <= o_now o + Z.of_N dt)%Z) as [Hle|Hle];
        destruct (decide (~ (T <= o_now o + Z.of_N dt)%Z)) as [Hn'|Hn'];
        try tauto.
      left. now exists i.
    + rewrite En, filter_nil. right. split; [reflexivity|lia].
Qed.

Lemma expiry_countdown ts : forall o T,
  Abs.inv o -> Abs.deadline o T -> ResetPressed ∉ ts ->
  o_counter (foldl Abs.tick o ts) = o_counter o ->
  showingLastRep (o_display (foldl Abs.tick o ts))
  = (o_now o + elapsed ts <? T)%Z.
Proof.
  induction ts as [|t ts IH]; intros o T Hi Hd Hn Hc.
  - cbn. rewrite Z.add_0_r. now apply deadline_showing.
  - apply not_elem_of_cons in Hn as [Ht Hn]. cbn [foldl] in *.
    assert (Hc1 : o_counter (Abs.tick o t) = o_counter o).
    { pose proof (counter_mono_tick o t (not_eq_sym Ht)).
      pose proof (counter_mono ts (Abs.tick o t) Hn). lia. }
    destruct (deadline_tick o T t Hi Hd (not_eq_sym Ht) Hc1) as [Hd1 Hnow].
    rewrite (IH (Abs.tick o t) T (inv_tick o t Hi) Hd1 Hn) by congruence.
    rewrite Hnow. f_equal. unfold elapsed. cbn [foldr].
    fold (elapsed ts). destruct t; lia.
Qed.

Lemma ltb_add_cancel (a b c : Z) : (a + b <? a + c)%Z = (b <? c)%Z.
Proof.
  destruct (Z.ltb_spec (a + b) (a + c)), (Z.ltb_spec b c); trivial; lia.
Qed.

Lemma reached_snoc t0 ts t :
  tick (ticks (initialWorld t0) ts) t = ticks (initialWorld t0) (ts ++ [t]).
Proof. unfold ticks. now rewrite foldl_app. Qed.

Lemma elapse_idle dt w :
  timers w = [] ->
  elapse dt w
  = mkWorld (heap w) (squatState_current w) (squatCounter w) (squatStage w)
      (warningMessages w) (currentAngles w) (displayAngles w) []
      (nextTimer w) (now w + Z.of_N dt).
Proof. intros E. unfold elapse. rewrite E. reflexivity. Qed.

(** *** Handlers of any render *)

Lemma inv_sound o : Abs.inv o -> Abs.sound o.
Proof.
  intros (Hd & Hf & Hs). split; [exact Hd|]. split; [exact Hf|].
  destruct (o_timers o) as [|t [|t' l]]; [exact Hs| |exact Hs].
  now destruct Hs.
Qed.

Lemma pending_cleared_sound o :
  Abs.sound o ->
  match angleDisplayTimer (o_state o) with
  | Some id => filter (fun t : TimerId * Z => fst t <> id) (o_timers o)
  | None => o_timers o
  end = [].
Proof.
  intros (_ & _ & Hs).
  destruct (o_timers o) as [|t [|t' l]]; [| |contradiction].
  - now destruct (angleDisplayTimer (o_state o)).
  - rewrite Hs, filter_cons, filter_nil.
    destruct (decide (fst t <> fst t)); congruence.
Qed.

(** The frame that completes a repetition, whatever its render has seen:
    the snapshot is shown and its one expiry is pending. *)
Lemma bodySeen_completion seen k h e x o :
  Abs.sound o ->
  Js.lt k 30 && descending (o_state o) = true ->
  let o' := Abs.bodySeen seen k h e x o in
  Abs.inv o' /\
  o_counter o' = (o_counter o + 1)%N /\
  showingLastRep (o_display o') = true /\
  o_timers o' = [(o_next o, (o_now o + 3000)%Z)] /\
  o_now o' = o_now o.
Proof.
  intros Hi Hc. pose proof (pending_cleared_sound o Hi) as Hp.
  destruct Hi as (Hd & Hf & Hs).
  destruct (tracked_keeps k h e x (o_state o)) as (T1 & T2 & T3 & T4).
  cbv zeta. unfold Abs.bodySeen. cbv zeta.
  fold (Abs.tracked k h e x (o_state o)).
  rewrite completes_tracked, Hc.
  set (s3 := set_angleDisplayTimer _ _).
  rewrite T3, Hp. unfold Abs.inv. oprojs. cbn [app showingLastRep].
  destruct (depthRule_keeps s3) as (D1 & _).
  repeat split.
  - constructor; [|constructor]. simpl. lia.
  - destruct (0 <? length (fst (Abs.depthRule s3)))%nat; simpl;
      rewrite D1; reflexivity.
Qed.

(** Any other frame: the counter, the pending expiry and the clock stay,
    and the snapshot flag can only go down. *)
Lemma bodySeen_no_completion seen k h e x o :
  Js.lt k 30 && descending (o_state o) = false ->
  let o' := Abs.bodySeen seen k h e x o in
  o_counter o' = o_counter o /\
  o_timers o' = o_timers o /\ o_now o' = o_now o /\
  o_next o' = o_next o /\
  depthWarningGiven (o_state o') = depthWarningGiven (o_state o) /\
  angleDisplayTimer (o_state o') = angleDisplayTimer (o_state o) /\
  o_display o'
  = (if negb seen
     then mkDisplayAngles k h e (minKneeAngle (o_state o))
            (minHipAngle (o_state o)) (maxKneeAngle (o_state o))
            (maxHipAngle (o_state o)) (maxHeelAngle (o_state o)) false 0
            (minHipAnkleDiff (o_state o))
     else o_display o).
Proof.
  intros Hc. cbv zeta. unfold Abs.bodySeen. cbv zeta.
  fold (Abs.tracked k h e x (o_state o)).
  destruct (tracked_keeps k h e x (o_state o)) as (T1 & T2 & T3 & T4).
  rewrite completes_tracked, Hc. oprojs. rewrite T2, T3. repeat split.
Qed.

Lemma sound_bodySeen seen k h e x o :
  Abs.sound o -> Abs.sound (Abs.bodySeen seen k h e x o).
Proof.
  intros Hi.
  destruct (Js.lt k 30 && descending (o_state o)) eqn:Hc.
  - now apply inv_sound, bodySeen_completion.
  - destruct (bodySeen_no_completion seen k h e x o Hc)
      as (_ & N2 & N3 & N4 & N5 & N6 & N7).
    destruct Hi as (Hd & Hf & Hs). unfold Abs.sound.
    rewrite N2, N3, N4, N5, N6, N7. split; [exact Hd|]. split; [exact Hf|].
    destruct (o_timers o) as [|t [|t' l]]; [|exact Hs|exact Hs].
    destruct seen; [exact Hs|reflexivity].
Qed.

Lemma sound_elapse dt o : Abs.sound o -> Abs.sound (Abs.elapse dt o).
Proof.
  intros (Hd & Hf & Hs). unfold Abs.elapse, Abs.sound. cbv zeta. oprojs.
  split; [exact Hd|].
  destruct (o_timers o) as [|t [|t' l]]; [| |contradiction].
  - rewrite !filter_nil. repeat split; [constructor|exact Hs].
  - rewrite !filter_cons, !filter_nil. inversion Hf as [|? ? [Hn Hb] _]; subst.
    destruct (decide (snd t <= o_now o + Z.of_N dt)%Z) as [Hle|Hle];
      destruct (decide (~ (snd t <= o_now o + Z.of_N dt)%Z)) as [Hn'|Hn'];
      try tauto.
    + split; [constructor|]. now destruct (o_display o).
    + split; [|exact Hs]. constructor; [|constructor]. split; [exact Hn|]. lia.
Qed.

Lemma sound_reset o : Abs.sound o -> Abs.sound (Abs.reset o).
Proof.
  intros Hi. pose proof (pending_cleared_sound o Hi) as Hp.
  destruct Hi as (Hd & Hf & Hs). unfold Abs.reset, Abs.sound. oprojs.
  rewrite Hp. repeat split. constructor.
Qed.

Lemma sound_tickSeen o st : Abs.sound o -> Abs.sound (Abs.tickSeen o st).
Proof.
  destruct st as [seen [k h e x|dt|]]; unfold Abs.tickSeen; cbn [fst snd];
    [apply sound_bodySeen|apply sound_elapse|apply sound_reset].
Qed.

(** Every world reached from the first render, whichever render each
    handler belonged to, is well-formed and its observation is sound. *)
Lemma reachedSeen_ok t0 sts :
  let w := ticksSeen (initialWorld t0) sts in wf w /\ Abs.sound (observe w).
Proof.
  cbv zeta. unfold ticksSeen.
  induction sts as [|st sts IH] using rev_ind.
  - split; [apply wf_initial|apply inv_sound, inv_initial].
  - rewrite foldl_app. cbn [foldl]. destruct IH as [Hw Hi].
    destruct (tickSeen_sim _ st Hw) as [E Hw']. split; [exact Hw'|].
    rewrite E. now apply sound_tickSeen.
Qed.

Lemma counterSeen_mono_tick o st :
  snd st <> ResetPressed ->
  (o_counter o <= o_counter (Abs.tickSeen o st))%N.
Proof.
  destruct st as [seen [k h e x|dt|]]; cbn [snd]; [| |congruence]; intros _;
    unfold Abs.tickSeen; cbn [fst snd].
  - destruct (Js.lt k 30 && descending (o_state o)) eqn:Hc.
    + unfold Abs.bodySeen. cbv zeta.
      fold (Abs.tracked k h e x (o_state o)).
      rewrite completes_tracked, Hc. oprojs. lia.
    + destruct (bodySeen_no_completion seen k h e x o Hc) as (-> & _). lia.
  - unfold Abs.elapse. oprojs. lia.
Qed.

Lemma counterSeen_mono sts : forall o,
  ResetPressed ∉ map snd sts ->
  (o_counter o <= o_counter (foldl Abs.tickSeen o sts))%N.
Proof.
  induction sts as [|st sts IH]; intros o Hn; [simpl; lia|].
  cbn [map] in Hn. apply not_elem_of_cons in Hn as [Ht Hn]. cbn [foldl].
  pose proof (counterSeen_mono_tick o st (not_eq_sym Ht)).
  pose proof (IH (Abs.tickSeen o st) Hn). lia.
Qed.

Lemma deadlineSeen_tick o T st :
  Abs.sound o -> Abs.deadline o T -> snd st <> ResetPressed ->
  o_counter (Abs.tickSeen o st) = o_counter o ->
  Abs.deadline (Abs.tickSeen o st) T /\
  o_now (Abs.tickSeen o st)
  = (o_now o + match snd st with Wait dt => Z.of_N dt | _ => 0 end)%Z.
Proof.
  intros Hi Hd Ht Hc. destruct st as [seen [k h e x|dt|]]; cbn [snd] in *;
    [| |congruence]; unfold Abs.tickSeen in *; cbn [fst snd] in *.
  - destruct (Js.lt k 30 && descending (o_state o)) eqn:Hk.
    + destruct (bodySeen_completion seen k h e x o Hi Hk) as (_ & C1 & _).
      lia.
    + destruct (bodySeen_no_completion seen k h e x o Hk)
        as (_ & N2 & N3 & _).
      unfold Abs.deadline. rewrite N2, N3. split; [exact Hd|lia].
  - unfold Abs.elapse, Abs.deadline. oprojs. split; [|reflexivity].
    destruct Hd as [[i Ei]|[En Hle]].
    + rewrite Ei, !filter_cons, !filter_nil. cbn [snd].
      destruct (decide (T <= o_now o + Z.of_N dt)%Z) as [Hle|Hle];
        destruct (decide (~ (T <= o_now o + Z.of_N dt)%Z)) as [Hn'|Hn'];
        try tauto.
      left. now exists i.
    + rewrite En, filter_nil. right. split; [reflexivity|lia].
Qed.

(** Once the due time of the expiry has come, the snapshot is no longer
    shown, whichever renders took the frames in between. *)
Lemma expirySeen sts : forall o T,
  Abs.sound o -> Abs.deadline o T -> ResetPressed ∉ map snd sts ->
  o_counter (foldl Abs.tickSeen o sts) = o_counter o ->
  (T <= o_now o + elapsed (map snd sts))%Z ->
  showingLastRep (o_display (foldl Abs.tickSeen o sts)) = false /\
  o_timers (foldl Abs.tickSeen o sts) = [].
Proof.
  induction sts as [|st sts IH]; intros o T Hi Hd Hn Hc Hle.
  - cbn in *. rewrite Z.add_0_r in Hle.
    destruct Hi as (_ & Hf & Hs). destruct Hd as [[i Ei]|[En _]].
    + rewrite Ei in Hf. inversion Hf as [|? ? [_ Hb] _]; subst.
      simpl in Hb. lia.
    + rewrite En in Hs. now split.
  - cbn [map] in Hn. apply not_elem_of_cons in Hn as [Ht Hn].
    cbn [foldl map] in *.
    assert (Hc1 : o_counter (Abs.tickSeen o st) = o_counter o).
    { pose proof (counterSeen_mono_tick o st (not_eq_sym Ht)).
      pose proof (counterSeen_mono sts (Abs.tickSeen o st) Hn). lia. }
    destruct (deadlineSeen_tick o T st Hi Hd (not_eq_sym Ht) Hc1)
      as [Hd1 Hnow].
    apply (IH (Abs.tickSeen o st) T (sound_tickSeen o st Hi) Hd1 Hn);
      [congruence|].
    rewrite Hnow. unfold elapsed in *. cbn [foldr] in Hle.
    destruct (snd st); lia.
Qed.

(** Frames taken by the latest render are the frames of [tick]. *)
Lemma latest_tick w seen t :
  match t with
  | Angles _ _ _ _ => seen = showingLastRep (displayAngles w)
  | _ => True
  end ->
  tickSeen w (seen, t) = tick w t.
Proof. destruct t; [intros ->|intros _..]; reflexivity. Qed.

Lemma latest_ticks sts : forall w,
  latestRender w sts -> ticksSeen w sts = ticks w (map snd sts).
Proof.
  induction sts as [|[seen t] sts IH]; intros w L; [reflexivity|].
  destruct L as [Lh L]. cbn [fst snd] in Lh.
  unfold ticksSeen, ticks in *. cbn [foldl map snd].
  rewrite <- (latest_tick w seen t Lh). now apply IH.
Qed.

(** C7: at most one snapshot expiry is pending at any time, whichever
    render each frame handler belonged to; the frame that completes a
    repetition leaves [showingLastRep] true and exactly one expiry pending,
    due 3000 ms later; with no reset and no further repetition, the flag is
    false once 3000 ms have passed and no expiry is pending then, and when
    every frame in between is taken by the handler of the latest render the
    flag is true as long as less than 3000 ms have passed; after a reset no
    expiry is pending, the flag is false, and letting time pass changes
    nothing. *)
Theorem last_rep_snapshot_expiry t0 sts :
  let w := ticksSeen (initialWorld t0) sts in
  (length (timers w) <= 1)%nat /\
  (forall seen k h e x,
     completes w (Angles k h e x) = true ->
     let w' := tickSeen w (seen, Angles k h e x) in
     showingLastRep (displayAngles w') = true /\
     map due (timers w') = [(now w' + 3000)%Z] /\
     forall sts',
       ResetPressed ∉ map snd sts' ->
       squatCounter (ticksSeen w' sts') = squatCounter w' ->
       ((3000 <= elapsed (map snd sts'))%Z ->
        showingLastRep (displayAngles (ticksSeen w' sts')) = false /\
        timers (ticksSeen w' sts') = []) /\
       (latestRender w' sts' ->
        showingLastRep (displayAngles (ticksSeen w' sts'))
        = (elapsed (map snd sts') <? 3000)%Z)) /\
  (let r := resetCounter w in
   timers r = [] /\
   showingLastRep (displayAngles r) = false /\
   forall dt,
     timers (elapse dt r) = [] /\
     displayAngles (elapse dt r) = displayAngles r /\
     squatCounter (elapse dt r) = 0%N /\
     current (elapse dt r) = current r).
Proof.
  intros w. destruct (reachedSeen_ok t0 sts) as [Hw Hi]. fold w in Hw, Hi.
  split; [|split].
  - destruct Hi as (_ & _ & Hs). cbn [observe o_timers] in Hs.
    destruct (timers w) as [|a [|b l]]; simpl in *; [lia|lia|contradiction].
  - intros seen k h e x Hc w'.
    destruct (tickSeen_sim w (seen, Angles k h e x) Hw) as [E Hw'].
    fold w' in E, Hw'. unfold Abs.tickSeen in E. cbn [fst snd] in E.
    unfold completes in Hc. rewrite phase_observed in Hc.
    destruct (bodySeen_completion seen k h e x (observe w) Hi Hc)
      as (Hi' & _ & C3 & C4 & C5).
    rewrite <- E in Hi', C3, C4, C5.
    assert (Hdue : map due (timers w') = [(now w' + 3000)%Z]).
    { rewrite dues_observed, now_observed, C4, C5. reflexivity. }
    split; [exact C3|]. split; [exact Hdue|].
    intros sts' Hn Hcnt.
    assert (Hd : Abs.deadline (observe w') (now w' + 3000)%Z).
    { left. exists (o_next (observe w)). rewrite C4, now_observed, C5.
      reflexivity. }
    split.
    + intros Hle. destruct (ticksSeen_sim sts' w' Hw') as [E' _].
      rewrite !squatCounter_observed, E' in Hcnt.
      rewrite displayAngles_observed, E'.
      destruct (expirySeen sts' (observe w') (now w' + 3000)%Z
                  (inv_sound _ Hi') Hd Hn Hcnt) as [F1 F2].
      { rewrite <- now_observed. lia. }
      split; [exact F1|].
      apply (f_equal o_timers) in E'. rewrite F2 in E'.
      cbn [observe o_timers] in E'. now apply map_eq_nil in E'.
    + intros L. rewrite (latest_ticks sts' w' L) in *.
      destruct (ticks_sim (map snd sts') w' Hw') as [E'' _].
      rewrite !squatCounter_observed, E'' in Hcnt.
      rewrite displayAngles_observed, E''.
      rewrite (expiry_countdown (map snd sts') (observe w')
                 (now w' + 3000)%Z Hi' Hd Hn Hcnt).
      rewrite <- now_observed. apply ltb_add_cancel.
  - destruct (reset_sim w Hw) as [E _].
    set (r := resetCounter w) in *.
    assert (Ht : timers r = []).
    { pose proof (f_equal o_timers E) as Et.
      unfold Abs.reset in Et. cbn [o_timers] in Et.
      rewrite (pending_cleared_sound (observe w) Hi) in Et.
      now apply map_eq_nil in Et. }
    split; [exact Ht|]. split.
    + apply (f_equal (fun o => showingLastRep (o_display o))) in E.
      exact E.
    + intros dt. rewrite (elapse_idle dt r Ht). projs. unfold current, obj.
      projs. repeat split.
      apply (f_equal o_counter) in E. exact E.
Qed.

(** Scenario 5 of the spec, every frame taken by the latest render: the
    flag is true right after the repetition, still true 2999 ms later,
    false 3000 ms later. A frame taken by a render that has not seen the
    snapshot clears the flag at once, with the expiry still pending. *)
Lemma snapshot_expiry_witness :
  let w' := tickSeen (ticksSeen (initialWorld someTime)
                        [(false, Angles 90 90 90 0.5)])
              (true, Angles 20 90 90 0.5) in
  showingLastRep (displayAngles w') = true /\
  showingLastRep (displayAngles (ticksSeen w' [(true, Wait 2999)])) = true /\
  showingLastRep
    (displayAngles
       (ticksSeen w' [(true, Wait 2999); (true, Angles 20 90 90 0.5);
                      (false, Wait 1)]))
  = false /\
  showingLastRep
    (displayAngles (ticksSeen w' [(false, Angles 20 90 90 0.5)])) = false /\
  length (timers (ticksSeen w' [(false, Angles 20 90 90 0.5)])) = 1%nat.
Proof.
  intros w'.
  destruct (last_rep_snapshot_expiry someTime [(false, Angles 90 90 90 0.5)])
    as (_ & H & _).
  destruct (H true 20 90 90 0.5 eq_refl) as (H1 & _ & H3).
  fold w' in H1, H3.
  split; [exact H1|]. split; [|split; [|split]].
  - apply (H3 [(true, Wait 2999)]); [|vm_compute; reflexivity|].
    + cbn [map snd]. rewrite elem_of_cons, elem_of_nil.
      intros [C|C]; [discriminate|exact C].
    + cbn. auto.
  - apply (H3 [(true, Wait 2999); (true, Angles 20 90 90 0.5);
               (false, Wait 1)]); [|vm_compute; reflexivity|].
    + cbn [map snd]. rewrite !elem_of_cons, elem_of_nil.
      intros [C|[C|[C|C]]]; try discriminate; exact C.
    + vm_compute. lia.
  - vm_compute. reflexivity.
  - vm_compute. reflexivity.
Defined.

Lemma reset_reset o : Abs.reset (Abs.reset o) = Abs.reset o.
Proof. reflexivity. Qed.

Lemma resetCounter_twice w :
  wf w -> observe (resetCounter (resetCounter w)) = observe (resetCounter w).
Proof.
  intros Hw. destruct (reset_sim w Hw) as [E Hw'].
  destruct (reset_sim _ Hw') as [E' _]. now rewrite E', E, reset_reset.
Qed.

(** C9: in every world reached from the first render, resetting twice is
    observed as resetting once: same object behind the ref (extrema, flags,
    timer handle), same counter, stage, warnings, angles and display
    snapshot, same pending timers. *)
Theorem resetCounter_idempotent t0 ts :
  let w := ticks (initialWorld t0) ts in
  observe (resetCounter (resetCounter w)) = observe (resetCounter w).
Proof. cbv zeta. apply resetCounter_twice, reached_ok. Qed.

(** *** The running minimum *)

Lemma tracked_min_number k h e x s :
  is_nan k = false -> is_nan (minKneeAngle s) = false ->
  is_nan (minKneeAngle (Abs.tracked k h e x s)) = false.
Proof.
  intros Hk Hs. unfold Abs.tracked, Abs.track, Abs.startDescent.
  destruct (Js.gt k 85 && negb (descending s)); cbn.
  - now apply FloatFacts.Math_min_not_nan.
  - destruct (descending s); cbn; [|exact Hs].
    now apply FloatFacts.Math_min_not_nan.
Qed.

Lemma min_number_tick o t :
  match t with Angles k _ _ _ => is_nan k = false | _ => True end ->
  is_nan (minKneeAngle (o_state o)) = false ->
  is_nan (minKneeAngle (o_state (Abs.tick o t))) = false.
Proof.
  intros Ht Ho. destruct t as [k h e x|dt|]; cbn [Abs.tick].
  - destruct (Js.lt k 30 && descending (o_state o)) eqn:Hc.
    + unfold Abs.body, Abs.bodySeen. cbv zeta.
      fold (Abs.tracked k h e x (o_state o)).
      rewrite completes_tracked, Hc. reflexivity.
    + destruct (body_no_completion k h e x o Hc)
        as (_ & _ & _ & _ & _ & _ & ->).
      now apply tracked_min_number.
  - exact Ho.
  - reflexivity.
Qed.

Lemma min_number ts : forall o,
  numericKnees ts -> is_nan (minKneeAngle (o_state o)) = false ->
  is_nan (minKneeAngle (o_state (foldl Abs.tick o ts))) = false.
Proof.
  induction ts as [|t ts IH]; intros o Hn Ho; [exact Ho|].
  inversion Hn as [|? ? Ht Hn']; subst. cbn [foldl].
  apply IH; [exact Hn'|]. now apply min_number_tick.
Qed.

(** With numbers for knee angles, the snapshot minimum of every completed
    repetition is below 30. *)
Lemma snapshot_min_below_30_for_numeric_knees t0 ts k h e x :
  let w := ticks (initialWorld t0) ts in
  let w' := tick w (Angles k h e x) in
  numericKnees ts ->
  completes w (Angles k h e x) = true ->
  Js.lt (d_minKneeAngle (displayAngles w')) 30 = true.
Proof.
  cbv zeta. intros Hn Hc. destruct (reached_ok t0 ts) as [Hw Hi].
  destruct (ticks_sim ts (initialWorld t0) (wf_initial t0)) as [Et _].
  set (w := ticks (initialWorld t0) ts) in *.
  destruct (tick_sim w (Angles k h e x) Hw) as [E _].
  change (displayAngles (tick w (Angles k h e x)))
    with (o_display (observe (tick w (Angles k h e x)))).
  rewrite E. cbn [Abs.tick].
  destruct (body_completion k h e x (observe w) Hi Hc)
    as (_ & _ & _ & -> & _).
  apply andb_true_iff in Hc as [Hk _].
  apply FloatFacts.Math_min_below; [|exact Hk].
  rewrite Et. apply min_number; [exact Hn|reflexivity].
Qed.

(** *** Frames *)

Lemma calculateAngle_clamped acos a b c :
  calculateAngle acos a b c
  = Js.Math_round
      (180 - Js.Math_acos acos (clampedCosTheta a b c) * 180 / Js.Math_PI).
Proof. reflexivity. Qed.

Lemma foldedLeg_knee acos :
  calculateAngle acos (0.5, 0.25) (0.5, 0.75) (0.5, 0.5) = 180.
Proof.
  rewrite calculateAngle_clamped.
  replace (clampedCosTheta (0.5, 0.25) (0.5, 0.75) (0.5, 0.5)) with 1
    by (vm_compute; reflexivity).
  reflexivity.
Qed.

Lemma hipOnKnee_knee acos :
  calculateAngle acos (0.5, 0.5) (0.5, 0.5) (0.5, 0.75) = nan.
Proof.
  rewrite calculateAngle_clamped.
  replace (clampedCosTheta (0.5, 0.5) (0.5, 0.5) (0.5, 0.75)) with nan
    by (vm_compute; reflexivity).
  reflexivity.
Qed.

Lemma straightLeg_knee acos :
  acos (-1) = Js.Math_PI ->
  calculateAngle acos (0.5, 0.25) (0.5, 0.5) (0.5, 0.75) = 0.
Proof.
  intros H. rewrite calculateAngle_clamped.
  replace (clampedCosTheta (0.5, 0.25) (0.5, 0.5) (0.5, 0.75)) with (-1)
    by (vm_compute; reflexivity).
  change (Js.Math_acos acos (-1)) with (acos (-1)). rewrite H.
  vm_compute; reflexivity.
Qed.

Lemma right_angle_double acos :
  acos 0 = half_pi -> calculateAngle acos (0, 0) (1, 0) (1, 1) = 90.
Proof.
  intros H. rewrite calculateAngle_clamped.
  replace (clampedCosTheta (0, 0) (1, 0) (1, 1)) with 0
    by (vm_compute; reflexivity).
  change (Js.Math_acos acos 0) with (acos 0). rewrite H.
  vm_compute; reflexivity.
Qed.

Lemma foldedLeg_angles acos :
  frameAngles acos foldedLeg
  = Some (calculateAngle acos (0.5, 0.25) (0.5, 0.75) (0.5, 0.5),
          calculateAngle acos (0.5, 0) (0.5, 0.25) (0.5, 0.75),
          calculateAngle acos (0.75, 0.5) (0.5, 0.5) (0.5, 0.75),
          0.5).
Proof. reflexivity. Qed.

Lemma hipOnKnee_angles acos :
  frameAngles acos hipOnKnee
  = Some (calculateAngle acos (0.5, 0.5) (0.5, 0.5) (0.5, 0.75),
          calculateAngle acos (0.5, 0) (0.5, 0.5) (0.5, 0.5),
          calculateAngle acos (0.75, 0.75) (0.5, 0.75) (0.5, 0.5),
          0.5).
Proof. reflexivity. Qed.

Lemma straightLeg_angles acos :
  frameAngles acos straightLeg
  = Some (calculateAngle acos (0.5, 0.25) (0.5, 0.5) (0.5, 0.75),
          calculateAngle acos (0.5, 0) (0.5, 0.25) (0.5, 0.5),
          calculateAngle acos (0.75, 0.75) (0.5, 0.75) (0.5, 0.5),
          0.5).
Proof. reflexivity. Qed.

Lemma frames_lower acos :
  exists h1 e1 h2 e2 h3 e3 k3,
    k3 = calculateAngle acos (0.5, 0.25) (0.5, 0.5) (0.5, 0.75) /\
    concat (map (lower acos)
              [Frame foldedLeg; Frame hipOnKnee; Frame straightLeg])
    = [Angles 180 h1 e1 0.5; Angles nan h2 e2 0.5; Angles k3 h3 e3 0.5].
Proof.
  do 7 eexists. split; [reflexivity|].
  cbn [map concat lower app].
  rewrite foldedLeg_angles, hipOnKnee_angles, straightLeg_angles.
  cbn [app]. rewrite foldedLeg_knee, hipOnKnee_knee. reflexivity.
Qed.

Lemma ticks_observed t0 ts :
  observe (ticks (initialWorld t0) ts)
  = foldl Abs.tick (observe (initialWorld t0)) ts.
Proof. apply ticks_sim, wf_initial. Qed.

Lemma nan_knee_poisons_minimum t0 h1 e1 x1 h2 e2 x2 h3 e3 x3 :
  let w := ticks (initialWorld t0)
             [Angles 180 h1 e1 x1; Angles nan h2 e2 x2; Angles 0 h3 e3 x3] in
  squatCounter w = 1%N /\
  showingLastRep (displayAngles w) = true /\
  is_nan (d_minKneeAngle (displayAngles w)) = true /\
  Js.lt (d_minKneeAngle (displayAngles w)) 30 = false.
Proof.
  intros w. subst w.
  rewrite squatCounter_observed, displayAngles_observed, ticks_observed.
  repeat split.
Qed.

(** C10, at the failing input: a folded leg (knee angle 180), then a frame
    whose hip and knee landmarks coincide (knee angle NaN), then a straight
    leg (knee angle 0) complete one repetition whose frozen minimum knee
    angle is NaN, hence not below 30. The math library need only give pi for
    the inverse cosine of -1. *)
Theorem nan_frame_poisons_snapshot_minimum acos t0 :
  acos (-1) = Js.Math_PI ->
  let w := run acos (initialWorld t0)
             [Frame foldedLeg; Frame hipOnKnee; Frame straightLeg] in
  squatCounter w = 1%N /\
  showingLastRep (displayAngles w) = true /\
  is_nan (d_minKneeAngle (displayAngles w)) = true /\
  Js.lt (d_minKneeAngle (displayAngles w)) 30 = false.
Proof.
  intros H w. subst w. rewrite run_ticks.
  destruct (frames_lower acos)
    as (h1 & e1 & h2 & e2 & h3 & e3 & k3 & Hk & ->).
  rewrite (straightLeg_knee acos H) in Hk. subst k3.
  apply nan_knee_poisons_minimum.
Qed.

(** The same frames with a constant for the math library's [acos]. *)
Lemma nan_frame_witness :
  let w := run acos_pi (initialWorld someTime)
             [Frame foldedLeg; Frame hipOnKnee; Frame straightLeg] in
  squatCounter w = 1%N /\
  showingLastRep (displayAngles w) = true /\
  is_nan (d_minKneeAngle (displayAngles w)) = true /\
  Js.lt (d_minKneeAngle (displayAngles w)) 30 = false.
Proof.
  apply (nan_frame_poisons_snapshot_minimum acos_pi someTime). reflexivity.
Defined.

(** *** Scenario 1 *)

(** C1, as amended: on the knee angles 170, 120, 90, 70, 50, 20 with hip and
    heel at 90, the phase is DESCENDING from the first frame (170 exceeds
    85) through the 50 frame and UP after the 20 frame; the counter is 0
    until then and 1 after; the snapshot is showing, with maximum knee angle
    170 and minimum 20. *)
Theorem scenario1_on_the_code t0 x1 x2 x3 x4 x5 x6 d1 d2 d3 d4 d5 :
  let ts := scenario1 x1 x2 x3 x4 x5 x6 d1 d2 d3 d4 d5 in
  let after n := ticks (initialWorld t0) (take n ts) in
  phase (after 1%nat) = true /\
  phase (after 3%nat) = true /\
  phase (after 5%nat) = true /\
  phase (after 7%nat) = true /\
  phase (after 9%nat) = true /\
  phase (after 11%nat) = false /\
  squatCounter (after 9%nat) = 0%N /\
  squatCounter (after 11%nat) = 1%N /\
  showingLastRep (displayAngles (after 11%nat)) = true /\
  d_maxKneeAngle (displayAngles (after 11%nat)) = 170 /\
  d_minKneeAngle (displayAngles (after 11%nat)) = 20.
Proof.
  intros ts after. subst ts after. unfold scenario1. cbn [take].
  rewrite !phase_observed, !squatCounter_observed, !displayAngles_observed,
    !ticks_observed.
  repeat split.
Qed.

(** C1 as stated, refuted: the phase is already DESCENDING after the first
    frame. *)
Lemma scenario1_as_stated_fails :
  let ts := scenario1 0.5 0.5 0.5 0.5 0.5 0.5 33 33 33 33 33 in
  let after n := ticks (initialWorld someTime) (take n ts) in
  ~ (phase (after 1%nat) = false /\
     phase (after 3%nat) = false /\
     phase (after 5%nat) = true /\
     phase (after 9%nat) = true /\
     phase (after 11%nat) = false /\
     squatCounter (after 11%nat) = 1%N /\
     d_maxKneeAngle (displayAngles (after 11%nat)) = 90).
Proof.
  intros ts after (H & _). vm_compute in H. discriminate.
Qed.

(** C3 as stated, refuted: a second repetition completed 1000 ms after the
    first drops the first one's warning, which was still active. *)
Lemma appended_warnings_counterexample :
  let w := ticks (initialWorld someTime) twoReps in
  let w' := tick w (Angles 20 90 90 0.5) in
  completes w (Angles 20 90 90 0.5) = true /\
  warningMessages w = ["Too deep! Protect your knees"%string] /\
  warningMessages w' = ["Not deep enough! Go deeper"%string] /\
  ~ (forall m, In m (warningMessages w) -> In m (warningMessages w')).
Proof.
  intros w w'.
  assert (E1 : warningMessages w = ["Too deep! Protect your knees"%string])
    by (vm_compute; reflexivity).
  assert (E2 : warningMessages w' = ["Not deep enough! Go deeper"%string])
    by (vm_compute; reflexivity).
  split; [vm_compute; reflexivity|]. split; [exact E1|]. split; [exact E2|].
  rewrite E1, E2. intros H.
  destruct (H _ (or_introl eq_refl)) as [C|C]; [discriminate|destruct C].
Qed.

(** *** Missing landmarks *)

(** C6: a frame in which one of the six landmarks is absent computes no
    angle and leaves the world as it is, wherever in a run it comes. *)
Theorem missing_landmark_frame_is_skipped acos landmarks :
  landmarkAt landmarks LANDMARK_INDICES.RIGHT_SHOULDER = None \/
  landmarkAt landmarks LANDMARK_INDICES.RIGHT_HIP = None \/
  landmarkAt landmarks LANDMARK_INDICES.RIGHT_KNEE = None \/
  landmarkAt landmarks LANDMARK_INDICES.RIGHT_ANKLE = None \/
  landmarkAt landmarks LANDMARK_INDICES.RIGHT_HEEL = None \/
  landmarkAt landmarks LANDMARK_INDICES.RIGHT_FOOT_INDEX = None ->
  frameAngles acos landmarks = None /\
  (forall w, handleLandmark acos landmarks w = w) /\
  (forall w pre post,
     run acos w (pre ++ Frame landmarks :: post) = run acos w (pre ++ post)).
Proof.
  intros H.
  assert (Hf : frameAngles acos landmarks = None).
  { unfold frameAngles.
    destruct H as [ -> | [ -> | [ -> | [ -> | [ -> | -> ] ] ] ] ];
      repeat match goal with
             | |- context [match ?o with Some _ => _ | None => _ end] =>
                 destruct o
             end; reflexivity. }
  assert (Hs : forall w, handleLandmark acos landmarks w = w).
  { intros w. change (step acos w (Frame landmarks) = w).
    rewrite step_lower. cbn [lower]. now rewrite Hf. }
  split; [exact Hf|]. split; [exact Hs|].
  intros w pre post. unfold run. rewrite !foldl_app. cbn [foldl step].
  now rewrite Hs.
Qed.

Lemma missing_landmark_witness :
  frameAngles acos_pi kneeMissing = None /\
  (forall w, handleLandmark acos_pi kneeMissing w = w) /\
  (forall w pre post,
     run acos_pi w (pre ++ Frame kneeMissing :: post)
     = run acos_pi w (pre ++ post)).
Proof.
  apply (missing_landmark_frame_is_skipped acos_pi kneeMissing).
  right. right. left. reflexivity.
Defined.

(** *** Degenerate and right angles *)

(** C2, on the code: when [a] or [c] coincides with the vertex [b], the
    result of [calculateAngle] is NaN, whatever the other point and the math
    library. *)
Theorem coincident_points_give_NaN acos (p q : Vec2) :
  is_nan (calculateAngle acos p p q) = true /\
  is_nan (calculateAngle acos q p p) = true.
Proof.
  split; [apply Degenerate.coincident_first|apply Degenerate.coincident_last].
Qed.

(** ** The angle of short arms *)

(** C8, on the code: with [b] distinct from [a] and from [c], arms whose
    squared length underflows break the result. For a = (1e-200, 0),
    b = (0, 0), c = (0, 1e-200), a right angle, the lengths are computed as
    zero and the result is NaN, as for coincident points; for
    a = (2^-537, 0), b = (0, 0), c = (2^-537, 2^-537), where the interior
    angle is 45 degrees and the exterior angle 135, the result is 180.
    Both hold whatever the math library. *)
Theorem short_arms_break_the_angle acos :
  ((0, 0) <> (tiny, 0) /\ (0, 0) <> (0, tiny) /\
   is_nan (calculateAngle acos (tiny, 0) (0, 0) (0, tiny)) = true) /\
  ((0, 0) <> (short, 0) /\ (0, 0) <> (short, short) /\
   calculateAngle acos (short, 0) (0, 0) (short, short) = 180).
Proof.
  assert (Hz : forall x : float, is_zero x = false -> 0 <> x).
  { intros x Hx E. rewrite <- E in Hx. vm_compute in Hx. discriminate. }
  assert (Ht : 0 <> tiny) by (apply Hz; vm_compute; reflexivity).
  assert (Hs : 0 <> short) by (apply Hz; vm_compute; reflexivity).
  split; split.
  - intros E. apply (f_equal fst) in E. now apply Ht.
  - split; [intros E; apply (f_equal snd) in E; now apply Ht|].
    unfold calculateAngle. apply Degenerate.nan_cosine_gives_nan.
    vm_compute. reflexivity.
  - intros E. apply (f_equal fst) in E. now apply Hs.
  - split; [intros E; apply (f_equal fst) in E; now apply Hs|].
    rewrite calculateAngle_clamped.
    replace (clampedCosTheta (short, 0) (0, 0) (short, short)) with 1
      by (vm_compute; reflexivity).
    reflexivity.
Qed.

(** * Further properties *)

(** ** More on binary64 *)

Module FloatOrder.

Import FloatFacts.

Lemma nan_unique x : is_nan x = true -> x = nan.
Proof.
  intros H. apply Prim2SF_inj. apply is_nan_spec in H. now rewrite H.
Qed.

Lemma nan_not_above k c : is_nan k = true -> Js.gt k c = false.
Proof.
  intros H. unfold Js.gt. destruct (c <? k) eqn:E; [|reflexivity].
  destruct (ltb_not_nan _ _ E). congruence.
Qed.

Lemma nan_not_below k c : is_nan k = true -> Js.lt k c = false.
Proof.
  intros H. unfold Js.lt. destruct (k <? c) eqn:E; [|reflexivity].
  destruct (ltb_not_nan _ _ E). congruence.
Qed.

Lemma above_85_not_below_30 k : Js.gt k 85 = true -> Js.lt k 30 = false.
Proof.
  intros H. destruct (Js.lt k 30) eqn:E; [|reflexivity].
  now rewrite (below_30_not_above_85 k E) in H.
Qed.

Lemma Math_max_idem a : Js.Math_max a a = a.
Proof.
  unfold Js.Math_max. destruct (is_nan a) eqn:E; cbn [orb].
  - symmetry. now apply nan_unique.
  - rewrite ltb_irrefl. now destruct (is_zero a && get_sign a).
Qed.

Lemma Math_min_idem a : Js.Math_min a a = a.
Proof.
  unfold Js.Math_min. destruct (is_nan a) eqn:E; cbn [orb].
  - symmetry. now apply nan_unique.
  - rewrite ltb_irrefl. now destruct (is_zero a && get_sign a).
Qed.

Lemma SFcompare_eq_compat_r a b c :
  SFcompare a b = Some Eq -> SFcompare c a = SFcompare c b.
Proof.
  destruct a as [sa|sa| |sa ma ea], b as [sb|sb| |sb mb eb],
           c as [sc|sc| |sc mc ec];
    simpl; try discriminate; try reflexivity;
    repeat match goal with s : bool |- _ => destruct s end; simpl;
    try discriminate; try reflexivity.
  all: intros H; injection H as H; revert H.
  all: destruct (Z.compare_spec ea eb); try discriminate; subst;
    rewrite ?Pos.compare_cont_spec;
    destruct (Pos.compare_spec ma mb); simpl; try discriminate; subst;
    reflexivity.
Qed.

Lemma ltb_eq_compat_r x y z :
  is_nan x = false -> is_nan y = false ->
  (x <? y) = false -> (y <? x) = false ->
  (z <? x) = (z <? y).
Proof.
  rewrite !is_nan_false, !ltb_spec. unfold SFltb. intros Hx Hy H1 H2.
  rewrite (SFcompare_eq_compat_r (Prim2SF x) (Prim2SF y)); [reflexivity|].
  apply SFcompare_total; trivial; intros C; rewrite C in *; discriminate.
Qed.

(** Below, "[x] is at most [y]" reads [(y <? x) = false] on numbers. *)

(** [a <= b <= c] gives [a <= c]. *)
Lemma nlt_trans a b c :
  is_nan a = false -> is_nan b = false ->
  (b <? a) = false -> (c <? b) = false -> (c <? a) = false.
Proof.
  intros Ha Hb H1 H2. destruct (c <? a) eqn:E; [|reflexivity].
  destruct (a <? b) eqn:E1.
  - now rewrite (ltb_trans _ _ _ E E1) in H2.
  - rewrite (ltb_eq_compat_r a b c Ha Hb E1 H1) in E. congruence.
Qed.

(** [a < b <= c] gives [a < c]. *)
Lemma lt_nlt_trans a b c :
  is_nan c = false ->
  (a <? b) = true -> (c <? b) = false -> (a <? c) = true.
Proof.
  intros Hc H1 H2. destruct (ltb_not_nan _ _ H1) as [_ Hb].
  destruct (b <? c) eqn:E; [now apply ltb_trans with b|].
  now rewrite <- (ltb_eq_compat_r b c a Hb Hc E H2).
Qed.

(** [a <= b < c] gives [a < c]. *)
Lemma nlt_lt_trans a b c :
  is_nan a = false ->
  (b <? a) = false -> (b <? c) = true -> (a <? c) = true.
Proof.
  intros Ha H1 H2. destruct (ltb_not_nan _ _ H2) as [Hb _].
  destruct (a <? b) eqn:E; [now apply ltb_trans with b|].
  now rewrite (ltb_eq_compat a b c Ha Hb E H1).
Qed.

Lemma Math_max_number a b :
  is_nan a = false -> is_nan b = false ->
  is_nan (Js.Math_max a b) = false /\
  (Js.Math_max a b <? a) = false /\ (Js.Math_max a b <? b) = false.
Proof.
  intros Ha Hb. unfold Js.Math_max. rewrite Ha, Hb. cbn [orb].
  destruct (a <? b) eqn:E1.
  - repeat split; [exact Hb|now apply ltb_asym|apply ltb_irrefl].
  - destruct (b <? a) eqn:E2.
    + repeat split; [exact Ha|apply ltb_irrefl|exact E1].
    + destruct (is_zero a && get_sign a).
      * repeat split; [exact Hb|exact E2|apply ltb_irrefl].
      * repeat split; [exact Ha|apply ltb_irrefl|exact E1].
Qed.

Lemma Math_min_number a b :
  is_nan a = false -> is_nan b = false ->
  is_nan (Js.Math_min a b) = false /\
  (a <? Js.Math_min a b) = false /\ (b <? Js.Math_min a b) = false.
Proof.
  intros Ha Hb. unfold Js.Math_min. rewrite Ha, Hb. cbn [orb].
  destruct (a <? b) eqn:E1.
  - repeat split; [exact Ha|apply ltb_irrefl|now apply ltb_asym].
  - destruct (b <? a) eqn:E2.
    + repeat split; [exact Hb|exact E1|apply ltb_irrefl].
    + destruct (is_zero a && get_sign a).
      * repeat split; [exact Ha|apply ltb_irrefl|exact E2].
      * repeat split; [exact Hb|exact E1|apply ltb_irrefl].
Qed.

(** A running maximum of numbers is a number, at least its start and at
    least every number folded in. *)
Lemma fold_max_bounds l : forall a,
  is_nan a = false -> Forall (fun k => is_nan k = false) l ->
  let M := foldl Js.Math_max a l in
  is_nan M = false /\ (M <? a) = false /\
  Forall (fun k => (M <? k) = false) l.
Proof.
  induction l as [|b l IH]; intros a Ha Hl; cbv zeta; cbn [foldl].
  - repeat split; [exact Ha|apply ltb_irrefl|constructor].
  - inversion Hl as [|? ? Hb Hl']; subst.
    destruct (Math_max_number a b Ha Hb) as (N & L & R).
    destruct (IH (Js.Math_max a b) N Hl') as (N' & L' & F).
    split; [exact N'|]. split.
    + now apply nlt_trans with (Js.Math_max a b).
    + constructor; [|exact F]. now apply nlt_trans with (Js.Math_max a b).
Qed.

Lemma fold_min_bounds l : forall a,
  is_nan a = false -> Forall (fun k => is_nan k = false) l ->
  let m := foldl Js.Math_min a l in
  is_nan m = false /\ (a <? m) = false /\
  Forall (fun k => (k <? m) = false) l.
Proof.
  induction l as [|b l IH]; intros a Ha Hl; cbv zeta; cbn [foldl].
  - repeat split; [exact Ha|apply ltb_irrefl|constructor].
  - inversion Hl as [|? ? Hb Hl']; subst.
    destruct (Math_min_number a b Ha Hb) as (N & L & R).
    destruct (IH (Js.Math_min a b) N Hl') as (N' & L' & F).
    split; [exact N'|]. split.
    + now apply nlt_trans with (Js.Math_min a b).
    + constructor; [|exact F]. now apply nlt_trans with (Js.Math_min a b).
Qed.

(** NaN goes through the arithmetic. *)

Lemma sub_nan_l x y : is_nan x = true -> is_nan (x - y) = true.
Proof. rewrite !is_nan_spec, sub_spec. intros ->. reflexivity. Qed.

Lemma sub_nan_r x y : is_nan y = true -> is_nan (x - y) = true.
Proof.
  rewrite !is_nan_spec, sub_spec. intros ->. unfold SF64sub.
  now destruct (Prim2SF x).
Qed.

Lemma mul_nan_l x y : is_nan x = true -> is_nan (x * y) = true.
Proof. rewrite !is_nan_spec, mul_spec. intros ->. reflexivity. Qed.

Lemma mul_nan_r x y : is_nan y = true -> is_nan (x * y) = true.
Proof.
  rewrite !is_nan_spec, mul_spec. intros ->. unfold SF64mul.
  now destruct (Prim2SF x).
Qed.

Lemma add_nan_l x y : is_nan x = true -> is_nan (x + y) = true.
Proof. rewrite !is_nan_spec, add_spec. intros ->. reflexivity. Qed.

Lemma add_nan_r x y : is_nan y = true -> is_nan (x + y) = true.
Proof.
  rewrite !is_nan_spec, add_spec. intros ->. unfold SF64add.
  now destruct (Prim2SF x).
Qed.

Lemma div_nan_l x y : is_nan x = true -> is_nan (x / y) = true.
Proof. rewrite !is_nan_spec, div_spec. intros ->. reflexivity. Qed.

(** The product does not depend on the order of its factors. *)

Lemma SF64mul_comm a b : SF64mul a b = SF64mul b a.
Proof.
  unfold SF64mul.
  destruct a as [sa|sa| |sa ma ea], b as [sb|sb| |sb mb eb]; simpl;
    rewrite ?(xorb_comm sa sb), ?(Pos.mul_comm ma mb), ?(Z.add_comm ea eb);
    reflexivity.
Qed.

Lemma float_mul_comm (x y : float) : x * y = y * x.
Proof. apply Prim2SF_inj. rewrite !mul_spec. apply SF64mul_comm. Qed.

(** Signs: an absolute value divided by a positive number. *)

Lemma binary_round_aux_unsigned m e l :
  unsigned (binary_round_aux prec emax false m e l).
Proof.
  unfold binary_round_aux.
  destruct (shr_fexp prec emax m e l) as [mrs' e'].
  destruct (shr_fexp prec emax _ e' loc_Exact) as [mrs'' e''].
  destruct (shr_m mrs''); [reflexivity| |exact I].
  destruct (e'' <=? emax - prec)%Z; reflexivity.
Qed.

Lemma abs_unsigned x : unsigned (Prim2SF (abs x)).
Proof. rewrite abs_spec. now destruct (Prim2SF x). Qed.

Lemma div_unsigned x y :
  unsigned (Prim2SF x) -> (0 <? y) = true -> unsigned (Prim2SF (x / y)).
Proof.
  rewrite ltb_spec, div_spec. unfold SFltb, SF64div, SFdiv.
  change (Prim2SF 0) with (S754_zero false).
  destruct (Prim2SF x) as [sx|sx| |sx mx ex],
           (Prim2SF y) as [sy|sy| |sy my ey]; cbn;
    try discriminate; try (intros ->); try destruct sy; try discriminate;
    intros _; try reflexivity; try exact I.
  destruct (SFdiv_core_binary prec emax (Z.pos mx) ex (Z.pos my) ey)
    as [[mz ez] lz].
  apply binary_round_aux_unsigned.
Qed.

Lemma unsigned_not_below_zero x : unsigned (Prim2SF x) -> (x <? 0) = false.
Proof.
  rewrite ltb_spec. unfold SFltb.
  change (Prim2SF 0) with (S754_zero false).
  destruct (Prim2SF x) as [s|s| |s m e]; cbn; try reflexivity;
    intros ->; reflexivity.
Qed.

End FloatOrder.

(** ** [calculateAngle]: order of the arms, NaN coordinates *)

(** X1: the angle at [b] does not depend on which of the two other points
    is passed first: on binary64, for all six coordinates (NaN and
    infinities included) and any math library. *)
Theorem calculateAngle_symmetric acos (a b c : Vec2) :
  calculateAngle acos a b c = calculateAngle acos c b a.
Proof.
  unfold calculateAngle. cbv zeta. cbn [fst snd].
  rewrite (FloatOrder.float_mul_comm (fst a - fst b) (fst c - fst b)).
  rewrite (FloatOrder.float_mul_comm (snd a - snd b) (snd c - snd b)).
  rewrite (FloatOrder.float_mul_comm
             (Js.Math_sqrt (Js.sq (fst a - fst b) + Js.sq (snd a - snd b)))).
  reflexivity.
Qed.

(** X2: a NaN among the six coordinates makes the result NaN: nothing is
    thrown and no angle is made up. *)
Theorem nan_coordinate_gives_NaN acos (a b c : Vec2) :
  is_nan (fst a) || is_nan (snd a) || is_nan (fst b) || is_nan (snd b)
  || is_nan (fst c) || is_nan (snd c) = true ->
  is_nan (calculateAngle acos a b c) = true.
Proof.
  intros H. unfold calculateAngle. apply Degenerate.nan_cosine_gives_nan.
  cbn [fst snd]. apply FloatOrder.div_nan_l.
  repeat (apply orb_true_iff in H as [H|H]).
  - apply FloatOrder.add_nan_l, FloatOrder.mul_nan_l, FloatOrder.sub_nan_l, H.
  - apply FloatOrder.add_nan_r, FloatOrder.mul_nan_l, FloatOrder.sub_nan_l, H.
  - apply FloatOrder.add_nan_l, FloatOrder.mul_nan_l, FloatOrder.sub_nan_r, H.
  - apply FloatOrder.add_nan_r, FloatOrder.mul_nan_l, FloatOrder.sub_nan_r, H.
  - apply FloatOrder.add_nan_l, FloatOrder.mul_nan_r, FloatOrder.sub_nan_l, H.
  - apply FloatOrder.add_nan_r, FloatOrder.mul_nan_r, FloatOrder.sub_nan_l, H.
Qed.

(** A hip whose ordinate is NaN. *)
Lemma nan_coordinate_witness :
  is_nan (calculateAngle acos_pi (0.5, nan) (0.5, 0.5) (0.5, 0.75)) = true.
Proof. apply nan_coordinate_gives_NaN. reflexivity. Defined.

(** ** The screen under all its inputs *)

Lemma inv_ticks ts : forall o, Abs.inv o -> Abs.inv (foldl Abs.tick o ts).
Proof.
  induction ts as [|t ts IH]; intros o H; [exact H|].
  cbn [foldl]. apply IH. now apply inv_tick.
Qed.

Lemma handle_ok acos w i :
  wf w -> Abs.inv (observe w) ->
  wf (handle acos w i) /\ Abs.inv (observe (handle acos w i)).
Proof.
  intros Hw Hi. destruct i as [e| |]; cbn [handle].
  - rewrite step_lower.
    destruct (ticks_sim (lower acos e) w Hw) as [E Hw'].
    split; [exact Hw'|]. rewrite E. now apply inv_ticks.
  - split; [exact Hw|exact Hi].
  - split; [exact Hw|exact Hi].
Qed.

(** Every world a session reaches is well-formed and its observation
    satisfies the invariant. *)
Lemma session_ok acos t0 ins :
  wf (session acos t0 ins) /\ Abs.inv (observe (session acos t0 ins)).
Proof.
  unfold session. induction ins as [|i ins IH] using rev_ind.
  - split; [apply wf_initial|apply inv_initial].
  - rewrite foldl_app. cbn [foldl]. destruct IH as [Hw Hi].
    now apply handle_ok.
Qed.

(** A property of observations that holds at the first render and is kept
    by every tick and by the test button holds throughout a session. *)
Lemma session_invariant (P : Observation -> Prop) acos t0 ins :
  (forall t, P (observe (initialWorld t))) ->
  (forall o t, Abs.inv o -> P o -> P (Abs.tick o t)) ->
  (forall o, P o ->
     P (mkObservation (o_state o) (o_counter o) (o_stage o)
          ["Test Warning!"%string] (o_current o) (o_display o) (o_timers o)
          (o_next o) (o_now o))) ->
  P (observe (session acos t0 ins)).
Proof.
  intros H0 Ht Hb. unfold session.
  induction ins as [|i ins IH] using rev_ind; [apply H0|].
  rewrite foldl_app. cbn [foldl]. fold (session acos t0 ins) in *.
  destruct (session_ok acos t0 ins) as [Hw Hi].
  destruct i as [e| |]; cbn [handle].
  - rewrite step_lower.
    destruct (ticks_sim (lower acos e) _ Hw) as [E _]. rewrite E.
    clear E. revert IH Hi. generalize (observe (session acos t0 ins)).
    induction (lower acos e) as [|t ts IHt]; intros o Po Io; [exact Po|].
    cbn [foldl]. apply IHt; [now apply Ht|now apply inv_tick].
  - apply (Hb _ IH).
  - exact IH.
Qed.

Lemma currentAngles_observed w : currentAngles w = o_current (observe w).
Proof. reflexivity. Qed.

Lemma squatStage_observed w : squatStage w = o_stage (observe w).
Proof. reflexivity. Qed.

Lemma warningMessages_observed w : warningMessages w = o_warnings (observe w).
Proof. reflexivity. Qed.

(** ** Degenerate frames *)

(** A frame whose knee angle is NaN, on observations. *)
Lemma nan_knee_tick k h e x o :
  is_nan k = true ->
  let o' := Abs.body k h e x o in
  o_counter o' = o_counter o /\
  descending (o_state o') = descending (o_state o) /\
  o_stage o' = o_stage o /\ o_timers o' = o_timers o /\
  c_kneeAngle (o_current o') = k.
Proof.
  intros Hk. cbv zeta. unfold Abs.body, Abs.bodySeen. cbv zeta.
  fold (Abs.tracked k h e x (o_state o)).
  rewrite completes_tracked, (FloatOrder.nan_not_below k 30 Hk),
    (FloatOrder.nan_not_above k 85 Hk).
  cbn [andb]. oprojs.
  destruct (tracked_keeps k h e x (o_state o)) as (-> & _).
  rewrite (FloatOrder.nan_not_above k 85 Hk). repeat split.
Qed.

Lemma nan_knee_frame w k h e x :
  wf w -> is_nan k = true ->
  let w' := tick w (Angles k h e x) in
  c_kneeAngle (currentAngles w') = k /\
  squatCounter w' = squatCounter w /\
  phase w' = phase w /\
  squatStage w' = squatStage w /\
  map due (timers w') = map due (timers w).
Proof.
  intros Hw Hk w'. subst w'.
  destruct (tick_sim w (Angles k h e x) Hw) as [E _].
  rewrite currentAngles_observed, !squatCounter_observed, !phase_observed,
    !squatStage_observed, !dues_observed, E.
  cbn [Abs.tick].
  destruct (nan_knee_tick k h e x (observe w) Hk) as (A1 & A2 & A3 & A4 & A5).
  rewrite A1, A2, A3, A4, A5. repeat split.
Qed.

(** X3: a frame with all six landmarks in which the hip or the ankle
    landmark coincides with the knee landmark shows NaN as the live knee
    angle and neither starts nor completes a repetition: counter, phase,
    stage and the pending expiry stay as they are. *)
Theorem degenerate_frame_moves_no_phase
    acos t0 ins lm rShoulder rHip rKnee rAnkle rFootIndex rHeel :
  let w := session acos t0 ins in
  let w' := step acos w (Frame lm) in
  landmarkAt lm LANDMARK_INDICES.RIGHT_SHOULDER = Some rShoulder ->
  landmarkAt lm LANDMARK_INDICES.RIGHT_HIP = Some rHip ->
  landmarkAt lm LANDMARK_INDICES.RIGHT_KNEE = Some rKnee ->
  landmarkAt lm LANDMARK_INDICES.RIGHT_ANKLE = Some rAnkle ->
  landmarkAt lm LANDMARK_INDICES.RIGHT_FOOT_INDEX = Some rFootIndex ->
  landmarkAt lm LANDMARK_INDICES.RIGHT_HEEL = Some rHeel ->
  rHip = rKnee \/ rAnkle = rKnee ->
  is_nan (c_kneeAngle (currentAngles w')) = true /\
  squatCounter w' = squatCounter w /\
  phase w' = phase w /\
  squatStage w' = squatStage w /\
  map due (timers w') = map due (timers w).
Proof.
  cbv zeta. intros H1 H2 H3 H4 H5 H6 Hc.
  destruct (session_ok acos t0 ins) as [Hw _].
  rewrite step_lower. cbn [lower]. unfold frameAngles.
  rewrite H1, H2, H3, H4, H5, H6. cbn [ticks foldl].
  assert (Hk : is_nan (calculateAngle acos (lx rHip, ly rHip)
                         (lx rKnee, ly rKnee) (lx rAnkle, ly rAnkle)) = true).
  { destruct Hc as [ -> | -> ];
      [apply Degenerate.coincident_first|apply Degenerate.coincident_last]. }
  match goal with |- context [tick _ (Angles ?k ?h ?e ?x)] =>
    destruct (nan_knee_frame _ k h e x Hw Hk) as (A1 & A2 & A3 & A4 & A5)
  end.
  rewrite A1. repeat split; assumption.
Qed.

(** The frame [hipOnKnee] in the middle of a descent. *)
Lemma degenerate_frame_witness :
  let w := session acos_pi someTime [Analysis (Frame foldedLeg)] in
  let w' := step acos_pi w (Frame hipOnKnee) in
  is_nan (c_kneeAngle (currentAngles w')) = true /\
  squatCounter w' = squatCounter w /\
  phase w' = phase w /\
  squatStage w' = squatStage w /\
  map due (timers w') = map due (timers w).
Proof.
  apply (degenerate_frame_moves_no_phase acos_pi someTime
           [Analysis (Frame foldedLeg)] hipOnKnee
           (mkLandmark 0.5 0) (mkLandmark 0.5 0.5) (mkLandmark 0.5 0.5)
           (mkLandmark 0.5 0.75) (mkLandmark 0.75 0.75)
           (mkLandmark 0.5 0.75));
    try reflexivity.
  left. reflexivity.
Defined.

(** ** Stage and phase *)

Lemma stageAgrees_tick o t : stageAgrees o -> stageAgrees (Abs.tick o t).
Proof.
  intros H. destruct t as [k h e x|dt|]; cbn [Abs.tick].
  - unfold Abs.body, Abs.bodySeen. cbv zeta.
    fold (Abs.tracked k h e x (o_state o)).
    destruct (tracked_keeps k h e x (o_state o)) as (T1 & _).
    destruct (Js.lt k 30 && descending (Abs.tracked k h e x (o_state o))).
    + unfold stageAgrees. oprojs. right. repeat split. lia.
    + unfold stageAgrees in *. oprojs. rewrite T1.
      destruct (Js.gt k 85) eqn:Hk, (descending (o_state o)) eqn:Hd;
        cbn [negb andb orb]; try (left; now split); exact H.
  - exact H.
  - unfold Abs.reset, stageAgrees. oprojs. now split.
Qed.

(** X4: throughout a session, [squatStage] is ['down'] exactly while the
    tracker is descending; it is ['up'] only after a repetition has been
    counted and [null] only while the counter is 0; it takes no other
    value. *)
Theorem stage_follows_phase acos t0 ins :
  let w := session acos t0 ins in
  (squatStage w = Some "down"%string <-> phase w = true) /\
  (squatStage w = Some "up"%string -> (0 < squatCounter w)%N) /\
  (squatStage w = None -> squatCounter w = 0%N) /\
  (squatStage w = None \/ squatStage w = Some "down"%string \/
   squatStage w = Some "up"%string).
Proof.
  cbv zeta.
  assert (H : stageAgrees (observe (session acos t0 ins))).
  { apply session_invariant.
    - intros t. split; reflexivity.
    - intros o t _. apply stageAgrees_tick.
    - intros o Ho. exact Ho. }
  unfold stageAgrees in H. cbn [observe o_stage o_state o_counter] in H.
  unfold phase. destruct (squatStage (session acos t0 ins)) as [s|].
  - destruct H as [[-> H]|(-> & H & Hc)].
    + rewrite H. repeat split; try discriminate; auto.
    + rewrite H. repeat split; try discriminate; auto.
  - destruct H as [H Hc]. rewrite H. repeat split; try discriminate; auto.
Qed.

(** ** The extrema of a repetition *)

Lemma tracked_descending k h e x s :
  descending s = true -> Abs.tracked k h e x s = Abs.track k h e x s.
Proof.
  intros H. unfold Abs.tracked. now rewrite H, andb_false_r, H.
Qed.

Lemma tracked_start k h e x s :
  descending s = false -> Js.gt k 85 = true ->
  let s' := Abs.tracked k h e x s in
  descending s' = true /\
  maxKneeAngle s' = k /\ minKneeAngle s' = k /\
  maxHipAngle s' = h /\ maxHeelAngle s' = e.
Proof.
  intros Hd Hk. cbv zeta. unfold Abs.tracked. rewrite Hd, Hk. cbn [negb andb].
  cbn. rewrite !FloatOrder.Math_max_idem, FloatOrder.Math_min_idem.
  repeat split.
Qed.

Lemma body_state_no_completion k h e x o :
  Js.lt k 30 && descending (o_state o) = false ->
  o_state (Abs.body k h e x o) = Abs.tracked k h e x (o_state o) /\
  o_counter (Abs.body k h e x o) = o_counter o.
Proof.
  intros Hc. unfold Abs.body, Abs.bodySeen. cbv zeta.
  fold (Abs.tracked k h e x (o_state o)).
  rewrite completes_tracked, Hc. now split.
Qed.

Lemma body_display_completion k h e x o :
  Js.lt k 30 && descending (o_state o) = true ->
  let s2 := Abs.tracked k h e x (o_state o) in
  o_display (Abs.body k h e x o)
  = mkDisplayAngles k h e (minKneeAngle s2) (minHipAngle s2)
      (maxKneeAngle s2) (maxHipAngle s2) (maxHeelAngle s2) true 0
      (minHipAnkleDiff s2) /\
  o_counter (Abs.body k h e x o) = (o_counter o + 1)%N.
Proof.
  intros Hc. cbv zeta. unfold Abs.body, Abs.bodySeen. cbv zeta.
  fold (Abs.tracked k h e x (o_state o)).
  rewrite completes_tracked, Hc. now split.
Qed.

(** While the descent goes on, each frame folds its angles into the
    extrema. *)
Lemma continues_tick o t :
  descending (o_state o) = true -> continues t = true ->
  let o' := Abs.tick o t in
  descending (o_state o') = true /\
  o_counter o' = o_counter o /\
  maxKneeAngle (o_state o')
    = foldl Js.Math_max (maxKneeAngle (o_state o)) (option_list (kneeOf t)) /\
  minKneeAngle (o_state o')
    = foldl Js.Math_min (minKneeAngle (o_state o)) (option_list (kneeOf t)) /\
  maxHipAngle (o_state o')
    = foldl Js.Math_max (maxHipAngle (o_state o)) (option_list (hipOf t)) /\
  maxHeelAngle (o_state o')
    = foldl Js.Math_max (maxHeelAngle (o_state o)) (option_list (heelOf t)).
Proof.
  intros Hd Hc. cbv zeta. destruct t as [k h e x|dt|]; [| |discriminate].
  - cbn [continues] in Hc. apply negb_true_iff in Hc. cbn [Abs.tick].
    destruct (body_state_no_completion k h e x o) as [-> ->];
      [now rewrite Hc|].
    rewrite (tracked_descending _ _ _ _ _ Hd). cbn. rewrite Hd. repeat split.
  - cbn. rewrite Hd. repeat split.
Qed.

Lemma continues_ticks ts : forall o,
  descending (o_state o) = true -> forallb continues ts = true ->
  let o' := foldl Abs.tick o ts in
  descending (o_state o') = true /\
  o_counter o' = o_counter o /\
  maxKneeAngle (o_state o')
    = foldl Js.Math_max (maxKneeAngle (o_state o)) (omap kneeOf ts) /\
  minKneeAngle (o_state o')
    = foldl Js.Math_min (minKneeAngle (o_state o)) (omap kneeOf ts) /\
  maxHipAngle (o_state o')
    = foldl Js.Math_max (maxHipAngle (o_state o)) (omap hipOf ts) /\
  maxHeelAngle (o_state o')
    = foldl Js.Math_max (maxHeelAngle (o_state o)) (omap heelOf ts).
Proof.
  induction ts as [|t ts IH]; intros o Hd Hc; cbv zeta.
  - cbn. repeat split. exact Hd.
  - cbn [forallb] in Hc. apply andb_true_iff in Hc as [Ht Hc].
    destruct (continues_tick o t Hd Ht) as (D & C & K1 & K2 & K3 & K4).
    destruct (IH (Abs.tick o t) D Hc) as (D' & C' & K1' & K2' & K3' & K4').
    cbn [foldl]. split; [exact D'|]. split; [congruence|].
    rewrite K1', K2', K3', K4', K1, K2, K3, K4.
    destruct t as [k h e x|dt|]; cbn; repeat split.
Qed.

(** A repetition on observations: the frame that starts the descent, the
    ticks in the middle, the frame that completes it. *)
Lemma repetition_extrema o k0 h0 e0 x0 mid k h e x :
  descending (o_state o) = false -> Js.gt k0 85 = true ->
  forallb continues mid = true -> Js.lt k 30 = true ->
  let o' :=
    foldl Abs.tick o (Angles k0 h0 e0 x0 :: mid ++ [Angles k h e x]) in
  o_counter o' = (o_counter o + 1)%N /\
  descending (o_state o') = false /\
  showingLastRep (o_display o') = true /\
  d_maxKneeAngle (o_display o')
    = foldl Js.Math_max k0 (omap kneeOf mid ++ [k]) /\
  d_minKneeAngle (o_display o')
    = foldl Js.Math_min k0 (omap kneeOf mid ++ [k]) /\
  d_maxHipAngle (o_display o')
    = foldl Js.Math_max h0 (omap hipOf mid ++ [h]) /\
  d_maxHeelAngle (o_display o')
    = foldl Js.Math_max e0 (omap heelOf mid ++ [e]).
Proof.
  intros Hd Hk0 Hmid Hk. cbv zeta. cbn [foldl]. rewrite foldl_app.
  cbn [foldl Abs.tick].
  destruct (body_state_no_completion k0 h0 e0 x0 o) as [S1 C1].
  { now rewrite (FloatOrder.above_85_not_below_30 k0 Hk0). }
  destruct (tracked_start k0 h0 e0 x0 (o_state o) Hd Hk0)
    as (D1 & K1 & K2 & K3 & K4).
  set (o1 := Abs.body k0 h0 e0 x0 o) in *.
  rewrite <- S1 in D1, K1, K2, K3, K4.
  destruct (continues_ticks mid o1 D1 Hmid) as (D2 & C2 & M1 & M2 & M3 & M4).
  set (o2 := foldl Abs.tick o1 mid) in *.
  destruct (body_display_completion k h e x o2) as [E C3];
    [now rewrite Hk, D2|].
  rewrite E, C3, C2, C1. cbn [showingLastRep d_maxKneeAngle d_minKneeAngle
    d_maxHipAngle d_maxHeelAngle].
  rewrite (tracked_descending _ _ _ _ _ D2). cbn.
  rewrite M1, M2, M3, M4, K1, K2, K3, K4, !foldl_app. cbn [foldl].
  repeat split.
  unfold Abs.body, Abs.bodySeen. cbv zeta.
  fold (Abs.tracked k h e x (o_state o2)).
  now rewrite completes_tracked, Hk, D2.
Qed.

(** X5: a repetition is a frame with the knee above 85 seen while UP,
    then any frames with the knee not below 30 and any waiting, then a frame
    with the knee below 30. It is counted once, and its snapshot holds the
    running [Math.max] of the knee, hip and heel angles and the running
    [Math.min] of the knee angles of exactly these frames, the first and
    the last included. *)
Theorem snapshot_holds_repetition_extrema
    acos t0 ins k0 h0 e0 x0 mid k h e x :
  let w := session acos t0 ins in
  let w' := ticks w (Angles k0 h0 e0 x0 :: mid ++ [Angles k h e x]) in
  phase w = false -> Js.gt k0 85 = true ->
  forallb continues mid = true -> Js.lt k 30 = true ->
  squatCounter w' = (squatCounter w + 1)%N /\
  phase w' = false /\
  showingLastRep (displayAngles w') = true /\
  d_maxKneeAngle (displayAngles w')
    = foldl Js.Math_max k0 (omap kneeOf mid ++ [k]) /\
  d_minKneeAngle (displayAngles w')
    = foldl Js.Math_min k0 (omap kneeOf mid ++ [k]) /\
  d_maxHipAngle (displayAngles w')
    = foldl Js.Math_max h0 (omap hipOf mid ++ [h]) /\
  d_maxHeelAngle (displayAngles w')
    = foldl Js.Math_max e0 (omap heelOf mid ++ [e]).
Proof.
  cbv zeta. intros Hd Hk0 Hmid Hk.
  destruct (session_ok acos t0 ins) as [Hw _].
  destruct (ticks_sim (Angles k0 h0 e0 x0 :: mid ++ [Angles k h e x]) _ Hw)
    as [E _].
  rewrite phase_observed, squatCounter_observed, !displayAngles_observed, E.
  rewrite (squatCounter_observed (session acos t0 ins)).
  now apply repetition_extrema.
Qed.

(** A repetition of five frames. *)
Lemma repetition_extrema_witness :
  let w' := ticks (session acos_pi someTime [])
              (Angles 90 100 80 0.5
               :: [Angles 120 110 85 0.5; Wait 33; Angles 60 95 95 0.5]
               ++ [Angles 20 90 90 0.5]) in
  squatCounter w' = 1%N /\
  d_maxKneeAngle (displayAngles w') = 120 /\
  d_minKneeAngle (displayAngles w') = 20 /\
  d_maxHipAngle (displayAngles w') = 110 /\
  d_maxHeelAngle (displayAngles w') = 95.
Proof.
  intros w'.
  destruct (snapshot_holds_repetition_extrema acos_pi someTime []
              90 100 80 0.5
              [Angles 120 110 85 0.5; Wait 33; Angles 60 95 95 0.5]
              20 90 90 0.5 eq_refl eq_refl eq_refl eq_refl)
    as (H1 & _ & _ & H4 & H5 & H6 & H7).
  fold w' in H1, H4, H5, H6, H7.
  rewrite H1, H4, H5, H6, H7. vm_compute. repeat split.
Defined.

Lemma numeric_omap_knees ts :
  numericKnees ts -> Forall (fun k => is_nan k = false) (omap kneeOf ts).
Proof.
  induction 1 as [|t ts Ht _ IH]; [constructor|].
  destruct t as [k h e x|dt|]; cbn; [constructor; assumption|exact IH..].
Qed.

Lemma repetition_bounds k0 mid k :
  Js.gt k0 85 = true -> Js.lt k 30 = true -> numericKnees mid ->
  let M := foldl Js.Math_max k0 (omap kneeOf mid ++ [k]) in
  let m := foldl Js.Math_min k0 (omap kneeOf mid ++ [k]) in
  Js.gt M 85 = true /\ Js.lt m 30 = true /\
  Forall (fun k' => Js.gt k' M = false /\ Js.lt k' m = false)
    (k0 :: omap kneeOf mid ++ [k]).
Proof.
  intros Hk0 Hk Hn.
  destruct (FloatFacts.ltb_not_nan _ _ Hk0) as [_ N0].
  destruct (FloatFacts.ltb_not_nan _ _ Hk) as [N1 _].
  assert (Hl : Forall (fun k => is_nan k = false) (omap kneeOf mid ++ [k])).
  { apply Forall_app. split; [now apply numeric_omap_knees|].
    constructor; [exact N1|constructor]. }
  destruct (FloatOrder.fold_max_bounds _ k0 N0 Hl) as (NM & LM & FM).
  destruct (FloatOrder.fold_min_bounds _ k0 N0 Hl) as (Nm & Lm & Fm).
  cbv zeta in *. unfold Js.gt, Js.lt in *.
  split; [|split].
  - now apply FloatOrder.lt_nlt_trans with k0.
  - pose proof Fm as Fm'. apply Forall_app in Fm' as [_ Fk].
    inversion Fk as [|? ? Fk' _]; subst.
    now apply FloatOrder.nlt_lt_trans with k.
  - constructor; [now split|]. apply Forall_and. now split.
Qed.

(** X6: when the knee angles of a repetition are numbers, the maximum in
    its snapshot is above 85, the minimum is below 30, and no knee angle of
    the repetition is above the maximum or below the minimum. Frames before
    the repetition do not matter. *)
Theorem numeric_repetition_between_extrema
    acos t0 ins k0 h0 e0 x0 mid k h e x :
  let w := session acos t0 ins in
  let w' := ticks w (Angles k0 h0 e0 x0 :: mid ++ [Angles k h e x]) in
  let M := d_maxKneeAngle (displayAngles w') in
  let m := d_minKneeAngle (displayAngles w') in
  phase w = false -> Js.gt k0 85 = true ->
  forallb continues mid = true -> Js.lt k 30 = true ->
  numericKnees mid ->
  Js.gt M 85 = true /\ Js.lt m 30 = true /\
  Forall (fun k' => Js.gt k' M = false /\ Js.lt k' m = false)
    (k0 :: omap kneeOf mid ++ [k]).
Proof.
  cbv zeta. intros Hd Hk0 Hmid Hk Hn.
  destruct (session_ok acos t0 ins) as [Hw _].
  destruct (ticks_sim (Angles k0 h0 e0 x0 :: mid ++ [Angles k h e x]) _ Hw)
    as [E _].
  rewrite !displayAngles_observed, E.
  rewrite phase_observed in Hd.
  destruct (repetition_extrema (observe (session acos t0 ins))
              k0 h0 e0 x0 mid k h e x Hd Hk0 Hmid Hk)
    as (_ & _ & _ & -> & -> & _).
  now apply repetition_bounds.
Qed.

(** A repetition that follows a degenerate frame. *)
Lemma numeric_repetition_witness :
  let w := session acos_pi someTime [Analysis (Frame hipOnKnee)] in
  let w' := ticks w (Angles 90 100 80 0.5
                     :: [Angles 120 110 85 0.5; Wait 33] ++
                        [Angles 20 90 90 0.5]) in
  Js.gt (d_maxKneeAngle (displayAngles w')) 85 = true /\
  Js.lt (d_minKneeAngle (displayAngles w')) 30 = true /\
  Forall (fun k' => Js.gt k' (d_maxKneeAngle (displayAngles w')) = false /\
                    Js.lt k' (d_minKneeAngle (displayAngles w')) = false)
    [90; 120; 20].
Proof.
  apply (numeric_repetition_between_extrema acos_pi someTime
           [Analysis (Frame hipOnKnee)] 90 100 80 0.5
           [Angles 120 110 85 0.5; Wait 33] 20 90 90 0.5);
    try reflexivity.
  repeat constructor.
Defined.

(** ** The snapshot while it is shown *)

Lemma elapsed_cons t ts :
  elapsed (t :: ts)
  = (match t with Wait dt => Z.of_N dt | _ => 0 end + elapsed ts)%Z.
Proof. unfold elapsed. cbn [foldr]. destruct t; lia. Qed.

Lemma elapsed_nonneg ts : (0 <= elapsed ts)%Z.
Proof.
  induction ts as [|t ts IH]; [unfold elapsed; simpl; lia|].
  rewrite elapsed_cons. destruct t; lia.
Qed.

Lemma frozen_tick o T t :
  Abs.inv o -> Abs.deadline o T -> t <> ResetPressed ->
  o_counter (Abs.tick o t) = o_counter o ->
  (o_now (Abs.tick o t) < T)%Z ->
  o_display (Abs.tick o t) = o_display o.
Proof.
  intros Hi Hd Ht Hc Hn.
  destruct (deadline_tick o T t Hi Hd Ht Hc) as [Hd' Hnow].
  assert (Hs : showingLastRep (o_display o) = true).
  { rewrite (deadline_showing o T Hi Hd). apply Z.ltb_lt.
    rewrite Hnow in Hn. destruct t; lia. }
  destruct t as [k h e x|dt|]; [| |congruence]; cbn [Abs.tick] in *.
  - destruct (Js.lt k 30 && descending (o_state o)) eqn:Hk.
    + destruct (body_completion k h e x o Hi Hk) as (C1 & _). lia.
    + unfold Abs.body, Abs.bodySeen. cbv zeta.
      fold (Abs.tracked k h e x (o_state o)).
      rewrite completes_tracked, Hk, Hs. reflexivity.
  - unfold Abs.elapse in *. cbn [o_now o_display] in *.
    destruct Hd as [[i Ei]|[En Hle]]; [|lia].
    rewrite Ei, filter_cons, filter_nil. cbn [snd].
    destruct (decide (T <= o_now o + Z.of_N dt)%Z); [lia|reflexivity].
Qed.

Lemma frozen_ticks ts : forall o T,
  Abs.inv o -> Abs.deadline o T -> ResetPressed ∉ ts ->
  o_counter (foldl Abs.tick o ts) = o_counter o ->
  (o_now o + elapsed ts < T)%Z ->
  o_display (foldl Abs.tick o ts) = o_display o.
Proof.
  induction ts as [|t ts IH]; intros o T Hi Hd Hn Hc Hlt; [reflexivity|].
  apply not_elem_of_cons in Hn as [Ht Hn]. cbn [foldl] in *.
  assert (Hc1 : o_counter (Abs.tick o t) = o_counter o).
  { pose proof (counter_mono_tick o t (not_eq_sym Ht)).
    pose proof (counter_mono ts (Abs.tick o t) Hn). lia. }
  destruct (deadline_tick o T t Hi Hd (not_eq_sym Ht) Hc1) as [Hd1 Hnow].
  rewrite elapsed_cons in Hlt. pose proof (elapsed_nonneg ts).
  rewrite (IH (Abs.tick o t) T (inv_tick o t Hi) Hd1 Hn); [|congruence|lia].
  apply (frozen_tick o T t Hi Hd (not_eq_sym Ht) Hc1). lia.
Qed.

(** X7: for less than 3000 ms after a repetition completes, as long as no
    further repetition completes and the counter is not reset, and when
    every frame that arrives meanwhile is taken by the handler of the
    latest render, [displayAngles] stays the snapshot taken at completion:
    these frames change none of its fields. What happened before the
    repetition, and which renders took those frames, does not matter. *)
Theorem last_rep_snapshot_is_frozen t0 pre seen k h e x sts :
  let w := ticksSeen (initialWorld t0) pre in
  let w' := tickSeen w (seen, Angles k h e x) in
  completes w (Angles k h e x) = true ->
  latestRender w' sts ->
  ResetPressed ∉ map snd sts ->
  squatCounter (ticksSeen w' sts) = squatCounter w' ->
  (elapsed (map snd sts) < 3000)%Z ->
  displayAngles (ticksSeen w' sts) = displayAngles w'.
Proof.
  intros w w' Hc L Hn Hcnt Hlt.
  destruct (reachedSeen_ok t0 pre) as [Hw Hi]. fold w in Hw, Hi.
  destruct (tickSeen_sim w (seen, Angles k h e x) Hw) as [E Hw'].
  fold w' in E, Hw'. unfold Abs.tickSeen in E. cbn [fst snd] in E.
  unfold completes in Hc. rewrite phase_observed in Hc.
  destruct (bodySeen_completion seen k h e x (observe w) Hi Hc)
    as (Hi' & _ & _ & C4 & C5).
  rewrite <- E in Hi', C4, C5.
  rewrite (latest_ticks sts w' L) in *.
  destruct (ticks_sim (map snd sts) w' Hw') as [E' _].
  rewrite !squatCounter_observed, E' in Hcnt.
  rewrite !displayAngles_observed, E'.
  apply frozen_ticks with (T := (o_now (observe w') + 3000)%Z);
    [exact Hi'| |exact Hn|exact Hcnt|lia].
  left. exists (o_next (observe w)). rewrite C4, C5. reflexivity.
Qed.

(** Frames and 2999 ms after a repetition, each frame taken by the latest
    render; and a frame taken by a render that has not seen the snapshot,
    which replaces it by the live angles. *)
Lemma frozen_snapshot_witness :
  let w := ticksSeen (initialWorld someTime)
             [(false, Angles 180 90 90 0.5)] in
  let w' := tickSeen w (false, Angles 20 90 90 0.5) in
  displayAngles
    (ticksSeen w' [(true, Wait 1000); (true, Angles 170 80 80 0.5);
                   (true, Wait 1999)])
  = displayAngles w' /\
  d_kneeAngle (displayAngles (ticksSeen w' [(false, Angles 170 80 80 0.5)]))
  = 170 /\
  d_kneeAngle (displayAngles w') = 20.
Proof.
  intros w w'. split; [|split; vm_compute; reflexivity].
  apply (last_rep_snapshot_is_frozen someTime
           [(false, Angles 180 90 90 0.5)] false 20 90 90 0.5
           [(true, Wait 1000); (true, Angles 170 80 80 0.5);
            (true, Wait 1999)]).
  - vm_compute. reflexivity.
  - vm_compute. auto.
  - cbn [map snd]. rewrite !elem_of_cons, elem_of_nil.
    intros [C|[C|[C|C]]]; try discriminate; exact C.
  - vm_compute. reflexivity.
  - vm_compute. reflexivity.
Defined.

(** ** Warnings on display *)

Lemma depthRule_cases s :
  fst (Abs.depthRule s) = [] \/
  fst (Abs.depthRule s) = ["Too deep! Protect your knees"%string] \/
  fst (Abs.depthRule s) = ["Not deep enough! Go deeper"%string].
Proof.
  unfold Abs.depthRule.
  destruct (depthWarningGiven s), (Js.gt (maxKneeAngle s) 140),
    (Js.lt (maxKneeAngle s) 100); cbn; auto.
Qed.

Lemma knownWarnings_tick o t :
  knownWarnings (o_warnings o) -> knownWarnings (o_warnings (Abs.tick o t)).
Proof.
  intros H. destruct t as [k h e x|dt|]; cbn [Abs.tick].
  - unfold Abs.body, Abs.bodySeen. cbv zeta.
    fold (Abs.tracked k h e x (o_state o)).
    destruct (Js.lt k 30 && descending (Abs.tracked k h e x (o_state o)));
      oprojs.
    + match goal with |- context [fst (Abs.depthRule ?s)] =>
        destruct (depthRule_cases s) as [ -> | [ -> | -> ] ] end;
        cbn [length Nat.ltb Nat.leb];
        match goal with |- context [if ?c then [] else _] => destruct c end;
        unfold knownWarnings; auto.
    + match goal with |- context [if ?c then [] else _] => destruct c end;
        [left; reflexivity|exact H].
  - exact H.
  - left. reflexivity.
Qed.

(** X8: throughout a session the warning list is empty or holds exactly
    one message: one of the two depth warnings or the test warning. Two
    warnings are never on display together. *)
Theorem at_most_one_known_warning acos t0 ins :
  let w := session acos t0 ins in
  knownWarnings (warningMessages w) /\ (length (warningMessages w) <= 1)%nat.
Proof.
  cbv zeta.
  assert (H : knownWarnings (o_warnings (observe (session acos t0 ins)))).
  { apply session_invariant with (P := fun o => knownWarnings (o_warnings o)).
    - intros t. left. reflexivity.
    - intros o t _. apply knownWarnings_tick.
    - intros o _. right. right. right. reflexivity. }
  rewrite <- warningMessages_observed in H. split; [exact H|].
  destruct H as [ -> | [ -> | [ -> | -> ] ] ]; simpl; lia.
Qed.





(** ** After "Reset Counter" *)

Lemma sameRep_fields s1 s2 :
  sameRep s1 s2 ->
  descending s1 = descending s2 /\ minKneeAngle s1 = minKneeAngle s2 /\
  minHipAngle s1 = minHipAngle s2 /\ maxKneeForward s1 = maxKneeForward s2 /\
  depthWarningGiven s1 = depthWarningGiven s2 /\
  maxKneeAngle s1 = maxKneeAngle s2 /\ maxHipAngle s1 = maxHipAngle s2 /\
  maxHeelAngle s1 = maxHeelAngle s2 /\
  minHipAnkleDiff s1 = minHipAnkleDiff s2.
Proof.
  unfold sameRep. destruct s1, s2. cbn. intros H. injection H. intros.
  subst. repeat split.
Qed.

Lemma sameRep_tracked k h e x s1 s2 :
  sameRep s1 s2 -> sameRep (Abs.tracked k h e x s1) (Abs.tracked k h e x s2).
Proof.
  unfold sameRep. destruct s1, s2. cbn. intros H. injection H. intros. subst.
  unfold Abs.tracked. cbn [descending].
  destruct (Js.gt k 85);
    repeat match goal with d : bool |- _ => destruct d end; reflexivity.
Qed.

Lemma sameRep_depthRule s1 s2 :
  sameRep s1 s2 ->
  fst (Abs.depthRule s1) = fst (Abs.depthRule s2).
Proof.
  intros H. destruct (sameRep_fields s1 s2 H) as (_ & _ & _ & _ & D & M & _).
  unfold Abs.depthRule. rewrite D, M.
  destruct (depthWarningGiven s2), (Js.gt (maxKneeAngle s2) 140),
    (Js.lt (maxKneeAngle s2) 100); reflexivity.
Qed.

Lemma alike_timers a b :
  Abs.inv a -> Abs.inv b -> map snd (o_timers a) = map snd (o_timers b) ->
  (o_timers a = [] /\ o_timers b = []) \/
  exists i j T, o_timers a = [(i, T)] /\ o_timers b = [(j, T)].
Proof.
  intros (_ & _ & Ha) (_ & _ & Hb) E.
  destruct (o_timers a) as [|[i T] [|? ?]], (o_timers b) as [|[j U] [|? ?]];
    try contradiction; try discriminate; [now left|].
  injection E as ->. right. now exists i, j, U.
Qed.

Lemma alike_body k h e x a b :
  Abs.inv a -> Abs.inv b -> alike a b ->
  alike (Abs.body k h e x a) (Abs.body k h e x b).
Proof.
  intros Ia Ib (S & C & G & W & Cu & D & T & N & L).
  pose proof (pending_cleared a Ia) as Pa.
  pose proof (pending_cleared b Ib) as Pb.
  pose proof (sameRep_tracked k h e x _ _ S) as S2.
  destruct (sameRep_fields _ _ S)
    as (F1 & F2 & F3 & F4 & F5 & F6 & F7 & F8 & F9).
  destruct (sameRep_fields _ _ S2)
    as (G1 & G2 & G3 & G4 & G5 & G6 & G7 & G8 & G9).
  destruct (tracked_keeps k h e x (o_state a)) as (_ & _ & Ta & La).
  destruct (tracked_keeps k h e x (o_state b)) as (_ & _ & Tb & Lb).
  unfold Abs.body, Abs.bodySeen. cbv zeta.
  fold (Abs.tracked k h e x (o_state a)).
  fold (Abs.tracked k h e x (o_state b)).
  rewrite Ta, Tb, Pa, Pb, G1, F1, F2, F3, F4, F6, F7, F8, F9, G2, G3, G6, G7,
    G8, G9, C, G, D, N.
  set (sa := Abs.tracked k h e x (o_state a)) in *.
  set (sb := Abs.tracked k h e x (o_state b)) in *.
  destruct (Js.lt k 30 && descending sb).
  - assert (R : fst (Abs.depthRule
                       (set_angleDisplayTimer (Some (o_next a)) sa))
                = fst (Abs.depthRule
                         (set_angleDisplayTimer (Some (o_next b)) sb))).
    { apply sameRep_depthRule. unfold sameRep in *. destruct sa, sb.
      cbn in *. exact S2. }
    rewrite R.
    set (ra := Abs.depthRule (set_angleDisplayTimer (Some (o_next a)) sa))
      in *.
    set (rb := Abs.depthRule (set_angleDisplayTimer (Some (o_next b)) sb))
      in *.
    assert (La' : lastWarningTime (snd ra) = lastWarningTime (o_state a)).
    { unfold ra. destruct (depthRule_keeps
        (set_angleDisplayTimer (Some (o_next a)) sa)) as (_ & -> & _).
      exact La. }
    assert (Lb' : lastWarningTime (snd rb) = lastWarningTime (o_state b)).
    { unfold rb. destruct (depthRule_keeps
        (set_angleDisplayTimer (Some (o_next b)) sb)) as (_ & -> & _).
      exact Lb. }
    unfold alike. oprojs. cbn [app map snd].
    destruct (0 <? length (fst rb))%nat eqn:Em.
    + cbn [lastWarningTime set_lastWarningTime Abs.fresh].
      rewrite !Z.sub_diag. repeat split; trivial.
    + cbn [lastWarningTime Abs.fresh]. rewrite La', Lb'.
      repeat split; trivial.
      * rewrite W. destruct (o_warnings b) as [|m l] eqn:Ew.
        -- now destruct (_ >? _)%Z, (_ >? _)%Z.
        -- rewrite L by (rewrite W; discriminate). reflexivity.
      * destruct (o_warnings a) as [|m l] eqn:Ew.
        -- destruct (_ >? _)%Z; congruence.
        -- intros _. apply L. discriminate.
  - unfold alike. oprojs. rewrite La, Lb. repeat split; trivial.
    + rewrite W. destruct (o_warnings b) as [|m l] eqn:Ew.
      * now destruct (_ >? _)%Z, (_ >? _)%Z.
      * rewrite L by (rewrite W; discriminate). reflexivity.
    + destruct (o_warnings a) as [|m l] eqn:Ew.
      * destruct (_ >? _)%Z; congruence.
      * intros _. apply L. discriminate.
Qed.

Lemma alike_elapse dt a b :
  Abs.inv a -> Abs.inv b -> alike a b ->
  alike (Abs.elapse dt a) (Abs.elapse dt b).
Proof.
  intros Ia Ib (S & C & G & W & Cu & D & T & N & L).
  unfold Abs.elapse, alike. cbv zeta. oprojs. rewrite N, D.
  destruct (alike_timers a b Ia Ib T) as [[-> ->]|(i & j & U & -> & ->)].
  - rewrite !filter_nil. repeat split; trivial.
  - rewrite !filter_cons, !filter_nil. cbn [snd].
    destruct (decide (U <= o_now b + Z.of_N dt)%Z),
      (decide (~ (U <= o_now b + Z.of_N dt)%Z)); try tauto;
      repeat split; trivial.
Qed.

Lemma alike_reset a b :
  Abs.inv a -> Abs.inv b -> alike a b -> alike (Abs.reset a) (Abs.reset b).
Proof.
  intros Ia Ib (S & C & G & W & Cu & D & T & N & L).
  unfold Abs.reset, alike. oprojs.
  rewrite (pending_cleared a Ia), (pending_cleared b Ib).
  repeat split; trivial. congruence.
Qed.

Lemma alike_ticks ts : forall a b,
  Abs.inv a -> Abs.inv b -> alike a b ->
  alike (foldl Abs.tick a ts) (foldl Abs.tick b ts).
Proof.
  induction ts as [|t ts IH]; intros a b Ia Ib H; [exact H|].
  cbn [foldl]. apply IH; [now apply inv_tick..|].
  destruct t; cbn [Abs.tick];
    [now apply alike_body|now apply alike_elapse|now apply alike_reset].
Qed.

Lemma alike_after_reset o :
  Abs.inv o -> alike (Abs.reset o) (observe (initialWorld (o_now o))).
Proof.
  intros Hi. unfold alike, Abs.reset. oprojs.
  rewrite (pending_cleared o Hi). cbn. repeat split. congruence.
Qed.

(** X10: after "Reset Counter", whatever happened before, the analysis
    behaves as after a first render at that moment: on every further run of
    frames, waiting and resets the two show the same counter, stage, phase,
    warnings, live angles and snapshot, with expiries due at the same
    times. (The last-warning time survives a reset, but only matters while
    a warning is on display.) *)
Theorem reset_behaves_as_first_render acos t0 ins es :
  let r := resetCounter (session acos t0 ins) in
  let a := run acos r es in
  let b := run acos (initialWorld (now r)) es in
  squatCounter a = squatCounter b /\
  squatStage a = squatStage b /\
  phase a = phase b /\
  warningMessages a = warningMessages b /\
  currentAngles a = currentAngles b /\
  displayAngles a = displayAngles b /\
  map due (timers a) = map due (timers b) /\
  now a = now b.
Proof.
  cbv zeta. destruct (session_ok acos t0 ins) as [Hw Hi].
  destruct (reset_sim _ Hw) as [Er Hr].
  assert (ET : now (resetCounter (session acos t0 ins))
               = o_now (observe (session acos t0 ins))).
  { rewrite now_observed, Er. reflexivity. }
  rewrite ET, !run_ticks.
  destruct (ticks_sim (concat (map (lower acos) es)) _ Hr) as [Ea _].
  destruct (ticks_sim (concat (map (lower acos) es)) _
              (wf_initial (o_now (observe (session acos t0 ins)))))
    as [Eb _].
  rewrite !squatCounter_observed, !squatStage_observed, !phase_observed,
    !warningMessages_observed, !currentAngles_observed,
    !displayAngles_observed, !dues_observed,
    (now_observed (ticks (resetCounter _) _)),
    (now_observed (ticks (initialWorld _) _)), Ea, Eb, Er.
  destruct (alike_ticks (concat (map (lower acos) es))
              (Abs.reset (observe (session acos t0 ins)))
              (observe (initialWorld (o_now (observe (session acos t0 ins))))))
    as (S & C & G & W & Cu & D & T & N & L).
  - now apply inv_reset.
  - apply inv_initial.
  - now apply alike_after_reset.
  - destruct (sameRep_fields _ _ S) as (F1 & _). repeat split; assumption.
Qed.

(** ** Fields that are never tracked *)

Lemma tracked_untracked k h e x s :
  minHipAngle (Abs.tracked k h e x s) = minHipAngle s /\
  minHipAnkleDiff (Abs.tracked k h e x s) = minHipAnkleDiff s /\
  backWarningGiven (Abs.tracked k h e x s) = backWarningGiven s /\
  toeWarningGiven (Abs.tracked k h e x s) = toeWarningGiven s.
Proof.
  unfold Abs.tracked, Abs.track, Abs.startDescent.
  destruct (Js.gt k 85), (descending s) eqn:E; cbn; rewrite ?E; cbn;
    repeat split.
Qed.

Lemma untracked_tick o t : untracked o -> untracked (Abs.tick o t).
Proof.
  intros ((S1 & S2 & S3 & S4) & (C1 & C2 & C3) & (D1 & D2 & D3)).
  destruct t as [k h e x|dt|]; cbn [Abs.tick].
  - unfold Abs.body, Abs.bodySeen. cbv zeta.
    fold (Abs.tracked k h e x (o_state o)).
    destruct (tracked_untracked k h e x (o_state o)) as (T1 & T2 & T3 & T4).
    destruct (Js.lt k 30 && descending (Abs.tracked k h e x (o_state o)));
      unfold untracked; oprojs;
      cbn [c_minHipAngle c_minHipAnkleDiff c_hipAnkleDiff d_minHipAngle
           d_minHipAnkleDiff d_hipAnkleDiff Abs.fresh minHipAngle
           minHipAnkleDiff backWarningGiven toeWarningGiven];
      rewrite ?T1, ?T2, ?T3, ?T4, ?S1, ?S2, ?S3, ?S4.
    + repeat split.
    + destruct (showingLastRep (o_display o)); cbn [negb d_minHipAngle
        d_minHipAnkleDiff d_hipAnkleDiff]; rewrite ?S1, ?S2; repeat split;
        assumption.
  - unfold Abs.elapse, untracked. cbv zeta. oprojs.
    split; [now repeat split|]. split; [now repeat split|].
    destruct (filter _ _); [now repeat split|].
    now destruct (o_display o).
  - repeat split.
Qed.

(** X11: the minimum hip angle, the hip-ankle difference and the back and
    toe warning flags are never updated: throughout a session the state
    object, the live angles and the snapshot hold their initial values
    (360, 999, 0, false) in these fields. *)
Theorem hip_minimum_is_never_tracked acos t0 ins :
  let w := session acos t0 ins in
  (minHipAngle (current w) = 360 /\ minHipAnkleDiff (current w) = 999 /\
   backWarningGiven (current w) = false /\
   toeWarningGiven (current w) = false) /\
  (c_minHipAngle (currentAngles w) = 360 /\
   c_minHipAnkleDiff (currentAngles w) = 999 /\
   c_hipAnkleDiff (currentAngles w) = 0) /\
  (d_minHipAngle (displayAngles w) = 360 /\
   d_minHipAnkleDiff (displayAngles w) = 999 /\
   d_hipAnkleDiff (displayAngles w) = 0).
Proof.
  cbv zeta. apply (session_invariant untracked acos t0 ins).
  - intros t. repeat split.
  - intros o t _. apply untracked_tick.
  - intros o H. exact H.
Qed.

(** ** The timer handle after the expiry *)

(** The world after a completing frame, and after its timer has run. *)
Lemma completion_then_expiry k h e x dt w :
  wf w -> Abs.inv (observe w) ->
  completes w (Angles k h e x) = true -> (3000 <= Z.of_N dt)%Z ->
  let w' := analyzeSquat_body k h e x w in
  let w'' := elapse dt w' in
  timers w' = [mkTimer (nextTimer w) (now w + 3000) (squatState_current w)] /\
  squatState_current w' = length (heap w) /\
  angleDisplayTimer (obj w' (squatState_current w)) = Some (nextTimer w) /\
  timers w'' = [] /\
  showingLastRep (displayAngles w'') = false /\
  squatState_current w'' = length (heap w) /\
  angleDisplayTimer (obj w'' (squatState_current w)) = None /\
  angleDisplayTimer (current w'') = Some (nextTimer w).
Proof.
  intros [Hwf Ht] Hi Hc Hdt.
  pose proof (pending_cleared _ Hi) as Hp. revert Hp Hc.
  destruct w as [hp cur cnt stg wrn ca da tms nxt nw].
  unfold completes, phase, observe, current. projs. oprojs.
  simpl in Hwf, Ht.
  destruct (wf_split hp cur Hwf) as (pre & s & post & -> & <-).
  rewrite obj_mid. intros Hp Hc.
  assert (Hp' : match angleDisplayTimer s with
                | Some id => filter (fun t => tid t <> id) tms
                | None => tms
                end = []).
  { destruct (angleDisplayTimer s).
    - rewrite <- map_filter_tid in Hp. now apply map_eq_nil in Hp.
    - now apply map_eq_nil in Hp. }
  cbv zeta. unfold analyzeSquat_body, analyzeSquat_bodySeen. projs.
  rewrite showAnglesSeen_nf. cbv zeta. projs.
  rewrite startGoingDown_nf. cbv zeta. rewrite trackAngles_nf, standUp_nf.
  fold (Abs.tracked k h e x s).
  rewrite completes_tracked, Hc.
  destruct (tracked_keeps k h e x s) as (_ & _ & T3 & _).
  rewrite T3, Hp'. cbv zeta. cbn [app].
  set (s3 := set_angleDisplayTimer (Some nxt) (Abs.tracked k h e x s)).
  set (s5 := if (0 <? length (fst (Abs.depthRule s3)))%nat
             then set_lastWarningTime nw (snd (Abs.depthRule s3))
             else snd (Abs.depthRule s3)).
  assert (H5 : angleDisplayTimer s5 = Some nxt).
  { unfold s5. destruct (depthRule_keeps s3) as (D1 & _).
    destruct (0 <? length (fst (Abs.depthRule s3)))%nat; cbn; rewrite D1;
      reflexivity. }
  rewrite app_mid_assoc, clearWarnings_nf. projs.
  rewrite obj_mid.
  split; [reflexivity|]. split; [now rewrite !length_app|].
  split; [exact H5|].
  unfold elapse. projs. cbv zeta.
  rewrite !filter_cons, !filter_nil. cbn [due].
  destruct (decide (nw + 3000 <= nw + Z.of_N dt)%Z) as [_|C]; [|lia].
  destruct (decide (~ (nw + 3000 <= nw + Z.of_N dt)%Z)) as [C|_]; [lia|].
  cbn [foldl captured]. unfold angleDisplayTimeout, setDisplayAngles. projs.
  rewrite mutate_mid. projs. unfold current. projs. rewrite obj_mid.
  split; [reflexivity|]. split; [reflexivity|].
  split; [now rewrite !length_app|]. split; [reflexivity|].
  unfold obj. projs.
  replace (pre ++ set_angleDisplayTimer None s5 :: post ++ [Abs.fresh s5])
    with ((pre ++ set_angleDisplayTimer None s5 :: post) ++ [Abs.fresh s5])
    by apply app_mid_assoc.
  replace (length (pre ++ s5 :: post))
    with (length (pre ++ set_angleDisplayTimer None s5 :: post))
    by (rewrite !length_app; reflexivity).
  rewrite (lookup_total_mid _ [] (Abs.fresh s5)). exact H5.
Qed.

(** X12: once the expiry set by a completed repetition has run, nothing is
    pending and the snapshot flag is false, but [squatState.current] still
    holds the handle of that timer: the callback cleared the field of the
    object it had captured, which [resetSquatRep] had replaced as the
    current one in the call that set the timer. *)
Theorem expired_handle_stays_in_the_ref acos t0 ins k h e x dt :
  let w := session acos t0 ins in
  let w' := tick w (Angles k h e x) in
  let w'' := elapse dt w' in
  completes w (Angles k h e x) = true -> (3000 <= Z.of_N dt)%Z ->
  timers w'' = [] /\
  showingLastRep (displayAngles w'') = false /\
  squatState_current w'' <> squatState_current w /\
  angleDisplayTimer (obj w'' (squatState_current w)) = None /\
  angleDisplayTimer (current w'') = Some (nextTimer w).
Proof.
  cbv zeta. intros Hc Hdt.
  destruct (session_ok acos t0 ins) as [Hw Hi].
  destruct (completion_then_expiry k h e x dt _ Hw Hi Hc Hdt)
    as (_ & _ & _ & H4 & H5 & H6 & H7 & H8).
  cbn [tick]. repeat split; trivial.
  rewrite H6. destruct Hw as [Hlt _]. lia.
Qed.

(** A repetition and three seconds. *)
Lemma expired_handle_witness :
  let w := session acos_pi someTime [Analysis (Frame foldedLeg)] in
  let w'' := elapse 3000 (tick w (Angles 20 90 90 0.5)) in
  timers w'' = [] /\
  showingLastRep (displayAngles w'') = false /\
  squatState_current w'' <> squatState_current w /\
  angleDisplayTimer (obj w'' (squatState_current w)) = None /\
  angleDisplayTimer (current w'') = Some (nextTimer w).
Proof.
  apply (expired_handle_stays_in_the_ref acos_pi someTime
           [Analysis (Frame foldedLeg)] 20 90 90 0.5 3000).
  - vm_compute. reflexivity.
  - vm_compute. discriminate.
Defined.

(** ** [getNormalizedBodyMeasurement] *)

(** X13: [getNormalizedBodyMeasurement] never throws, and it returns [null]
    exactly when one of the landmarks its measurement type checks for is
    missing: every property it reads belongs to a landmark it has checked. *)
Theorem getNormalizedBodyMeasurement_never_throws landmarks measurementType :
  exists r,
    getNormalizedBodyMeasurement landmarks measurementType = Normal r /\
    (r = None <->
     exists i, i ∈ required measurementType /\ landmarkAt landmarks i = None).
Proof.
  unfold getNormalizedBodyMeasurement. cbv zeta.
  destruct measurementType; cbn [required].
  - destruct (landmarkAt landmarks LANDMARK_INDICES.RIGHT_SHOULDER) eqn:E1,
      (landmarkAt landmarks LANDMARK_INDICES.RIGHT_HIP) eqn:E2,
      (landmarkAt landmarks LANDMARK_INDICES.RIGHT_ANKLE) eqn:E3;
      cbn [missing orb prop mbind Completion_bind]; eexists;
      (split; [reflexivity|]); split; try discriminate;
      try (intros _; eexists; (split; [|eassumption]); repeat constructor).
    intros (i & Hi & Hn).
    rewrite !elem_of_cons, elem_of_nil in Hi.
    destruct Hi as [ -> | [ -> | [ -> | [] ] ] ]; congruence.
  - destruct (landmarkAt landmarks LANDMARK_INDICES.RIGHT_SHOULDER) eqn:E1,
      (landmarkAt landmarks LANDMARK_INDICES.RIGHT_KNEE) eqn:E2,
      (landmarkAt landmarks LANDMARK_INDICES.RIGHT_ANKLE) eqn:E3,
      (landmarkAt landmarks LANDMARK_INDICES.RIGHT_FOOT_INDEX) eqn:E4;
      cbn [missing orb prop mbind Completion_bind]; eexists;
      (split; [reflexivity|]); split; try discriminate;
      try (intros _; eexists; (split; [|eassumption]); repeat constructor).
    intros (i & Hi & Hn).
    rewrite !elem_of_cons, elem_of_nil in Hi.
    destruct Hi as [ -> | [ -> | [ -> | [ -> | [] ] ] ] ]; congruence.
Qed.

(** X14: with its landmarks present and the shoulder at the height of the
    ankle, either measurement is 0: the body height is not above 0 (it is
    0, or NaN for a height that is not finite) and nothing is divided. *)
Theorem level_shoulder_and_ankle_measure_zero
    landmarks measurementType rShoulder rAnkle :
  (forall i, i ∈ required measurementType -> landmarkAt landmarks i <> None) ->
  landmarkAt landmarks LANDMARK_INDICES.RIGHT_SHOULDER = Some rShoulder ->
  landmarkAt landmarks LANDMARK_INDICES.RIGHT_ANKLE = Some rAnkle ->
  ly rShoulder = ly rAnkle ->
  getNormalizedBodyMeasurement landmarks measurementType = Normal (Some 0).
Proof.
  intros Hreq Hs Ha Hy.
  assert (Hz : Js.gt (abs (ly rShoulder - ly rAnkle)) 0 = false).
  { rewrite Hy. unfold Js.gt. rewrite ltb_spec, abs_spec. unfold SFltb.
    pose proof (Degenerate.sub_self (ly rAnkle)) as Z. unfold zn in Z.
    destruct (Prim2SF (ly rAnkle - ly rAnkle)); try contradiction;
      reflexivity. }
  unfold getNormalizedBodyMeasurement. cbv zeta. rewrite Hs, Ha.
  destruct measurementType; cbn [required] in Hreq.
  - destruct (landmarkAt landmarks LANDMARK_INDICES.RIGHT_HIP) as [p|] eqn:E;
      [|exfalso; apply (Hreq LANDMARK_INDICES.RIGHT_HIP);
        [repeat constructor|exact E]].
    cbn [missing orb prop mbind Completion_bind]. now rewrite Hz.
  - destruct (landmarkAt landmarks LANDMARK_INDICES.RIGHT_KNEE) as [p|] eqn:E;
      [|exfalso; apply (Hreq LANDMARK_INDICES.RIGHT_KNEE);
        [repeat constructor|exact E]].
    destruct (landmarkAt landmarks LANDMARK_INDICES.RIGHT_FOOT_INDEX)
      as [q|] eqn:E';
      [|exfalso; apply (Hreq LANDMARK_INDICES.RIGHT_FOOT_INDEX);
        [repeat constructor|exact E']].
    cbn [missing orb prop mbind Completion_bind]. now rewrite Hz.
Qed.

(** A body lying level: shoulder and ankle at ordinate 0.5. *)
Lemma level_body_witness :
  getNormalizedBodyMeasurement
    (frame (at_ 0.25 0.5) (at_ 0.5 0.25) (at_ 0.5 0.75) (at_ 0.75 0.5)
           None (at_ 0.75 0.75))
    kneeFootX
  = Normal (Some 0).
Proof.
  apply (level_shoulder_and_ankle_measure_zero _ kneeFootX
           (mkLandmark 0.25 0.5) (mkLandmark 0.75 0.5));
    try reflexivity.
  intros i Hi. cbn [required] in Hi.
  rewrite !elem_of_cons, elem_of_nil in Hi.
  destruct Hi as [ -> | [ -> | [ -> | [ -> | [] ] ] ] ]; discriminate.
Defined.

(** X15: the hip-ankle measurement is never below zero: it is an absolute
    value divided by a positive height, 0, or NaN. *)
Theorem hip_ankle_measurement_is_never_negative landmarks r :
  getNormalizedBodyMeasurement landmarks hipAnkleY = Normal (Some r) ->
  Js.lt r 0 = false.
Proof.
  unfold getNormalizedBodyMeasurement. cbv zeta.
  destruct (landmarkAt landmarks LANDMARK_INDICES.RIGHT_SHOULDER) as [s|],
    (landmarkAt landmarks LANDMARK_INDICES.RIGHT_HIP) as [p|],
    (landmarkAt landmarks LANDMARK_INDICES.RIGHT_ANKLE) as [a|];
    cbn [missing orb prop mbind Completion_bind]; try discriminate.
  intros H. injection H as <-. unfold Js.lt.
  apply FloatOrder.unsigned_not_below_zero.
  destruct (Js.gt (abs (ly s - ly a)) 0) eqn:E; [|reflexivity].
  apply FloatOrder.div_unsigned; [apply FloatOrder.abs_unsigned|exact E].
Qed.

(** The straight leg: the hip two thirds of the body height above the
    ankle. *)
Lemma hip_ankle_witness : Js.lt (0.5 / 0.75) 0 = false.
Proof.
  apply (hip_ankle_measurement_is_never_negative straightLeg).
  reflexivity.
Defined.

(** ** [formatDuration] *)

Module Strings.

Lemma string_length_app (s t : string) :
  String.length (s ++ t)
  = (String.length s + String.length t)%nat.
Proof. induction s as [|a s IH]; simpl; [reflexivity|now rewrite IH]. Qed.

Lemma string_app_inj (s1 s2 t1 t2 : string) :
  String.length s1 = String.length s2 -> (s1 ++ t1 = s2 ++ t2)%string ->
  s1 = s2 /\ t1 = t2.
Proof.
  revert s2. induction s1 as [|a s1 IH]; intros [|b s2]; simpl;
    try discriminate; [now split|].
  intros Hl H. injection Hl as Hl. injection H as -> H.
  destruct (IH s2 Hl H) as [-> ->]. now split.
Qed.

Lemma to_uint_nonnil n : N.to_uint n <> Decimal.Nil.
Proof.
  destruct n as [|p]; [discriminate|].
  apply DecimalPos.Unsigned.to_uint_nonnil.
Qed.

Lemma toString_inj a b : toString a = toString b -> a = b.
Proof.
  unfold toString. intros H.
  apply (f_equal NilZero.uint_of_string) in H.
  rewrite !NilZero.usu in H by apply to_uint_nonnil.
  injection H as H. now apply DecimalN.Unsigned.to_uint_inj.
Qed.

(** A decidable property checked on every number below a bound. *)
Lemma checked_below (P : N -> bool) (k : nat) :
  forallb P (map N.of_nat (seq 0 k)) = true ->
  forall s, (s < N.of_nat k)%N -> P s = true.
Proof.
  intros H s Hs. rewrite forallb_forall in H. apply H.
  apply in_map_iff. exists (N.to_nat s). split; [apply N2Nat.id|].
  apply in_seq. lia.
Qed.

Lemma padded_seconds s :
  (s < 60)%N -> padStart 2 "0" (toString s) = twoDigits s.
Proof.
  intros H. apply String.eqb_eq.
  apply (checked_below
           (fun s => String.eqb (padStart 2 "0" (toString s)) (twoDigits s))
           60); [vm_compute; reflexivity|exact H].
Qed.

Lemma twoDigits_inj a b :
  (a < 60)%N -> (b < 60)%N -> twoDigits a = twoDigits b -> a = b.
Proof.
  intros Ha Hb H. apply N.eqb_eq.
  assert (C : forallb
                (fun a => forallb
                   (fun b => implb (String.eqb (twoDigits a) (twoDigits b))
                               (N.eqb a b))
                   (map N.of_nat (seq 0 60)))
                (map N.of_nat (seq 0 60)) = true)
    by (vm_compute; reflexivity).
  apply (checked_below _ 60) with (s := a) in C; [|exact Ha].
  apply (checked_below _ 60) with (s := b) in C; [|exact Hb].
  now rewrite H, String.eqb_refl in C.
Qed.

Lemma formatDuration_shape n :
  formatDuration n
  = (toString (n / 60) ++ ":" ++ twoDigits (n mod 60))%string.
Proof.
  unfold formatDuration. cbv zeta.
  rewrite padded_seconds; [reflexivity|]. apply N.mod_lt. discriminate.
Qed.

End Strings.

(** X16: for whole seconds below 2^53, [formatDuration] writes the whole
    minutes in decimal without padding (and without an hours field), a
    colon, and the seconds below 60 as exactly two digits; two different
    durations below 2^53 are never written alike. *)
Theorem formatDuration_minutes_and_two_digit_seconds :
  (forall m s, (s < 60)%N -> (60 * m + s < 2 ^ 53)%N ->
     formatDuration (60 * m + s)
     = (toString m ++ ":" ++ twoDigits s)%string) /\
  (forall a b, (a < 2 ^ 53)%N -> (b < 2 ^ 53)%N ->
     formatDuration a = formatDuration b -> a = b).
Proof.
  split.
  - intros m s Hs _. rewrite Strings.formatDuration_shape.
    replace ((60 * m + s) / 60)%N with m
      by (apply (N.div_unique _ 60 m s); [exact Hs|reflexivity]).
    replace ((60 * m + s) mod 60)%N with s
      by (apply (N.mod_unique _ 60 m s); [exact Hs|reflexivity]).
    reflexivity.
  - intros a b _ _ H. rewrite !Strings.formatDuration_shape in H.
    assert (Hl : String.length (toString (a / 60))
                 = String.length (toString (b / 60))).
    { apply (f_equal String.length) in H.
      rewrite !Strings.string_length_app in H. simpl in H. lia. }
    destruct (Strings.string_app_inj _ _ _ _ Hl H) as [Hm Hs].
    apply Strings.toString_inj in Hm. injection Hs as Hs1 Hs0.
    assert (Hs : (a mod 60 = b mod 60)%N).
    { apply Strings.twoDigits_inj; try (apply N.mod_lt; discriminate).
      unfold twoDigits. now rewrite Hs1, Hs0. }
    rewrite (N.div_mod a 60), (N.div_mod b 60) by discriminate.
    now rewrite Hm, Hs.
Qed.

(** Two minutes and five seconds, and a full hour. *)
Lemma formatDuration_witness :
  formatDuration 125 = "2:05"%string /\
  formatDuration 3600 = "60:00"%string /\
  (formatDuration 125 = formatDuration 3600 -> 125 = 3600)%N.
Proof.
  destruct formatDuration_minutes_and_two_digit_seconds as [H1 H2].
  split; [|split].
  - exact (H1 2%N 5%N eq_refl eq_refl).
  - exact (H1 60%N 0%N eq_refl eq_refl).
  - apply H2; reflexivity.
Defined.


(** ** The recording screen *)

Module RecordingFacts.
Import Recording.

Ltac fields :=
  cbn [hasPermission isRecording isCameraReady recordingDuration cameraRef
       recordingTimerRef intervals nextInterval stopping alerts].

Lemma clear_the_only id (l : list nat) :
  l = [] \/ l = [id] -> filter (fun i => i <> id) l = [].
Proof.
  intros [ -> | -> ]; [reflexivity|].
  rewrite filter_cons, filter_nil. destruct (decide (id <> id)); congruence.
Qed.

Lemma timed_cases s :
  timed s ->
  (isRecording s = true /\
   exists id, intervals s = [id] /\ recordingTimerRef s = Some id) \/
  (isRecording s = false /\ intervals s = [] /\
   recordingDuration s = 0%N).
Proof.
  unfold timed. intros H.
  destruct (isRecording s); [left|right]; now split.
Qed.

Lemma timed_not_recording s :
  isRecording s = false -> intervals s = [] -> recordingDuration s = 0%N ->
  timed s.
Proof.
  intros Hr Hi Hd. unfold timed. rewrite Hr, Hi. now split.
Qed.

Lemma timed_step s e : timed s -> current s e -> timed (step s e).
Proof.
  intros H L. pose proof (timed_cases s H) as C.
  destruct e as [st| | | | |seen ready started|ok|m|sv|id]; cbn [step];
    try exact H.
  - unfold handleRecordPress. cbn [current] in L. subst seen.
    destruct ready; cbn [negb]; [|exact H].
    destruct C as [(Er & id & Hi & Hr)|(Er & Hi & Hd)]; rewrite Er;
      cbn [negb].
    + unfold stopRecording. destruct (cameraRef s); cbn [negb]; exact H.
    + unfold startRecording.
      destruct (cameraRef s); cbn [negb]; [|exact H].
      destruct started; [|exact H].
      unfold timed. cbn. rewrite Hi. cbn. now eexists.
  - unfold stopRecording_settled.
    destruct (stopping s) as [|n]; [exact H|].
    destruct ok; [|exact H].
    cbn [set_stopping setIsRecording setRecordingDuration recordingTimerRef].
    destruct C as [(Er & id & Hi & Hr)|(Er & Hi & Hd)].
    + rewrite Hr. apply timed_not_recording; cbn; trivial.
      rewrite Hi. apply clear_the_only. now right.
    + destruct (recordingTimerRef s); apply timed_not_recording; cbn;
        trivial. rewrite Hi. reflexivity.
  - unfold onRecordingError. cbv zeta.
    cbn [alert setIsRecording setRecordingDuration recordingTimerRef].
    destruct C as [(Er & id & Hi & Hr)|(Er & Hi & Hd)].
    + rewrite Hr. apply timed_not_recording; cbn; trivial.
      rewrite Hi. apply clear_the_only. now right.
    + destruct (recordingTimerRef s); apply timed_not_recording; cbn;
        trivial. rewrite Hi. reflexivity.
  - destruct sv; exact H.
  - destruct (decide (id ∈ intervals s)) as [Hin|]; [|exact H].
    destruct C as [(Er & i & Hi & Hr)|(Er & Hi & Hd)].
    + unfold timed, recordingTick, setRecordingDuration. fields.
      rewrite Er. now exists i.
    + rewrite Hi in Hin. inversion Hin.
Qed.

Lemma timed_foldl es :
  forall s, timed s -> latest s es -> timed (foldl step s es).
Proof.
  induction es as [|e es IH]; intros s H L; [exact H|].
  destruct L as [Le L]. cbn [foldl]. apply IH; [|exact L].
  now apply timed_step.
Qed.

Lemma timed_run es : latest initialScreen es -> timed (run es).
Proof.
  apply timed_foldl. unfold timed. cbn. now split.
Qed.

(** X17: on the recording screen, when every press is handled by the
    latest render, the timer that counts the seconds runs exactly while
    [isRecording] is true, whatever the camera does and however presses,
    callbacks and settled promises interleave: when not recording, no
    interval is active and the duration is 0; when recording, exactly one
    interval is active, the one kept in [recordingTimerRef]; and the
    unmount cleanup leaves no interval behind. *)
Theorem recording_timer_runs_while_recording es :
  latest initialScreen es ->
  let s := run es in
  (isRecording s = false ->
     intervals s = [] /\ recordingDuration s = 0%N) /\
  (isRecording s = true ->
     exists id, intervals s = [id] /\ recordingTimerRef s = Some id) /\
  intervals (cleanup s) = [].
Proof.
  intros L. cbv zeta. pose proof (timed_run es L) as H. unfold timed in H.
  destruct (isRecording (run es)) eqn:Er.
  - split; [discriminate|]. split; [intros _; exact H|].
    destruct H as (id & Hi & Hr). unfold cleanup. rewrite Hr. cbn.
    rewrite Hi. apply clear_the_only. now right.
  - split; [intros _; exact H|]. split; [discriminate|].
    destruct H as [Hi _]. unfold cleanup.
    destruct (recordingTimerRef (run es)); cbn; rewrite Hi; reflexivity.
Qed.

Lemma recording_timer_witness :
  let es := [CameraAttached; CameraInitialized; PressRecord false true true;
             IntervalFired 1; IntervalFired 1] in
  latest initialScreen es /\
  isRecording (run es) = true /\ recordingDuration (run es) = 2%N /\
  exists id, intervals (run es) = [id] /\
             recordingTimerRef (run es) = Some id.
Proof.
  intros es.
  assert (L : latest initialScreen es) by (cbn; repeat split).
  split; [exact L|]. split; [reflexivity|]. split; [reflexivity|].
  apply (recording_timer_runs_while_recording es L). reflexivity.
Defined.

End RecordingFacts.

(** ** The streaming screen *)

Module StreamingFacts.
Import Streaming.

Lemma seenBy_false timers id seen :
  Forall (fun t => snd t = false) timers ->
  seenBy timers id = Some seen -> seen = false.
Proof.
  intros F. unfold seenBy.
  destruct (list_find _ timers) as [[i t]|] eqn:E; [|discriminate].
  intros [= <-]. apply list_find_Some in E as (E & _).
  rewrite Forall_forall in F. apply F.
  eapply list_elem_of_lookup_2, E.
Qed.

Lemma filter_seen (P : nat * bool -> Prop) `{!forall t, Decision (P t)}
    timers :
  Forall (fun t => snd t = false) timers ->
  Forall (fun t => snd t = false) (filter P timers).
Proof.
  rewrite !Forall_forall. intros F t I. apply F.
  apply list_elem_of_filter in I. tauto.
Qed.

Lemma alter_pings (f : Socket -> Socket) i ks :
  (forall k, Forall isPing (sent k) -> Forall isPing (sent (f k))) ->
  Forall (fun k => Forall isPing (sent k)) ks ->
  Forall (fun k => Forall isPing (sent k)) (alter f i ks).
Proof.
  intros Hf F. revert i. induction F as [|k ks Hk F IH]; intros i.
  - constructor.
  - destruct i; cbn; constructor; auto.
Qed.

Ltac parts H :=
  destruct H as (Hi & Ht & Hp & Hf & Hn & Hc & Hs & Hk).

Ltac rebuild :=
  unfold idle; cbn; repeat split; auto.

Lemma idle_send now s : idle s -> idle (send (Ping now) s).
Proof.
  intros H. unfold send.
  destruct (wsRef s) as [i|]; [|exact H].
  destruct (sockets s !! i) as [k|] eqn:E; [|exact H].
  destruct (readyState k); try exact H.
  parts H. rebuild.
  rewrite Forall_forall in Hk |- *. intros k' I.
  apply list_elem_of_lookup in I as (j & I).
  destruct (decide (i = j)) as [<-|N].
  - rewrite list_lookup_insert_eq in I
      by (eapply lookup_lt_Some, E).
    injection I as <-. cbn. apply Forall_app. split.
    + eapply Hk, list_elem_of_lookup_2, E.
    + repeat constructor.
  - rewrite list_lookup_insert_ne in I by exact N.
    eapply Hk, list_elem_of_lookup_2, I.
Qed.

Lemma idle_connectWebSocket failure s :
  idle s -> idle (connectWebSocket failure s).
Proof.
  intros H. unfold connectWebSocket.
  destruct (socketIsOpen s); [exact H|].
  parts H. destruct failure; rebuild.
  apply Forall_app. split; [exact Hk|]. repeat constructor.
Qed.

Lemma idle_clear s :
  idle s ->
  idle match streamingIntervalRef s with
       | Some id => set_streamingIntervalRef None (clearInterval id s)
       | None => s
       end.
Proof.
  intros H. destruct (streamingIntervalRef s); [|exact H].
  parts H. rebuild. apply filter_seen, Hi.
Qed.

Lemma idle_stopStreaming s : idle s -> idle (stopStreaming s).
Proof.
  intros H. unfold stopStreaming.
  apply (idle_clear
           (setFrameCount 0 (set_frameCounterRef 0 (setIsStreaming false s)))).
  parts H. rebuild.
Qed.

Lemma idle_startStreaming failure s :
  idle s -> idle (startStreaming false failure s).
Proof.
  intros H. unfold startStreaming.
  destruct (socketIsOpen s); cbn [negb].
  - parts H. rebuild. apply Forall_app. split; [exact Hi|].
    repeat constructor.
  - apply idle_connectWebSocket. parts H. rebuild.
Qed.

Lemma idle_setReadyState i r s : idle s -> idle (setReadyState i r s).
Proof.
  intros H. parts H. rebuild. apply alter_pings; auto.
Qed.

Lemma idle_step s e : idle s -> idle (step s e).
Proof.
  intros H. destruct e; cbn [step].
  - parts H. rebuild.
  - parts H. rebuild.
  - parts H. rebuild.
  - unfold handleCirclePress. destruct seen; cbn [negb].
    + apply idle_stopStreaming, H.
    + destruct (socketIsOpen s); cbn [negb].
      * apply idle_startStreaming, H.
      * pose proof (idle_connectWebSocket failure s H) as H'.
        parts H'. rebuild. apply Forall_app. split; [exact Ht|].
        repeat constructor.
  - parts H. rebuild.
  - destruct (seenBy (timeouts s) id) as [seen|] eqn:E; [|exact H].
    assert (seen = false) as ->
      by (parts H; eapply seenBy_false; [exact Ht | exact E]).
    assert (idle (set_timeouts
                    (filter (fun t => fst t <> id) (timeouts s)) s)) as H'
      by (parts H; rebuild; apply filter_seen, Ht).
    unfold connectionTimeout.
    destruct (socketIsOpen _).
    + apply idle_startStreaming, H'.
    + parts H'. rebuild.
  - destruct (seenBy (intervals s) id) as [seen|] eqn:E; [|exact H].
    assert (seen = false) as ->
      by (parts H; eapply seenBy_false; [exact Hi | exact E]).
    unfold captureAndStreamFrame. cbn [negb].
    rewrite orb_true_r. exact H.
  - unfold photoSettled. parts H. rewrite Hp. rebuild.
  - unfold fileSettled. parts H. rewrite Hf. rebuild.
  - unfold socketState. destruct (sockets s !! i) as [k|]; [|exact H].
    destruct (readyState k); try exact H.
    unfold onopen. apply idle_send.
    pose proof (idle_setReadyState i OPEN s H) as H'.
    parts H'. rebuild.
  - unfold socketState. destruct (sockets s !! i) as [k|]; [|exact H].
    destruct (readyState k); try exact H.
    destruct data; exact H.
  - unfold socketState. destruct (sockets s !! i) as [k|]; [|exact H].
    pose proof (idle_setReadyState i CLOSED s H) as H'.
    destruct (readyState k); try exact H; unfold onclose;
      apply (idle_clear
               (setIsStreaming false
                  (setConnectionStatus "Disconnected"
                     (setReadyState i CLOSED s))));
      parts H'; rebuild.
  - unfold socketState. destruct (sockets s !! i) as [k|]; [|exact H].
    parts H. rebuild.
  - unfold cleanup, disconnectWebSocket.
    pose proof (idle_stopStreaming s H) as H'.
    destruct (wsRef (stopStreaming s)); parts H'; rebuild.
    apply alter_pings; [|exact Hk].
    intros k. destruct (readyState k); auto.
Qed.

Lemma idle_run es : idle (run es).
Proof.
  unfold run. induction es as [|e es IH] using rev_ind.
  - rebuild.
  - rewrite foldl_app. apply idle_step, IH.
Qed.

(** X18: whatever is pressed and whatever the camera, the timers and the
    backend do, the streaming screen never takes a photo and never sends a
    frame: the frame counters stay at zero and every message sent on any
    socket is the ping of [onopen]. The interval calls the
    [captureAndStreamFrame] of the render in which streaming was started,
    and [handleCirclePress] starts it only where [isStreaming] is false, so
    the guard of [captureAndStreamFrame] returns every time. *)
Theorem streaming_never_sends_a_frame es :
  let s := run es in
  photosTaken s = 0%nat /\ frameCounterRef s = 0%N /\
  frameCount s = 0%N /\
  forall k m, In k (sockets s) -> In m (sent k) -> exists now, m = Ping now.
Proof.
  intros s. destruct (idle_run es) as (_ & _ & _ & _ & Hn & Hc & Hs & Hk).
  repeat split; trivial. intros k m Ik Im.
  rewrite Forall_forall in Hk. apply list_elem_of_In in Ik, Im.
  specialize (Hk k Ik).
  rewrite Forall_forall in Hk. specialize (Hk m Im).
  destruct m; [eauto | destruct Hk].
Qed.

End StreamingFacts.
